(** * go-coap: pooled messages, message pools and peer sessions

    A shallow embedding of
      - the stream-framing pooled message and its pool   (package tcp/message/pool),
      - the datagram-framing pooled message and its pool (package udp/message/pool),
      - the DTLS session                                 (dtls/session.go),
      - the UDP session                                  (package udp),
    followed by the properties of the specification that were checked on them.
    [Marshal], [Unmarshal], [ConvertFrom], [ConvertTo] and [WriteMessage]
    go through the wire codecs of tcp/message and udp/message, which are not
    among the sources, and are left out.

    Conventions.  A Go pointer to a heap record is a location in a [gmap];
    a Go value that may be nil (slice header, interface, pointer to a
    scalar) is an [option]; an int32 is a [Z] whose wrap-around is written
    out; a panic is the [Panic] constructor of [outcome]. *)

From Stdlib Require Import ZArith List Bool Lia String.
From stdpp Require Import base option list gmap.
Import ListNotations.

Local Open Scope Z_scope.

(* ===================================================================== *)
(** ** Go primitives                                                      *)
(* ===================================================================== *)

(** What a Go call yields: a value, or a run-time panic with its message. *)
Inductive outcome (A : Type) : Type :=
| Ret (a : A)
| Panic (msg : string).
Arguments Ret {A} a.
Arguments Panic {A} msg.

(** Go's [error] interface values: a base error, or one produced by
    [fmt.Errorf("<prefix>: %w", inner)].  The nil error is [None]. *)
Inductive error : Type :=
| ErrNew (msg : string)
| ErrWrap (prefix : string) (inner : error).

(** Two's-complement wrap-around of an int32. *)
Definition wrap32 (z : Z) : Z := (z + 2 ^ 31) mod 2 ^ 32 - 2 ^ 31.

(** [atomic.AddInt32(&c, delta)] on a counter holding [c]. *)
Definition atomic_AddInt32 (c delta : Z) : Z := wrap32 (c + delta).

(** A byte slice: the elements in [0, len) and the capacity of the backing
    array.  [cap] is what Go's builtin returns. *)
Record slice : Type := mkSlice {
  elems : list Byte.byte;
  cap : nat
}.

(** [make([]byte, n)]: n zero bytes, capacity n. *)
Definition make (n : nat) : slice :=
  {| elems := repeat Byte.x00 n; cap := n |}.

Definition len (s : slice) : nat := length (elems s).

(** *** Contexts

    A [context.Context] is represented by the cancel functions that can end
    it: its own (when it was made by [context.WithCancel]) followed by those
    of its ancestors.  [context.Background()] is the empty chain.  The
    store records which cancel functions have been called. *)
Definition token := nat.

Module context.

Definition Context := list token.
Definition Background : Context := [].

Record Store : Type := mkStore {
  cancelled : gset token;
  next : token
}.

Definition empty : Store := {| cancelled := ∅; next := 0%nat |}.

(** [ctx, cancel := context.WithCancel(parent)] *)
Definition WithCancel (parent : Context) (st : Store)
    : (Context * token) * Store :=
  let t := next st in
  ((t :: parent, t), {| cancelled := cancelled st; next := S t |}).

(** Calling a [context.CancelFunc]; calling it again changes nothing. *)
Definition cancel (t : token) (st : Store) : Store :=
  {| cancelled := {[ t ]} ∪ cancelled st; next := next st |}.

(** [context.WithValue(parent, key, val)]: the same cancellation. *)
Definition WithValue (parent : Context) (key val : nat) : Context := parent.

(** Whether the channel [ctx.Done()] is closed: the context's own cancel
    function or one of an ancestor has been called. *)
Definition done (c : Context) (st : Store) : bool :=
  existsb (fun t => bool_decide (t ∈ cancelled st)) c.

(** [ctx.Err()] of a cancelled context. *)
Definition Canceled : error := ErrNew "context canceled".

End context.

(** Heap locations of [*Message] values. *)
Definition loc := nat.

(* ===================================================================== *)
(** ** Constants of packages that the two pools import                    *)
(* ===================================================================== *)

Module codes.
(** Modelled from the spec: the message-code constant [codes.Empty] of
    message/codes (not among the sources); "code is empty" is the zero
    code 0.00. *)
Definition Empty : Z := 0.
End codes.

Module udp.
(** Modelled from the spec: the message-type constants of udp/message (not
    among the sources).  [Type_] (Go's [udp.Type]) is an unsigned 8-bit integer holding the
    2-bit wire field; the four types are numbered in the order the data
    model lists them, {Confirmable, NonConfirmable, Acknowledgement,
    Reset}, which is the numbering of the wire format. *)
Definition Type_ := Z.
Definition Confirmable : Type_ := 0.
Definition NonConfirmable : Type_ := 1.
Definition Acknowledgement : Type_ := 2.
Definition Reset : Type_ := 3.
End udp.

(* ===================================================================== *)
(** ** The embedded generic container (message/pool.Message)              *)
(* ===================================================================== *)

Module msgpool.

(** One option of the ordered option list: (number, value). *)
Definition Option_ : Type := (Z * list Byte.byte)%type.

(** Modelled from the spec: the generic option/body/code/token container
    of message/pool (not among the sources) that both pooled messages
    embed.  It holds the code, the token (may be absent), the ordered
    option list, the optional body and its own dirty flag; [Reset]
    restores it to empty; every setter marks it dirty. *)
Record Message : Type := mkMessage {
  code : Z;
  token : option (list Byte.byte);
  options : list Option_;
  body : option (list Byte.byte);
  isModified : bool
}.

(** Modelled from the spec: [pool.NewMessage()], the empty container. *)
Definition NewMessage : Message :=
  {| code := codes.Empty; token := None; options := []; body := None;
     isModified := false |}.

(** Modelled from the spec: [Reset] "restores embedded container to
    empty", its dirty tracking included. *)
Definition Reset (m : Message) : Message := NewMessage.

Definition Code (m : Message) : Z := code m.
Definition Token (m : Message) : option (list Byte.byte) := token m.
Definition Options (m : Message) : list Option_ := options m.
Definition Body (m : Message) : option (list Byte.byte) := body m.
Definition IsModified (m : Message) : bool := isModified m.

Definition SetCode (c : Z) (m : Message) : Message :=
  {| code := c; token := token m; options := options m; body := body m;
     isModified := true |}.
Definition SetToken (t : option (list Byte.byte)) (m : Message) : Message :=
  {| code := code m; token := t; options := options m; body := body m;
     isModified := true |}.
Definition ResetOptionsTo (o : list Option_) (m : Message) : Message :=
  {| code := code m; token := token m; options := o; body := body m;
     isModified := true |}.
Definition SetBody (b : option (list Byte.byte)) (m : Message) : Message :=
  {| code := code m; token := token m; options := options m; body := b;
     isModified := true |}.
Definition SetModified (b : bool) (m : Message) : Message :=
  {| code := code m; token := token m; options := options m; body := body m;
     isModified := b |}.

End msgpool.

Definition maxMessagePool : Z := 10240.
Definition maxMessageBufferSize : nat := 2048.

(* ===================================================================== *)
(** ** The process-wide pool, shared shape of both packages               *)
(* ===================================================================== *)

(** [AcquireMessage] and [ReleaseMessage] are written twice in the sources,
    once per framing, with the same text up to the message type (and the
    order of two independent statements in [AcquireMessage]).  The section
    states them once over the message type and the three things they do to
    a message; each package instantiates it below. *)
Section Pool.

Variable Msg : Type.
(** [&Message{Message: pool.NewMessage(), rawData: make([]byte, 256),
    rawMarshalData: make([]byte, 256), ctx: ctx}] *)
Variable newMsg : option context.Context -> Msg.
(** [req.Reset()] *)
Variable resetMsg : Msg -> Msg.
(** [r.ctx = ctx] *)
Variable setCtx : option context.Context -> Msg -> Msg.

(** The package-level variables [currentMessagesInPool] and [messagePool],
    with the heap the [*Message] pointers point into. *)
Record PoolState : Type := mkPoolState {
  heap : gmap loc Msg;
  currentMessagesInPool : Z;
  messagePool : list loc
}.

Definition pool_init : PoolState :=
  {| heap := ∅; currentMessagesInPool := 0; messagePool := [] |}.

(** [messagePool.Get()].  A [sync.Pool] gives back any one of the values
    put into it, or nil: [choice] is what it decides ([None]: treat the
    pool as empty; [Some i]: the i-th retained value, nil when there is
    none). *)
Definition sync_Pool_Get (choice : option nat) (l : list loc)
  : option (loc * list loc) :=
  match choice with
  | None => None
  | Some i =>
      match l !! i with
      | Some p => Some (p, delete i l)
      | None => None
      end
  end.

(** A [sync.Pool] may drop a retained value at any time (garbage
    collection); the counter is not told. *)
Definition sync_Pool_drop (i : nat) (st : PoolState) : PoolState :=
  {| heap := heap st;
     currentMessagesInPool := currentMessagesInPool st;
     messagePool := delete i (messagePool st) |}.

Definition AcquireMessage (choice : option nat) (ctx : option context.Context)
    (st : PoolState) : outcome loc * PoolState :=
  match sync_Pool_Get choice (messagePool st) with
  | None =>
      let p := fresh (dom (heap st)) in
      (Ret p,
       {| heap := <[p := newMsg ctx]> (heap st);
          currentMessagesInPool := currentMessagesInPool st;
          messagePool := messagePool st |})
  | Some (r, rest) =>
      let n := atomic_AddInt32 (currentMessagesInPool st) (-1) in
      match heap st !! r with
      | None =>
          (Panic "invalid memory address or nil pointer dereference",
           {| heap := heap st; currentMessagesInPool := n;
              messagePool := rest |})
      | Some m =>
          (Ret r,
           {| heap := <[r := setCtx ctx m]> (heap st);
              currentMessagesInPool := n;
              messagePool := rest |})
      end
  end.

(** [req] is a pointer: a location outside the heap stands for nil. *)
Definition ReleaseMessage (req : loc) (st : PoolState)
    : outcome unit * PoolState :=
  let v := currentMessagesInPool st in
  if v >=? maxMessagePool then (Ret tt, st)
  else
    let n := atomic_AddInt32 (currentMessagesInPool st) 1 in
    match heap st !! req with
    | None =>
        (Panic "invalid memory address or nil pointer dereference",
         {| heap := heap st; currentMessagesInPool := n;
            messagePool := messagePool st |})
    | Some m =>
        (Ret tt,
         {| heap := <[req := setCtx None (resetMsg m)]> (heap st);
            currentMessagesInPool := n;
            messagePool := req :: messagePool st |})
    end.

(** The holder of an acquired message changes it through its pointer. *)
Definition use_message (p : loc) (f : Msg -> Msg) (st : PoolState)
    : PoolState :=
  {| heap := alter f p (heap st);
     currentMessagesInPool := currentMessagesInPool st;
     messagePool := messagePool st |}.

(** The states a sequential program can reach: any sequence of acquires
    (whatever the [sync.Pool] decides), releases (of any pointer, also one
    released before), pool drops, and changes to messages that are not in
    the pool ("It is forbidden accessing req and/or its' members after
    returning it to Message pool"). *)
Inductive reachable : PoolState -> Prop :=
| reach_init : reachable pool_init
| reach_acquire st choice ctx :
    reachable st -> reachable (snd (AcquireMessage choice ctx st))
| reach_release st req :
    reachable st -> reachable (snd (ReleaseMessage req st))
| reach_drop st i :
    reachable st -> reachable (sync_Pool_drop i st)
| reach_use st p f :
    reachable st -> p ∉ messagePool st -> reachable (use_message p f st).

(** The script of one goroutine: acquires and releases only. *)
Inductive pool_op : Type :=
| OpAcquire (choice : option nat) (ctx : option context.Context)
| OpRelease (req : loc).

Definition run_op (st : PoolState) (o : pool_op) : PoolState :=
  match o with
  | OpAcquire choice ctx => snd (AcquireMessage choice ctx st)
  | OpRelease req => snd (ReleaseMessage req st)
  end.

Definition run_ops (ops : list pool_op) (st : PoolState) : PoolState :=
  fold_left run_op ops st.

(** Acquire [n] messages one after the other, whatever the [sync.Pool]
    decides each time, and collect the pointers. *)
Fixpoint acquire_n (n : nat) (choices : nat -> option nat)
    (ctx : option context.Context) (st : PoolState)
    : list loc * PoolState :=
  match n with
  | O => ([], st)
  | S n' =>
      match AcquireMessage (choices n') ctx st with
      | (Ret p, st1) =>
          let '(ps, st2) := acquire_n n' choices ctx st1 in (p :: ps, st2)
      | (Panic _, st1) => ([], st1)
      end
  end.

(** Release every pointer of a list. *)
Definition release_all (reqs : list loc) (st : PoolState) : PoolState :=
  fold_left (fun st req => snd (ReleaseMessage req st)) reqs st.

(** What holds of every reachable state: the counter is within its bounds,
    it counts at least the retained pointers, and every retained pointer
    points to a message that is [Clean], a property that [Reset] sets up
    and that attaching a context keeps. *)
Variable Clean : Msg -> Prop.

Definition pool_inv (st : PoolState) : Prop :=
  0 <= currentMessagesInPool st <= maxMessagePool
  /\ Z.of_nat (length (messagePool st)) <= currentMessagesInPool st
  /\ forall p, p ∈ messagePool st ->
       exists m, heap st !! p = Some m /\ Clean m.

End Pool.

Arguments heap {Msg} _.
Arguments currentMessagesInPool {Msg} _.
Arguments messagePool {Msg} _.
Arguments mkPoolState {Msg} _ _ _.
Arguments pool_init {Msg}.
Arguments sync_Pool_drop {Msg} _ _.
Arguments use_message {Msg} _ _ _.
Arguments pool_inv {Msg} _ _.

(* ===================================================================== *)
(** ** The datagram-framing pooled message (udp/message/pool)             *)
(* ===================================================================== *)

Module udp_pool.

(** [messageID *uint16] is [None] when nil.  The embedded
    [*pool.Message] is reached through this message only and is kept
    inline. *)
Record Message : Type := mkMessage {
  Message_ : msgpool.Message;
  messageID : option Z;
  typ : udp.Type_;
  rawData : slice;
  rawMarshalData : slice;
  ctx : option context.Context;
  isModified : bool
}.

Definition Reset (r : Message) : Message :=
  {| Message_ := msgpool.Reset (Message_ r);
     messageID := None;
     typ := udp.NonConfirmable;
     rawData :=
       if (maxMessageBufferSize <? cap (rawData r))%nat
       then make 256 else rawData r;
     rawMarshalData :=
       if (maxMessageBufferSize <? cap (rawMarshalData r))%nat
       then make 256 else rawMarshalData r;
     ctx := ctx r;
     isModified := false |}.

Definition Context (r : Message) : option context.Context := ctx r.

Definition SetMessageID (mid : Z) (r : Message) : Message :=
  {| Message_ := Message_ r; messageID := Some mid; typ := typ r;
     rawData := rawData r; rawMarshalData := rawMarshalData r;
     ctx := ctx r; isModified := true |}.

Definition UpsertMessageID (mid : Z) (r : Message) : Z * Message :=
  match messageID r with
  | Some v => (v, r)
  | None =>
      (mid,
       {| Message_ := Message_ r; messageID := Some mid; typ := typ r;
          rawData := rawData r; rawMarshalData := rawMarshalData r;
          ctx := ctx r; isModified := isModified r |})
  end.

Definition MessageID (r : Message) : outcome Z :=
  match messageID r with
  | None => Panic "messageID is not set"
  | Some v => Ret v
  end.

Definition SetType (t : udp.Type_) (r : Message) : Message :=
  {| Message_ := Message_ r; messageID := messageID r; typ := t;
     rawData := rawData r; rawMarshalData := rawMarshalData r;
     ctx := ctx r; isModified := true |}.

Definition Type_ (r : Message) : udp.Type_ := typ r.

Definition IsModified (r : Message) : bool :=
  isModified r || msgpool.IsModified (Message_ r).

Definition SetModified (b : bool) (r : Message) : Message :=
  {| Message_ := msgpool.SetModified b (Message_ r);
     messageID := messageID r; typ := typ r;
     rawData := rawData r; rawMarshalData := rawMarshalData r;
     ctx := ctx r; isModified := b |}.

(** The methods the embedded container lends to the message. *)
Definition Code (r : Message) : Z := msgpool.Code (Message_ r).
Definition Token (r : Message) := msgpool.Token (Message_ r).
Definition Options (r : Message) := msgpool.Options (Message_ r).
Definition Body (r : Message) := msgpool.Body (Message_ r).

(** Changing the embedded container through the message. *)
Definition with_container (f : msgpool.Message -> msgpool.Message)
    (r : Message) : Message :=
  {| Message_ := f (Message_ r); messageID := messageID r; typ := typ r;
     rawData := rawData r; rawMarshalData := rawMarshalData r;
     ctx := ctx r; isModified := isModified r |}.

Definition is_nil {A} (o : option A) : bool :=
  match o with None => true | Some _ => false end.

Definition IsSeparate (r : Message) : bool :=
  (Code r =? codes.Empty)
  && is_nil (Token r)
  && (Type_ r =? udp.Acknowledgement)
  && (length (Options r) =? 0)%nat
  && is_nil (Body r).

Definition new_Message (c : option context.Context) : Message :=
  {| Message_ := msgpool.NewMessage;
     messageID := None;
     typ := 0;
     rawData := make 256;
     rawMarshalData := make 256;
     ctx := c;
     isModified := false |}.

Definition set_ctx (c : option context.Context) (r : Message) : Message :=
  {| Message_ := Message_ r; messageID := messageID r; typ := typ r;
     rawData := rawData r; rawMarshalData := rawMarshalData r;
     ctx := c; isModified := isModified r |}.

Definition AcquireMessage := AcquireMessage Message new_Message set_ctx.
Definition ReleaseMessage := ReleaseMessage Message Reset set_ctx.
Definition reachable := reachable Message new_Message Reset set_ctx.
Definition run_ops := run_ops Message new_Message Reset set_ctx.
Definition acquire_n := acquire_n Message new_Message set_ctx.
Definition release_all := release_all Message Reset set_ctx.

(** The state [Reset] leaves the message-ID and the dirty flags in. *)
Definition Clean (r : Message) : Prop :=
  messageID r = None /\ IsModified r = false.

End udp_pool.

(* ===================================================================== *)
(** ** The stream-framing pooled message (tcp/message/pool)               *)
(* ===================================================================== *)

Module tcp_pool.

Record Message : Type := mkMessage {
  Message_ : msgpool.Message;
  rawData : slice;
  rawMarshalData : slice;
  ctx : option context.Context;
  isModified : bool
}.

Definition Reset (r : Message) : Message :=
  {| Message_ := msgpool.Reset (Message_ r);
     rawData :=
       if (maxMessageBufferSize <? cap (rawData r))%nat
       then make 256 else rawData r;
     rawMarshalData :=
       if (maxMessageBufferSize <? cap (rawMarshalData r))%nat
       then make 256 else rawMarshalData r;
     ctx := ctx r;
     isModified := false |}.

Definition Context (r : Message) : option context.Context := ctx r.

Definition IsModified (r : Message) : bool :=
  isModified r || msgpool.IsModified (Message_ r).

Definition new_Message (c : option context.Context) : Message :=
  {| Message_ := msgpool.NewMessage;
     rawData := make 256;
     rawMarshalData := make 256;
     ctx := c;
     isModified := false |}.

Definition set_ctx (c : option context.Context) (r : Message) : Message :=
  {| Message_ := Message_ r;
     rawData := rawData r; rawMarshalData := rawMarshalData r;
     ctx := c; isModified := isModified r |}.

Definition AcquireMessage := AcquireMessage Message new_Message set_ctx.
Definition ReleaseMessage := ReleaseMessage Message Reset set_ctx.
Definition reachable := reachable Message new_Message Reset set_ctx.
Definition run_ops := run_ops Message new_Message Reset set_ctx.
Definition acquire_n := acquire_n Message new_Message set_ctx.
Definition release_all := release_all Message Reset set_ctx.

Definition Clean (r : Message) : Prop := IsModified r = false.

End tcp_pool.


(* ===================================================================== *)
(** ** Sessions: what the two packages share                              *)
(* ===================================================================== *)

(** [type EventFunc = func()].  A close-hook is known by the number it was
    registered under; running it leaves an [EvHook] entry in the log. *)
Definition EventFunc := nat.

(** What a session does to the outside, in the order it does it.  A hook
    and the closing of the transport are logged with what a goroutine
    waiting on [Done()] has seen at that moment: [true] when the channel
    [Done()] returns is already closed. *)
Inductive Event : Type :=
| EvRead (i : nat)
| EvProcess (i : nat)
| EvHook (f : EventFunc) (done_seen : bool)
| EvConnClose (done_seen : bool).

Inductive ReadResult : Type :=
| ReadOk (data : list Byte.byte)
| ReadErr (e : error).

(** The collaborators of a session: what the i-th read of the transport
    yields when the context is live, what the processor answers to the
    i-th datagram, what closing the transport answers, and whether another
    goroutine calls [Close()] while [Run] waits in its i-th read. *)
Record Env : Type := mkEnv {
  read_result : nat -> ReadResult;
  process_result : nat -> list Byte.byte -> option error;
  conn_close_result : option error;
  close_requested : nat -> bool
}.

Record World : Type := mkWorld {
  ctxs : context.Store;
  log : list Event
}.

Definition world_init : World := {| ctxs := context.empty; log := [] |}.

Definition emit (e : Event) (w : World) : World :=
  {| ctxs := ctxs w; log := log w ++ [e] |}.

Definition call_cancel (t : token) (w : World) : World :=
  {| ctxs := context.cancel t (ctxs w); log := log w |}.

(** Modelled from the spec: the transport's [ReadWithContext(ctx, buf)] of
    package net (not among the sources): a cancelled context makes the
    read return the context's error; otherwise it yields what arrived, at
    most [len(buf)] bytes of it. *)
Definition ReadWithContext (env : Env) (i : nat) (c : context.Context)
    (buflen : nat) (w : World) : ReadResult :=
  if context.done c (ctxs w) then ReadErr context.Canceled
  else match read_result env i with
       | ReadOk data => ReadOk (take buflen data)
       | ReadErr e => ReadErr e
       end.

(** [s.connection.Close()] *)
Definition connection_Close (env : Env) (done_seen : bool) (w : World)
    : option error * World :=
  (conn_close_result env, emit (EvConnClose done_seen) w).

(** [f()] for a close-hook [f]. *)
Definition call_hook (done_seen : bool) (w : World) (f : EventFunc) : World :=
  emit (EvHook f done_seen) w.

(** [for _, f := range tmp { f() }]; [seen] is what a waiter on [Done()]
    has seen when a hook runs. *)
Definition run_hooks (seen : World -> bool) (tmp : list EventFunc)
    (w : World) : World :=
  fold_left (fun w f => call_hook (seen w) w f) tmp w.

(** The hooks a log shows to have run, in the order they ran. *)
Definition hooks_run (l : list Event) : list EventFunc :=
  omap (fun e => match e with EvHook f _ => Some f | _ => None end) l.

(** How often a signal that starts at [prev] goes from unset to set along
    the observations [l]. *)
Fixpoint rising (prev : bool) (l : list bool) : nat :=
  match l with
  | [] => 0%nat
  | b :: l' => ((if negb prev && b then 1 else 0) + rising b l')%nat
  end.

(** *** Goroutines interleaved

    [Run]'s teardown runs in the goroutine of [Run]; every other caller of
    [Close()] is a goroutine of its own.  Each step below is one atomic
    action: a call of a cancel function, the body of [popOnClose] (it holds
    the mutex), one hook, the closing of the transport, the done signal.
    A schedule names the goroutine that moves next. *)
Section Interleaving.

Variable St : Type.
(** The next action of [Run]'s goroutine; [None] once it has returned. *)
Variable run_step : St -> option St.
(** [Close()] called by another goroutine. *)
Variable closer_step : St -> St.

Inductive thread : Type := ThRun | ThCloser.

Record Conf : Type := mkConf {
  conf_st : St;
  closers : nat
}.

Definition sched_step (t : thread) (c : Conf) : option Conf :=
  match t with
  | ThRun =>
      match run_step (conf_st c) with
      | Some s' => Some {| conf_st := s'; closers := closers c |}
      | None => None
      end
  | ThCloser =>
      match closers c with
      | O => None
      | S n => Some {| conf_st := closer_step (conf_st c); closers := n |}
      end
  end.

(** The configurations a schedule visits; [None] when it names a goroutine
    that cannot move. *)
Fixpoint exec (sched : list thread) (c : Conf) : option (list Conf) :=
  match sched with
  | [] => Some []
  | t :: sched' =>
      match sched_step t c with
      | None => None
      | Some c' =>
          match exec sched' c' with
          | None => None
          | Some l => Some (c' :: l)
          end
      end
  end.

(** Every goroutine has returned. *)
Definition finished (c : Conf) : Prop :=
  run_step (conf_st c) = None /\ closers c = 0%nat.

End Interleaving.

Arguments mkConf {St} _ _.
Arguments conf_st {St} _.
Arguments closers {St} _.
Arguments sched_step {St} _ _ _ _.
Arguments exec {St} _ _ _ _.
Arguments finished {St} _ _.

(** The program counter of [Run]'s deferred function: [s.Close()], then
    [s.close()], that is [popOnClose], the hooks popped, the transport, the
    deferred done signal. *)
Inductive teardown_pc : Type :=
| PcClose
| PcPop
| PcHooks (tmp : list EventFunc)
| PcSocket
| PcSignal
| PcExit
| PcPanic.

(* ===================================================================== *)
(** ** The DTLS session (dtls/session.go)                                 *)
(* ===================================================================== *)

Module dtls.

(** [done chan struct{}] is [true] once the channel is closed; [ctx] is the
    context the atomic value holds. *)
Record Session : Type := mkSession {
  connection : nat;
  maxMessageSize : nat;
  closeSocket : bool;
  onClose : list EventFunc;
  cancel : token;
  ctx : context.Context;
  done : bool
}.

Definition NewSession (c : context.Context) (connection : nat)
    (maxMessageSize : nat) (closeSocket : bool) (w : World)
    : Session * World :=
  let '((c', cancel), cs) := context.WithCancel c (ctxs w) in
  ({| connection := connection;
      maxMessageSize := maxMessageSize;
      closeSocket := closeSocket;
      onClose := [];
      cancel := cancel;
      ctx := c';
      done := false |},
   {| ctxs := cs; log := log w |}).

(** Whether the channel [Done()] returns is closed. *)
Definition Done (s : Session) (w : World) : bool := done s.

Definition set_onClose (l : list EventFunc) (s : Session) : Session :=
  {| connection := connection s; maxMessageSize := maxMessageSize s;
     closeSocket := closeSocket s; onClose := l; cancel := cancel s;
     ctx := ctx s; done := done s |}.

Definition set_ctx (c : context.Context) (s : Session) : Session :=
  {| connection := connection s; maxMessageSize := maxMessageSize s;
     closeSocket := closeSocket s; onClose := onClose s; cancel := cancel s;
     ctx := c; done := done s |}.

Definition set_done (b : bool) (s : Session) : Session :=
  {| connection := connection s; maxMessageSize := maxMessageSize s;
     closeSocket := closeSocket s; onClose := onClose s; cancel := cancel s;
     ctx := ctx s; done := b |}.

Definition AddOnClose (f : EventFunc) (s : Session) : Session :=
  set_onClose (onClose s ++ [f]) s.

Definition popOnClose (s : Session) : list EventFunc * Session :=
  let tmp := onClose s in
  (tmp, set_onClose [] s).

(** [close(s.done)]: closing a closed channel panics. *)
Definition close_done (s : Session) : outcome Session :=
  if done s then Panic "close of closed channel" else Ret (set_done true s).

Definition close (env : Env) (s : Session) (w : World)
    : outcome (option error) * Session * World :=
  let '(tmp, s1) := popOnClose s in
  let w1 := run_hooks (Done s1) tmp w in
  let '(r, w2) :=
    if closeSocket s1 then connection_Close env (Done s1 w1) w1
    else (None, w1) in
  match close_done s1 with
  | Ret s2 => (Ret r, s2, w2)
  | Panic msg => (Panic msg, s1, w2)
  end.

Definition Close (s : Session) (w : World) : option error * World :=
  (None, call_cancel (cancel s) w).

Definition Context (s : Session) : context.Context := ctx s.

Definition SetContextValue (key val : nat) (s : Session) : Session :=
  set_ctx (context.WithValue (Context s) key val) s.

(** The [for] loop of [Run] from its i-th turn on: [None] when [fuel] turns
    pass without an error, else the error the loop returns with.  While
    [Run] waits in the read another goroutine may call [Close()]; the
    collaborators say in which turn. *)
Fixpoint Run_loop (env : Env) (s : Session) (fuel i : nat) (w : World)
    : option (error * World) :=
  match fuel with
  | O => None
  | S fuel' =>
      let w0 := if close_requested env i then snd (Close s w) else w in
      match ReadWithContext env i (Context s) (maxMessageSize s) w0 with
      | ReadErr e => Some (ErrWrap "cannot read from connection" e, w0)
      | ReadOk readBuf =>
          let w1 := emit (EvProcess i) (emit (EvRead i) w0) in
          match process_result env i readBuf with
          | Some e => Some (e, w1)
          | None => Run_loop env s fuel' (S i) w1
          end
      end
  end.

(** The function [Run] defers; [err] is [Run]'s named result. *)
Definition Run_deferred (env : Env) (err : option error) (s : Session)
    (w : World) : outcome (option error) * Session * World :=
  let '(err1, w1) := Close s w in
  let err := match err with None => err1 | Some _ => err end in
  match close env s w1 with
  | (Ret err1, s2, w2) =>
      (Ret (match err with None => err1 | Some _ => err end), s2, w2)
  | (Panic msg, s2, w2) => (Panic msg, s2, w2)
  end.

Definition Run (env : Env) (fuel : nat) (s : Session) (w : World)
    : option (outcome (option error) * Session * World) :=
  match Run_loop env s fuel 0 w with
  | None => None
  | Some (e, w1) => Some (Run_deferred env (Some e) s w1)
  end.

(** [Run]'s deferred function, one atomic action at a time. *)
Definition teardown_step (env : Env) (x : teardown_pc * Session * World)
    : option (teardown_pc * Session * World) :=
  let '(pc, s, w) := x in
  match pc with
  | PcClose => Some (PcPop, s, snd (Close s w))
  | PcPop => let '(tmp, s1) := popOnClose s in Some (PcHooks tmp, s1, w)
  | PcHooks (f :: tmp) => Some (PcHooks tmp, s, call_hook (Done s w) w f)
  | PcHooks [] => Some (PcSocket, s, w)
  | PcSocket =>
      if closeSocket s
      then Some (PcSignal, s, snd (connection_Close env (Done s w) w))
      else Some (PcSignal, s, w)
  | PcSignal =>
      match close_done s with
      | Ret s2 => Some (PcExit, s2, w)
      | Panic _ => Some (PcPanic, s, w)
      end
  | PcExit => None
  | PcPanic => None
  end.

Definition closer_step (x : teardown_pc * Session * World)
    : teardown_pc * Session * World :=
  let '(pc, s, w) := x in (pc, s, snd (Close s w)).

(** What a goroutine waiting on [Done()] sees in a configuration. *)
Definition observe_Done (x : teardown_pc * Session * World) : bool :=
  let '(_, s, w) := x in Done s w.

End dtls.


(* ===================================================================== *)
(** ** The UDP session (package udp)                                      *)
(* ===================================================================== *)

Module udp_session.

Record Session : Type := mkSession {
  connection : nat;
  raddr : nat;
  maxMessageSize : nat;
  closeSocket : bool;
  onClose : list EventFunc;
  cancel : token;
  ctx : context.Context;
  doneCtx : context.Context;
  doneCancel : token
}.

(** The parameter [doneCtx] is assigned by the second [:=] before it is
    read: the done context is a child of the session's own context. *)
Definition NewSession (c : context.Context) (connection raddr : nat)
    (maxMessageSize : nat) (closeSocket : bool)
    (doneCtx : context.Context) (w : World) : Session * World :=
  let '((c', cancel), cs1) := context.WithCancel c (ctxs w) in
  let '((doneCtx', doneCancel), cs2) := context.WithCancel c' cs1 in
  ({| connection := connection;
      raddr := raddr;
      maxMessageSize := maxMessageSize;
      closeSocket := closeSocket;
      onClose := [];
      cancel := cancel;
      ctx := c';
      doneCtx := doneCtx';
      doneCancel := doneCancel |},
   {| ctxs := cs2; log := log w |}).

Definition set_onClose (l : list EventFunc) (s : Session) : Session :=
  {| connection := connection s; raddr := raddr s;
     maxMessageSize := maxMessageSize s; closeSocket := closeSocket s;
     onClose := l; cancel := cancel s; ctx := ctx s;
     doneCtx := doneCtx s; doneCancel := doneCancel s |}.

Definition set_ctx (c : context.Context) (s : Session) : Session :=
  {| connection := connection s; raddr := raddr s;
     maxMessageSize := maxMessageSize s; closeSocket := closeSocket s;
     onClose := onClose s; cancel := cancel s; ctx := c;
     doneCtx := doneCtx s; doneCancel := doneCancel s |}.

Definition Context (s : Session) : context.Context := ctx s.

Definition SetContextValue (key val : nat) (s : Session) : Session :=
  set_ctx (context.WithValue (Context s) key val) s.

(** Whether the channel [Done()] returns, [s.doneCtx.Done()], is closed. *)
Definition Done (s : Session) (w : World) : bool :=
  context.done (doneCtx s) (ctxs w).

Definition AddOnClose (f : EventFunc) (s : Session) : Session :=
  set_onClose (onClose s ++ [f]) s.

Definition popOnClose (s : Session) : list EventFunc * Session :=
  let tmp := onClose s in
  (tmp, set_onClose [] s).

Definition close (env : Env) (s : Session) (w : World)
    : option error * Session * World :=
  let '(tmp, s1) := popOnClose s in
  let w1 := run_hooks (Done s1) tmp w in
  let '(r, w2) :=
    if closeSocket s1 then connection_Close env (Done s1 w1) w1
    else (None, w1) in
  (r, s1, call_cancel (doneCancel s1) w2).

Definition Close (s : Session) (w : World) : option error * World :=
  (None, call_cancel (cancel s) w).

(** The loop of [Run], as for the DTLS session; the read error is returned
    as it is. *)
Fixpoint Run_loop (env : Env) (s : Session) (fuel i : nat) (w : World)
    : option (error * World) :=
  match fuel with
  | O => None
  | S fuel' =>
      let w0 := if close_requested env i then snd (Close s w) else w in
      match ReadWithContext env i (Context s) (maxMessageSize s) w0 with
      | ReadErr e => Some (e, w0)
      | ReadOk buf =>
          let w1 := emit (EvProcess i) (emit (EvRead i) w0) in
          match process_result env i buf with
          | Some e => Some (e, w1)
          | None => Run_loop env s fuel' (S i) w1
          end
      end
  end.

Definition Run_deferred (env : Env) (err : option error) (s : Session)
    (w : World) : option error * Session * World :=
  let '(err1, w1) := Close s w in
  let err := match err with None => err1 | Some _ => err end in
  let '(err1, s2, w2) := close env s w1 in
  (match err with None => err1 | Some _ => err end, s2, w2).

Definition Run (env : Env) (fuel : nat) (s : Session) (w : World)
    : option (option error * Session * World) :=
  match Run_loop env s fuel 0 w with
  | None => None
  | Some (e, w1) => Some (Run_deferred env (Some e) s w1)
  end.

Definition teardown_step (env : Env) (x : teardown_pc * Session * World)
    : option (teardown_pc * Session * World) :=
  let '(pc, s, w) := x in
  match pc with
  | PcClose => Some (PcPop, s, snd (Close s w))
  | PcPop => let '(tmp, s1) := popOnClose s in Some (PcHooks tmp, s1, w)
  | PcHooks (f :: tmp) => Some (PcHooks tmp, s, call_hook (Done s w) w f)
  | PcHooks [] => Some (PcSocket, s, w)
  | PcSocket =>
      if closeSocket s
      then Some (PcSignal, s, snd (connection_Close env (Done s w) w))
      else Some (PcSignal, s, w)
  | PcSignal => Some (PcExit, s, call_cancel (doneCancel s) w)
  | PcExit => None
  | PcPanic => None
  end.

Definition closer_step (x : teardown_pc * Session * World)
    : teardown_pc * Session * World :=
  let '(pc, s, w) := x in (pc, s, snd (Close s w)).

(** What a goroutine waiting on [Done()] sees in a configuration. *)
Definition observe_Done (x : teardown_pc * Session * World) : bool :=
  let '(_, s, w) := x in Done s w.

End udp_session.


(* ===================================================================== *)
(** ** What the properties speak of                                       *)
(* ===================================================================== *)

(** What the transport's closing adds to a log. *)
Definition socket_events (closeSocket seen : bool) : list Event :=
  if closeSocket then [EvConnClose seen] else [].

(** The events of the close sequence. *)
Definition teardown_events (hooks : list EventFunc) (closeSocket seen : bool)
    : list Event :=
  map (fun f => EvHook f seen) hooks ++ socket_events closeSocket seen.

(** What [k] turns of the loop from the i-th on add to the log. *)
Definition loop_events (i k : nat) : list Event :=
  flat_map (fun j => [EvRead j; EvProcess j]) (seq i k).

(** The turns [i .. i+k-1] pass without an error: nobody asks for a close,
    the transport delivers, the processor accepts. *)
Definition quiet (env : Env) (mms i k : nat) : Prop :=
  forall j, (i <= j < i + k)%nat ->
    close_requested env j = false
    /\ exists data, read_result env j = ReadOk data
                    /\ process_result env j (take mms data) = None.

(** Registering hooks one after the other. *)
Definition dtls_add_hooks (hooks : list EventFunc) (s : dtls.Session)
    : dtls.Session :=
  fold_left (fun s f => dtls.AddOnClose f s) hooks s.

Definition udp_add_hooks (hooks : list EventFunc) (s : udp_session.Session)
    : udp_session.Session :=
  fold_left (fun s f => udp_session.AddOnClose f s) hooks s.

(** What holds of a DTLS session at each point of [Run]'s teardown, with
    [hooks] registered at its start and [base] the hooks run before it. *)
Definition dtls_teardown_inv (hooks base : list EventFunc)
    (x : teardown_pc * dtls.Session * World) : Prop :=
  let '(pc, s, w) := x in
  match pc with
  | PcClose | PcPop =>
      dtls.onClose s = hooks /\ hooks_run (log w) = base
      /\ dtls.done s = false
  | PcHooks tmp =>
      dtls.onClose s = [] /\ hooks_run (log w) ++ tmp = base ++ hooks
      /\ dtls.done s = false
  | PcSocket | PcSignal =>
      dtls.onClose s = [] /\ hooks_run (log w) = base ++ hooks
      /\ dtls.done s = false
  | PcExit =>
      dtls.onClose s = [] /\ hooks_run (log w) = base ++ hooks
      /\ dtls.done s = true
  | PcPanic => False
  end.

Definition udp_teardown_inv (hooks base : list EventFunc)
    (x : teardown_pc * udp_session.Session * World) : Prop :=
  let '(pc, s, w) := x in
  udp_session.doneCancel s ∈ udp_session.doneCtx s
  /\ match pc with
     | PcClose | PcPop =>
         udp_session.onClose s = hooks /\ hooks_run (log w) = base
     | PcHooks tmp =>
         udp_session.onClose s = []
         /\ hooks_run (log w) ++ tmp = base ++ hooks
     | PcSocket | PcSignal =>
         udp_session.onClose s = [] /\ hooks_run (log w) = base ++ hooks
     | PcExit =>
         udp_session.onClose s = [] /\ hooks_run (log w) = base ++ hooks
         /\ udp_session.Done s w = true
     | PcPanic => False
     end.

(* ===================================================================== *)
(** ** Sample messages, pools, collaborators and sessions                 *)
(* ===================================================================== *)

(** A message that went through one exchange: code, token, one option, a
    body, message-ID 42, type Acknowledgement, both buffers grown. *)
Definition used_message : udp_pool.Message :=
  {| udp_pool.Message_ :=
       {| msgpool.code := 69; msgpool.token := Some [Byte.x01; Byte.x02];
          msgpool.options := [(11, [Byte.x61])];
          msgpool.body := Some [Byte.x68; Byte.x69];
          msgpool.isModified := true |};
     udp_pool.messageID := Some 42;
     udp_pool.typ := udp.Acknowledgement;
     udp_pool.rawData := {| elems := repeat Byte.x00 3000; cap := 4096 |};
     udp_pool.rawMarshalData := {| elems := repeat Byte.x00 100; cap := 2048 |};
     udp_pool.ctx := Some context.Background;
     udp_pool.isModified := true |}.

(** A bare acknowledgement: what [IsSeparate] is meant to recognise. *)
Definition bare_ack : udp_pool.Message :=
  udp_pool.SetType udp.Acknowledgement (udp_pool.new_Message None).

(** A pool whose counter has reached the cap. *)
Definition full_udp_pool : PoolState udp_pool.Message :=
  {| heap := {[ 7%nat := used_message ]};
     currentMessagesInPool := maxMessagePool;
     messagePool := [] |}.

Definition full_tcp_pool : PoolState tcp_pool.Message :=
  {| heap := {[ 7%nat := tcp_pool.new_Message (Some context.Background) ]};
     currentMessagesInPool := maxMessagePool;
     messagePool := [] |}.

(** The transport fails on the first read; closing it fails too. *)
Definition env_read_fails : Env :=
  {| read_result := fun _ => ReadErr (ErrNew "EOF");
     process_result := fun _ _ => None;
     conn_close_result := Some (ErrNew "use of closed network connection");
     close_requested := fun _ => false |}.

(** One datagram arrives and the processor rejects it. *)
Definition env_process_fails : Env :=
  {| read_result := fun _ => ReadOk [Byte.x40; Byte.x01];
     process_result := fun _ _ => Some (ErrNew "cannot decode");
     conn_close_result := None;
     close_requested := fun _ => false |}.

(** A session that owns its transport, with the close-hooks 1 and 2. *)
Definition dtls_owner : dtls.Session :=
  dtls_add_hooks [1; 2]%nat
    (fst (dtls.NewSession context.Background 0 1500 true world_init)).

Definition dtls_world : World :=
  snd (dtls.NewSession context.Background 0 1500 true world_init).

Definition udp_owner : udp_session.Session :=
  udp_add_hooks [1; 2]%nat
    (fst (udp_session.NewSession context.Background 0 0 1500 true
            context.Background world_init)).

Definition udp_world : World :=
  snd (udp_session.NewSession context.Background 0 0 1500 true
         context.Background world_init).

(** Three callers of [Close()] moving between the steps of the teardown
    of a session with two hooks. *)
Definition busy_schedule : list thread :=
  [ThCloser; ThRun; ThRun; ThCloser; ThRun; ThRun; ThCloser; ThRun; ThRun;
   ThRun].

Definition dtls_busy_run : list (Conf (teardown_pc * dtls.Session * World)) :=
  default [] (exec (dtls.teardown_step env_read_fails) dtls.closer_step
                busy_schedule (mkConf (PcClose, dtls_owner, dtls_world) 3)).

Definition udp_busy_run
    : list (Conf (teardown_pc * udp_session.Session * World)) :=
  default [] (exec (udp_session.teardown_step env_read_fails)
                udp_session.closer_step
                busy_schedule (mkConf (PcClose, udp_owner, udp_world) 3)).


(* ===================================================================== *)
(** ** Byte slices that grow, are copied into and are cut                 *)
(* ===================================================================== *)

(** Two things the Go runtime decides are left open: the capacity [append]
    gives a slice it has to move ([growslice], from the old capacity and
    the length needed), and the bytes that lie in the backing array past
    the length of a slice ([stale]), which cutting the slice longer brings
    back. *)
Section Slices.

Variable growslice : nat -> nat -> nat.
Variable stale : slice -> list Byte.byte.

(** [append(s, make([]byte, k)...)] *)
Definition append_zeros (s : slice) (k : nat) : slice :=
  {| elems := elems s ++ repeat Byte.x00 k;
     cap := if (len s + k <=? cap s)%nat then cap s
            else growslice (cap s) (len s + k) |}.

(** [copy(dst, src)]: the first min(len(dst), len(src)) bytes. *)
Definition copy (dst : slice) (src : list Byte.byte) : slice :=
  {| elems := take (len dst) src ++ drop (length src) (elems dst);
     cap := cap dst |}.

(** [s[:n]]: panics unless 0 <= n <= cap(s). *)
Definition reslice (s : slice) (n : Z) : outcome slice :=
  if (0 <=? n) && (n <=? Z.of_nat (cap s))
  then Ret {| elems := take (Z.to_nat n) (elems s ++ stale s);
              cap := cap s |}
  else Panic "slice bounds out of range".

End Slices.

(** [message.Message] of package message: the generic message the pools
    convert from and to, with the fields the sources name. *)
Module message.

Record Message : Type := mkMessage {
  Context : option context.Context;
  Code : Z;
  Token : option (list Byte.byte);
  Body : option (list Byte.byte);
  Options : list msgpool.Option_
}.

End message.

(* ===================================================================== *)
(** ** The datagram-framing message: codec, conversion, printing          *)
(* ===================================================================== *)

Module udp_message.

(** [udp.Message] of udp/message, the value the codec reads and writes,
    with the fields the sources name. *)
Record WireMessage : Type := mkWireMessage {
  Code : Z;
  Token : option (list Byte.byte);
  Options : list msgpool.Option_;
  MessageID : Z;
  Type_ : udp.Type_;
  Payload : list Byte.byte
}.

Definition set_rawData (b : slice) (r : udp_pool.Message) : udp_pool.Message :=
  {| udp_pool.Message_ := udp_pool.Message_ r;
     udp_pool.messageID := udp_pool.messageID r;
     udp_pool.typ := udp_pool.typ r;
     udp_pool.rawData := b;
     udp_pool.rawMarshalData := udp_pool.rawMarshalData r;
     udp_pool.ctx := udp_pool.ctx r;
     udp_pool.isModified := udp_pool.isModified r |}.

Definition set_rawMarshalData (b : slice) (r : udp_pool.Message)
    : udp_pool.Message :=
  {| udp_pool.Message_ := udp_pool.Message_ r;
     udp_pool.messageID := udp_pool.messageID r;
     udp_pool.typ := udp_pool.typ r;
     udp_pool.rawData := udp_pool.rawData r;
     udp_pool.rawMarshalData := b;
     udp_pool.ctx := udp_pool.ctx r;
     udp_pool.isModified := udp_pool.isModified r |}.

(** [r.typ = t; r.messageID = &mid], as [Unmarshal] writes them. *)
Definition set_typ_messageID (t : udp.Type_) (mid : Z) (r : udp_pool.Message)
    : udp_pool.Message :=
  {| udp_pool.Message_ := udp_pool.Message_ r;
     udp_pool.messageID := Some mid;
     udp_pool.typ := t;
     udp_pool.rawData := udp_pool.rawData r;
     udp_pool.rawMarshalData := udp_pool.rawMarshalData r;
     udp_pool.ctx := udp_pool.ctx r;
     udp_pool.isModified := udp_pool.isModified r |}.

(** The codec of udp/message, the container's [ReadBody], [String] and
    [Options.Clone], and [fmt.Sprintf] are not among the sources: the
    methods below are stated for whatever they compute. *)
Section WithCodec.

Variable growslice : nat -> nat -> nat.
Variable stale : slice -> list Byte.byte.
(** [m.Unmarshal(data)]: the bytes used, the error, and [m] afterwards. *)
Variable codec_Unmarshal :
  list Byte.byte -> (Z * option error) * WireMessage.
(** [m.Size()] *)
Variable codec_Size : WireMessage -> Z * option error.
(** [m.MarshalTo(buf)]: the bytes written, the error, and what the call
    leaves at the start of [buf]. *)
Variable codec_MarshalTo :
  WireMessage -> list Byte.byte -> (Z * option error) * list Byte.byte.
(** [r.ReadBody()] of the container: the whole body, read without moving
    it. *)
Variable ReadBody : msgpool.Message -> list Byte.byte * option error.
(** [opts.Clone()] *)
Variable Clone :
  list msgpool.Option_ -> list msgpool.Option_ * option error.
(** [r.Message.String()] and the [fmt.Sprintf] of [String]. *)
Variable container_String : msgpool.Message -> string.
Variable Sprintf : udp.Type_ -> Z -> string -> string.

Definition Unmarshal (data : list Byte.byte) (r : udp_pool.Message)
    : outcome (Z * option error) * udp_pool.Message :=
  let raw1 :=
    if (len (udp_pool.rawData r) <? length data)%nat
    then append_zeros growslice (udp_pool.rawData r)
           (length data - len (udp_pool.rawData r))
    else udp_pool.rawData r in
  let raw2 := copy raw1 data in
  match reslice stale raw2 (Z.of_nat (length data)) with
  | Panic msg => (Panic msg, set_rawData raw2 r)
  | Ret raw3 =>
      let r1 := set_rawData raw3 r in
      let '((n, err), m) := codec_Unmarshal (elems raw3) in
      match err with
      | Some e => (Ret (n, Some e), r1)
      | None =>
          let r2 := udp_pool.with_container (msgpool.SetCode (Code m)) r1 in
          let r3 := udp_pool.with_container (msgpool.SetToken (Token m)) r2 in
          let r4 :=
            udp_pool.with_container (msgpool.ResetOptionsTo (Options m)) r3 in
          let r5 := set_typ_messageID (Type_ m) (MessageID m) r4 in
          let r6 :=
            if (0 <? length (Payload m))%nat
            then udp_pool.with_container
                   (msgpool.SetBody (Some (Payload m))) r5
            else r5 in
          (Ret (n, None), r6)
      end
  end.

Definition Marshal (r : udp_pool.Message)
    : outcome (option (list Byte.byte) * option error) * udp_pool.Message :=
  match udp_pool.MessageID r with
  | Panic msg => (Panic msg, r)
  | Ret mid =>
      let '(payload, err) := ReadBody (udp_pool.Message_ r) in
      match err with
      | Some e => (Ret (None, Some e), r)
      | None =>
          let m := {| Code := udp_pool.Code r;
                      Token := udp_pool.Token r;
                      Options := udp_pool.Options r;
                      MessageID := mid;
                      Type_ := udp_pool.typ r;
                      Payload := payload |} in
          let '(size, err) := codec_Size m in
          match err with
          | Some e => (Ret (None, Some e), r)
          | None =>
              let buf :=
                if Z.of_nat (len (udp_pool.rawMarshalData r)) <? size
                then append_zeros growslice (udp_pool.rawMarshalData r)
                       (Z.to_nat
                          (size - Z.of_nat (len (udp_pool.rawMarshalData r))))
                else udp_pool.rawMarshalData r in
              let '((n, err), out) := codec_MarshalTo m (elems buf) in
              let buf1 := copy buf out in
              match err with
              | Some e => (Ret (None, Some e), set_rawMarshalData buf1 r)
              | None =>
                  match reslice stale buf1 n with
                  | Panic msg => (Panic msg, set_rawMarshalData buf1 r)
                  | Ret buf2 =>
                      (Ret (Some (elems buf2), None),
                       set_rawMarshalData buf2 r)
                  end
              end
          end
      end
  end.

Definition String_ (r : udp_pool.Message) : outcome string :=
  match udp_pool.MessageID r with
  | Panic msg => Panic msg
  | Ret mid =>
      Ret (Sprintf (udp_pool.Type_ r) mid
             (container_String (udp_pool.Message_ r)))
  end.

(** [m] is a pointer the caller holds; the result is the pointer to the
    pooled message, nil with an error. *)
Definition ConvertFrom (choice : option nat) (m : message.Message)
    (st : PoolState udp_pool.Message)
    : outcome (option loc * option error) * PoolState udp_pool.Message :=
  match message.Context m with
  | None => (Ret (None, Some (ErrNew "invalid context")), st)
  | Some c =>
      match udp_pool.AcquireMessage choice (Some c) st with
      | (Panic msg, st1) => (Panic msg, st1)
      | (Ret r, st1) =>
          let st2 :=
            use_message r
              (udp_pool.with_container (msgpool.SetCode (message.Code m)))
              st1 in
          let st3 :=
            use_message r
              (udp_pool.with_container
                 (msgpool.ResetOptionsTo (message.Options m))) st2 in
          let st4 :=
            use_message r
              (udp_pool.with_container (msgpool.SetBody (message.Body m)))
              st3 in
          let st5 :=
            use_message r
              (udp_pool.with_container (msgpool.SetToken (message.Token m)))
              st4 in
          (Ret (Some r, None), st5)
      end
  end.

Definition ConvertTo (m : udp_pool.Message)
    : option message.Message * option error :=
  let '(opts, err) := Clone (udp_pool.Options m) in
  match err with
  | Some e => (None, Some e)
  | None =>
      let body_result :=
        match udp_pool.Body m with
        | None => (None, None)
        | Some _ =>
            let '(payload, err) := ReadBody (udp_pool.Message_ m) in
            match err with
            | Some e => (None, Some e)
            | None => (Some payload, None)
            end
        end in
      match body_result with
      | (_, Some e) => (None, Some e)
      | (body, None) =>
          (Some {| message.Context := udp_pool.Context m;
                   message.Code := udp_pool.Code m;
                   message.Token := udp_pool.Token m;
                   message.Body := body;
                   message.Options := opts |},
           None)
      end
  end.

End WithCodec.

End udp_message.

(* ===================================================================== *)
(** ** The stream-framing message: codec and conversion                   *)
(* ===================================================================== *)

Module tcp_message.

(** [tcp.Message] of tcp/message, with the fields the sources name. *)
Record WireMessage : Type := mkWireMessage {
  Code : Z;
  Token : option (list Byte.byte);
  Options : list msgpool.Option_;
  Payload : list Byte.byte
}.

Definition set_rawData (b : slice) (r : tcp_pool.Message) : tcp_pool.Message :=
  {| tcp_pool.Message_ := tcp_pool.Message_ r;
     tcp_pool.rawData := b;
     tcp_pool.rawMarshalData := tcp_pool.rawMarshalData r;
     tcp_pool.ctx := tcp_pool.ctx r;
     tcp_pool.isModified := tcp_pool.isModified r |}.

Definition set_rawMarshalData (b : slice) (r : tcp_pool.Message)
    : tcp_pool.Message :=
  {| tcp_pool.Message_ := tcp_pool.Message_ r;
     tcp_pool.rawData := tcp_pool.rawData r;
     tcp_pool.rawMarshalData := b;
     tcp_pool.ctx := tcp_pool.ctx r;
     tcp_pool.isModified := tcp_pool.isModified r |}.

Definition with_container (f : msgpool.Message -> msgpool.Message)
    (r : tcp_pool.Message) : tcp_pool.Message :=
  {| tcp_pool.Message_ := f (tcp_pool.Message_ r);
     tcp_pool.rawData := tcp_pool.rawData r;
     tcp_pool.rawMarshalData := tcp_pool.rawMarshalData r;
     tcp_pool.ctx := tcp_pool.ctx r;
     tcp_pool.isModified := tcp_pool.isModified r |}.

Section WithCodec.

Variable growslice : nat -> nat -> nat.
Variable stale : slice -> list Byte.byte.
Variable codec_Unmarshal :
  list Byte.byte -> (Z * option error) * WireMessage.
Variable codec_Size : WireMessage -> Z * option error.
Variable codec_MarshalTo :
  WireMessage -> list Byte.byte -> (Z * option error) * list Byte.byte.
Variable ReadBody : msgpool.Message -> list Byte.byte * option error.
Variable Clone :
  list msgpool.Option_ -> list msgpool.Option_ * option error.

Definition Unmarshal (data : list Byte.byte) (r : tcp_pool.Message)
    : outcome (Z * option error) * tcp_pool.Message :=
  let raw1 :=
    if (len (tcp_pool.rawData r) <? length data)%nat
    then append_zeros growslice (tcp_pool.rawData r)
           (length data - len (tcp_pool.rawData r))
    else tcp_pool.rawData r in
  let raw2 := copy raw1 data in
  match reslice stale raw2 (Z.of_nat (length data)) with
  | Panic msg => (Panic msg, set_rawData raw2 r)
  | Ret raw3 =>
      let r1 := set_rawData raw3 r in
      let '((n, err), m) := codec_Unmarshal (elems raw3) in
      match err with
      | Some e => (Ret (n, Some e), r1)
      | None =>
          let r2 := with_container (msgpool.SetCode (Code m)) r1 in
          let r3 := with_container (msgpool.SetToken (Token m)) r2 in
          let r4 := with_container (msgpool.ResetOptionsTo (Options m)) r3 in
          let r5 :=
            if (0 <? length (Payload m))%nat
            then with_container (msgpool.SetBody (Some (Payload m))) r4
            else r4 in
          (Ret (n, None), r5)
      end
  end.

Definition Marshal (r : tcp_pool.Message)
    : outcome (option (list Byte.byte) * option error) * tcp_pool.Message :=
  let '(payload, err) := ReadBody (tcp_pool.Message_ r) in
  match err with
  | Some e => (Ret (None, Some e), r)
  | None =>
      let m := {| Code := msgpool.Code (tcp_pool.Message_ r);
                  Token := msgpool.Token (tcp_pool.Message_ r);
                  Options := msgpool.Options (tcp_pool.Message_ r);
                  Payload := payload |} in
      let '(size, err) := codec_Size m in
      match err with
      | Some e => (Ret (None, Some e), r)
      | None =>
          let buf :=
            if Z.of_nat (len (tcp_pool.rawMarshalData r)) <? size
            then append_zeros growslice (tcp_pool.rawMarshalData r)
                   (Z.to_nat
                      (size - Z.of_nat (len (tcp_pool.rawMarshalData r))))
            else tcp_pool.rawMarshalData r in
          let '((n, err), out) := codec_MarshalTo m (elems buf) in
          let buf1 := copy buf out in
          match err with
          | Some e => (Ret (None, Some e), set_rawMarshalData buf1 r)
          | None =>
              match reslice stale buf1 n with
              | Panic msg => (Panic msg, set_rawMarshalData buf1 r)
              | Ret buf2 =>
                  (Ret (Some (elems buf2), None), set_rawMarshalData buf2 r)
              end
          end
      end
  end.

Definition ConvertFrom (choice : option nat) (m : message.Message)
    (st : PoolState tcp_pool.Message)
    : outcome (option loc * option error) * PoolState tcp_pool.Message :=
  match message.Context m with
  | None => (Ret (None, Some (ErrNew "invalid context")), st)
  | Some c =>
      match tcp_pool.AcquireMessage choice (Some c) st with
      | (Panic msg, st1) => (Panic msg, st1)
      | (Ret r, st1) =>
          let st2 :=
            use_message r (with_container (msgpool.SetCode (message.Code m)))
              st1 in
          let st3 :=
            use_message r
              (with_container (msgpool.ResetOptionsTo (message.Options m)))
              st2 in
          let st4 :=
            use_message r (with_container (msgpool.SetBody (message.Body m)))
              st3 in
          let st5 :=
            use_message r
              (with_container (msgpool.SetToken (message.Token m))) st4 in
          (Ret (Some r, None), st5)
      end
  end.

Definition ConvertTo (m : tcp_pool.Message)
    : option message.Message * option error :=
  let '(opts, err) := Clone (msgpool.Options (tcp_pool.Message_ m)) in
  match err with
  | Some e => (None, Some e)
  | None =>
      let body_result :=
        match msgpool.Body (tcp_pool.Message_ m) with
        | None => (None, None)
        | Some _ =>
            let '(payload, err) := ReadBody (tcp_pool.Message_ m) in
            match err with
            | Some e => (None, Some e)
            | None => (Some payload, None)
            end
        end in
      match body_result with
      | (_, Some e) => (None, Some e)
      | (body, None) =>
          (Some {| message.Context := tcp_pool.Context m;
                   message.Code := msgpool.Code (tcp_pool.Message_ m);
                   message.Token := msgpool.Token (tcp_pool.Message_ m);
                   message.Body := body;
                   message.Options := opts |},
           None)
      end
  end.

End WithCodec.

End tcp_message.

(* ===================================================================== *)
(** ** Sessions: writing a message                                        *)
(* ===================================================================== *)

(** Both sessions write the datagram-framing pooled message.  The
    transport's [WriteWithContext] is not among the sources: what it
    answers and does to the world is left open. *)
Module dtls_io.

Section WithTransport.

Variable growslice : nat -> nat -> nat.
Variable stale : slice -> list Byte.byte.
Variable codec_Size : udp_message.WireMessage -> Z * option error.
Variable codec_MarshalTo :
  udp_message.WireMessage -> list Byte.byte
  -> (Z * option error) * list Byte.byte.
Variable ReadBody : msgpool.Message -> list Byte.byte * option error.
(** [s.connection.WriteWithContext(ctx, data)] *)
Variable WriteWithContext :
  option context.Context -> list Byte.byte -> World -> option error * World.

Definition WriteMessage (req : udp_pool.Message) (s : dtls.Session)
    (w : World) : outcome (option error) * udp_pool.Message * World :=
  match udp_message.Marshal growslice stale codec_Size codec_MarshalTo
          ReadBody req with
  | (Panic msg, req') => (Panic msg, req', w)
  | (Ret (_, Some e), req') => (Ret (Some (ErrWrap "cannot marshal" e)), req', w)
  | (Ret (data, None), req') =>
      let '(err, w') :=
        WriteWithContext (udp_pool.Context req') (default [] data) w in
      match err with
      | Some e =>
          (Ret (Some (ErrWrap "cannot write to connection" e)), req', w')
      | None => (Ret None, req', w')
      end
  end.

Definition MaxMessageSize (s : dtls.Session) : nat := dtls.maxMessageSize s.

End WithTransport.

End dtls_io.

Module udp_io.

Section WithTransport.

Variable growslice : nat -> nat -> nat.
Variable stale : slice -> list Byte.byte.
Variable codec_Size : udp_message.WireMessage -> Z * option error.
Variable codec_MarshalTo :
  udp_message.WireMessage -> list Byte.byte
  -> (Z * option error) * list Byte.byte.
Variable ReadBody : msgpool.Message -> list Byte.byte * option error.
(** [s.connection.WriteWithContext(ctx, raddr, data)] *)
Variable WriteWithContext :
  option context.Context -> nat -> list Byte.byte -> World
  -> option error * World.

Definition WriteMessage (req : udp_pool.Message) (s : udp_session.Session)
    (w : World) : outcome (option error) * udp_pool.Message * World :=
  match udp_message.Marshal growslice stale codec_Size codec_MarshalTo
          ReadBody req with
  | (Panic msg, req') => (Panic msg, req', w)
  | (Ret (_, Some e), req') => (Ret (Some (ErrWrap "cannot marshal" e)), req', w)
  | (Ret (data, None), req') =>
      let '(err, w') :=
        WriteWithContext (udp_pool.Context req') (udp_session.raddr s)
          (default [] data) w in
      (Ret err, req', w')
  end.

Definition MaxMessageSize (s : udp_session.Session) : nat :=
  udp_session.maxMessageSize s.

Definition RemoteAddr (s : udp_session.Session) : nat := udp_session.raddr s.

End WithTransport.

End udp_io.

(* ===================================================================== *)
(** ** Sample runtime, codec and transport                                *)
(* ===================================================================== *)

(** A runtime that doubles a slice it moves, and an array whose unused part
    holds 0xff. *)
Definition sample_growslice (c n : nat) : nat := Nat.max (2 * c) n.

Definition sample_stale (s : slice) : list Byte.byte :=
  repeat Byte.xff (cap s - len s).

(** A decoder that rejects the empty datagram and otherwise reads an
    acknowledgement with message-ID 7 whose payload is what follows the
    first byte. *)
Definition sample_decode (data : list Byte.byte)
    : (Z * option error) * udp_message.WireMessage :=
  match data with
  | [] =>
      ((0, Some (ErrNew "message is too short")),
       {| udp_message.Code := 0; udp_message.Token := None;
          udp_message.Options := []; udp_message.MessageID := 0;
          udp_message.Type_ := 0; udp_message.Payload := [] |})
  | _ :: rest =>
      ((Z.of_nat (length data), None),
       {| udp_message.Code := 69; udp_message.Token := Some [Byte.x01];
          udp_message.Options := []; udp_message.MessageID := 7;
          udp_message.Type_ := udp.Acknowledgement;
          udp_message.Payload := rest |})
  end.

Definition sample_decode_tcp (data : list Byte.byte)
    : (Z * option error) * tcp_message.WireMessage :=
  match data with
  | [] =>
      ((0, Some (ErrNew "message is too short")),
       {| tcp_message.Code := 0; tcp_message.Token := None;
          tcp_message.Options := []; tcp_message.Payload := [] |})
  | _ :: rest =>
      ((Z.of_nat (length data), None),
       {| tcp_message.Code := 69; tcp_message.Token := Some [Byte.x01];
          tcp_message.Options := []; tcp_message.Payload := rest |})
  end.

(** An encoder that writes one byte of header and the payload, and asks for
    a buffer that long. *)
Definition sample_Size (m : udp_message.WireMessage) : Z * option error :=
  (Z.of_nat (S (length (udp_message.Payload m))), None).

Definition sample_MarshalTo (m : udp_message.WireMessage)
    (buf : list Byte.byte) : (Z * option error) * list Byte.byte :=
  if (length buf <? S (length (udp_message.Payload m)))%nat
  then ((Z.of_nat (S (length (udp_message.Payload m))),
         Some (ErrNew "too small bytes buffer")), [])
  else ((Z.of_nat (S (length (udp_message.Payload m))), None),
        Byte.x60 :: udp_message.Payload m).

(** The body of the container, read whole. *)
Definition sample_ReadBody (m : msgpool.Message)
    : list Byte.byte * option error :=
  (default [] (msgpool.body m), None).

Definition sample_Clone (o : list msgpool.Option_)
    : list msgpool.Option_ * option error := (o, None).

(** A transport that refuses to write when the context is cancelled. *)
Definition sample_Write (c : option context.Context) (data : list Byte.byte)
    (w : World) : option error * World :=
  match c with
  | Some c' =>
      if context.done c' (ctxs w) then (Some context.Canceled, w)
      else (None, w)
  | None => (None, w)
  end.

(** A generic message with a context, and one without. *)
Definition sample_request : message.Message :=
  {| message.Context := Some context.Background;
     message.Code := 1;
     message.Token := Some [Byte.x01; Byte.x02];
     message.Body := Some [Byte.x68; Byte.x69];
     message.Options := [(11, [Byte.x61])] |}.

Definition sample_orphan : message.Message :=
  {| message.Context := None;
     message.Code := 1;
     message.Token := None;
     message.Body := None;
     message.Options := [] |}.

(** The message's context is cancelled, the session's is not: the write is
    refused. *)
Definition cancelled_request : udp_pool.Message * World :=
  let '((c, cancel), cs) :=
    context.WithCancel (dtls.Context dtls_owner) (ctxs dtls_world) in
  (udp_pool.set_ctx (Some c) used_message,
   {| ctxs := context.cancel cancel cs; log := log dtls_world |}).

(* ===================================================================== *)
(** ** What more is said of the pools                                     *)
(* ===================================================================== *)

(** The state of a message that waits in the pool. *)
Definition udp_Idle (r : udp_pool.Message) : Prop :=
  udp_pool.Message_ r = msgpool.NewMessage
  /\ udp_pool.messageID r = None
  /\ udp_pool.typ r = udp.NonConfirmable
  /\ udp_pool.isModified r = false
  /\ (cap (udp_pool.rawData r) <= 2048)%nat
  /\ (cap (udp_pool.rawMarshalData r) <= 2048)%nat.

Definition tcp_Idle (r : tcp_pool.Message) : Prop :=
  tcp_pool.Message_ r = msgpool.NewMessage
  /\ tcp_pool.isModified r = false
  /\ (cap (tcp_pool.rawData r) <= 2048)%nat
  /\ (cap (tcp_pool.rawMarshalData r) <= 2048)%nat.

(** By how much the counter exceeds the instances the pool retains. *)
Definition pool_gap {Msg : Type} (st : PoolState Msg) : Z :=
  currentMessagesInPool st - Z.of_nat (length (messagePool st)).

(** A pool below the cap that knows one message. *)
Definition small_udp_pool : PoolState udp_pool.Message :=
  {| heap := {[ 7%nat := used_message ]};
     currentMessagesInPool := 3;
     messagePool := [] |}.

(** One message acquired, used, released: it waits in the pool. *)
Definition one_released : PoolState udp_pool.Message :=
  snd (udp_pool.ReleaseMessage 0%nat
         (use_message 0%nat (fun _ => used_message)
            (snd (udp_pool.AcquireMessage None None pool_init)))).

(** The transport delivers and the processor accepts, for ever. *)
Definition env_quiet : Env :=
  {| read_result := fun _ => ReadOk [Byte.x40; Byte.x01];
     process_result := fun _ _ => None;
     conn_close_result := None;
     close_requested := fun _ => false |}.


(* ===================================================================== *)
(** * Properties                                                          *)
(* ===================================================================== *)

(** ** Arithmetic of the counter *)

Lemma wrap32_id z : - 2 ^ 31 <= z < 2 ^ 31 -> wrap32 z = z.
Proof.
  intros Hz. unfold wrap32.
  rewrite Z.mod_small by lia. lia.
Qed.

Lemma atomic_AddInt32_small c d :
  - 2 ^ 31 <= c + d < 2 ^ 31 -> atomic_AddInt32 c d = c + d.
Proof. intros H. unfold atomic_AddInt32. now apply wrap32_id. Qed.

(** ** The pool, for either framing *)

Section PoolFacts.

Variable Msg : Type.
Variable newMsg : option context.Context -> Msg.
Variable resetMsg : Msg -> Msg.
Variable setCtx : option context.Context -> Msg -> Msg.
Variable Clean : Msg -> Prop.

Hypothesis Clean_new : forall c, Clean (newMsg c).
Hypothesis Clean_reset : forall m, Clean (resetMsg m).
Hypothesis Clean_setCtx : forall c m, Clean m -> Clean (setCtx c m).

Local Abbreviation Acquire := (AcquireMessage Msg newMsg setCtx).
Local Abbreviation Release := (ReleaseMessage Msg resetMsg setCtx).
Local Abbreviation Reachable := (reachable Msg newMsg resetMsg setCtx).
Local Abbreviation Inv := (pool_inv Clean).

Lemma pool_inv_init : Inv pool_init.
Proof.
  unfold pool_inv, maxMessagePool; simpl. repeat split; try lia.
  intros p Hp. inversion Hp.
Qed.

Lemma sync_Pool_Get_Some choice l r rest :
  sync_Pool_Get choice l = Some (r, rest) ->
  r ∈ l /\ (forall p, p ∈ rest -> p ∈ l)
  /\ S (length rest) = length l.
Proof.
  unfold sync_Pool_Get. destruct choice as [i|]; [|discriminate].
  destruct (l !! i) as [p|] eqn:Hi; [|discriminate].
  intros [= <- <-]. split; [|split].
  - eapply list_elem_of_lookup_2; eauto.
  - intros q Hq. eapply elem_of_sublist; [exact Hq|apply sublist_delete].
  - rewrite length_delete by eauto.
    apply lookup_lt_Some in Hi. lia.
Qed.

Lemma pool_inv_acquire st choice c :
  Inv st -> Inv (snd (Acquire choice c st)).
Proof.
  intros (Hc & Hlen & Hptr). unfold AcquireMessage.
  destruct (sync_Pool_Get choice (messagePool st)) as [[r rest]|] eqn:Hget.
  - apply sync_Pool_Get_Some in Hget as (Hr & Hrest & Hl).
    assert (1 <= currentMessagesInPool st) by lia.
    assert (Hn : atomic_AddInt32 (currentMessagesInPool st) (-1)
                 = currentMessagesInPool st - 1).
    { rewrite atomic_AddInt32_small; unfold maxMessagePool in *; lia. }
    destruct (Hptr r Hr) as (m & Hm & Hclean). rewrite Hm. simpl.
    unfold pool_inv; simpl. rewrite Hn.
    split; [lia|]. split; [lia|].
    intros p Hp. destruct (decide (p = r)) as [->|Hne].
    + exists (setCtx c m). rewrite lookup_insert_eq. auto.
    + rewrite lookup_insert_ne by congruence. auto.
  - simpl. unfold pool_inv; simpl. split; [lia|]. split; [lia|].
    intros p Hp. destruct (Hptr p Hp) as (m & Hm & Hclean).
    exists m. split; [|assumption].
    rewrite lookup_insert_ne; [assumption|].
    intros Heq. pose proof (is_fresh (dom (heap st))) as Hf.
    rewrite Heq in Hf. apply Hf. apply elem_of_dom. eauto.
Qed.

Lemma pool_inv_release st req :
  Inv st -> Inv (snd (Release req st)).
Proof.
  intros (Hc & Hlen & Hptr). unfold ReleaseMessage.
  destruct (currentMessagesInPool st >=? maxMessagePool) eqn:Hcap.
  - simpl. unfold pool_inv. auto.
  - rewrite Z.geb_leb in Hcap. apply Z.leb_gt in Hcap.
    assert (Hn : atomic_AddInt32 (currentMessagesInPool st) 1
                 = currentMessagesInPool st + 1).
    { rewrite atomic_AddInt32_small; unfold maxMessagePool in *; lia. }
    destruct (heap st !! req) as [m|] eqn:Hm; simpl;
      unfold pool_inv; simpl; rewrite Hn.
    + split; [lia|]. split; [lia|].
      intros p Hp. destruct (decide (p = req)) as [->|Hne].
      * eexists. rewrite lookup_insert_eq. split; [reflexivity|]. auto.
      * rewrite lookup_insert_ne by congruence.
        apply Hptr. apply elem_of_cons in Hp as [?|?]; [congruence|assumption].
    + split; [lia|]. split; [lia|]. assumption.
Qed.

Lemma pool_inv_drop st i : Inv st -> Inv (sync_Pool_drop i st).
Proof.
  intros (Hc & Hlen & Hptr). unfold pool_inv, sync_Pool_drop; simpl.
  split; [lia|]. split.
  - pose proof (sublist_length _ _ (sublist_delete (messagePool st) i)). lia.
  - intros p Hp. apply Hptr.
    eapply elem_of_sublist; [exact Hp|apply sublist_delete].
Qed.

Lemma pool_inv_use st p f :
  p ∉ messagePool st -> Inv st -> Inv (use_message p f st).
Proof.
  intros Hp (Hc & Hlen & Hptr). unfold pool_inv, use_message; simpl.
  split; [lia|]. split; [lia|].
  intros q Hq. rewrite lookup_alter_ne; [auto|].
  intros ->. contradiction.
Qed.

Lemma reachable_inv st : Reachable st -> Inv st.
Proof.
  induction 1.
  - apply pool_inv_init.
  - now apply pool_inv_acquire.
  - now apply pool_inv_release.
  - now apply pool_inv_drop.
  - now apply pool_inv_use.
Qed.

Lemma run_ops_reachable ops st :
  Reachable st -> Reachable (run_ops Msg newMsg resetMsg setCtx ops st).
Proof.
  revert st. induction ops as [|o ops IH]; intros st Hst; simpl; [assumption|].
  apply IH. destruct o; simpl; now constructor.
Qed.

(** Releasing at or above the cap changes nothing at all. *)
Lemma release_at_cap st req :
  maxMessagePool <= currentMessagesInPool st ->
  Release req st = (Ret tt, st).
Proof.
  intros H. unfold ReleaseMessage.
  destruct (currentMessagesInPool st >=? maxMessagePool) eqn:Hcap;
    [reflexivity|].
  rewrite Z.geb_leb in Hcap. apply Z.leb_gt in Hcap. lia.
Qed.

(** Releasing below the cap resets the message, clears its context and
    retains the pointer. *)
Lemma release_below_cap st req m :
  currentMessagesInPool st < maxMessagePool ->
  heap st !! req = Some m ->
  Release req st =
    (Ret tt,
     {| heap := <[req := setCtx None (resetMsg m)]> (heap st);
        currentMessagesInPool :=
          atomic_AddInt32 (currentMessagesInPool st) 1;
        messagePool := req :: messagePool st |}).
Proof.
  intros H Hm. unfold ReleaseMessage.
  destruct (currentMessagesInPool st >=? maxMessagePool) eqn:Hcap.
  - apply Z.geb_le in Hcap. lia.
  - now rewrite Hm.
Qed.

(** Acquiring from an empty pool allocates: the pool stays empty, the
    counter stays, every pointer handed out is live, and live pointers
    stay live. *)
Lemma acquire_n_spec n choices c : forall st,
  messagePool st = [] ->
  length (fst (acquire_n Msg newMsg setCtx n choices c st)) = n
  /\ messagePool (snd (acquire_n Msg newMsg setCtx n choices c st)) = []
  /\ currentMessagesInPool (snd (acquire_n Msg newMsg setCtx n choices c st))
     = currentMessagesInPool st
  /\ (forall p, is_Some (heap st !! p) ->
        is_Some (heap (snd (acquire_n Msg newMsg setCtx n choices c st)) !! p))
  /\ (forall p, p ∈ fst (acquire_n Msg newMsg setCtx n choices c st) ->
        is_Some (heap (snd (acquire_n Msg newMsg setCtx n choices c st)) !! p)).
Proof.
  induction n as [|n IH]; intros st Hempty.
  - simpl. split; [reflexivity|]. split; [assumption|]. split; [reflexivity|].
    split; [auto|]. intros p Hp. inversion Hp.
  - set (p0 := fresh (dom (heap st))).
    set (st1 := {| heap := <[p0 := newMsg c]> (heap st);
                   currentMessagesInPool := currentMessagesInPool st;
                   messagePool := messagePool st |}).
    assert (Hacq1 : Acquire (choices n) c st = (Ret p0, st1)).
    { unfold AcquireMessage. rewrite Hempty.
      assert (Hget : sync_Pool_Get (choices n) [] = None).
      { unfold sync_Pool_Get. destruct (choices n) as [i|]; [|reflexivity].
        now rewrite lookup_nil. }
      rewrite Hget. subst st1 p0. now rewrite Hempty. }
    specialize (IH st1 Hempty).
    destruct (acquire_n Msg newMsg setCtx n choices c st1) as [ps st2] eqn:Hacq.
    assert (Heq : acquire_n Msg newMsg setCtx (S n) choices c st
                  = (p0 :: ps, st2)).
    { simpl. now rewrite Hacq1, Hacq. }
    rewrite Heq. simpl in *.
    destruct IH as (Hlen & Hpool & Hcnt & Hlive & Hptrs).
    split; [now rewrite Hlen|]. split; [assumption|]. split; [assumption|].
    split.
    + intros p Hp. apply Hlive.
      destruct (decide (p = p0)) as [->|Hne].
      * rewrite lookup_insert_eq. eauto.
      * now rewrite lookup_insert_ne by congruence.
    + intros p Hp. apply elem_of_cons in Hp as [->|Hp]; [|auto].
      apply Hlive. rewrite lookup_insert_eq. eauto.
Qed.

(** Releasing live pointers fills the pool up to the cap and no further. *)
Lemma release_all_spec reqs : forall st,
  (forall p, p ∈ reqs -> is_Some (heap st !! p)) ->
  0 <= currentMessagesInPool st <= maxMessagePool ->
  Z.of_nat (length (messagePool st)) = currentMessagesInPool st ->
  currentMessagesInPool (release_all Msg resetMsg setCtx reqs st)
    = Z.min (currentMessagesInPool st + Z.of_nat (length reqs)) maxMessagePool
  /\ Z.of_nat (length (messagePool (release_all Msg resetMsg setCtx reqs st)))
     = Z.min (currentMessagesInPool st + Z.of_nat (length reqs)) maxMessagePool.
Proof.
  unfold release_all.
  induction reqs as [|req reqs IH]; intros st Hlive Hc Hlen.
  - simpl. rewrite Z.add_0_r, Z.min_l by lia. auto.
  - cbn [fold_left].
    destruct (Z_lt_le_dec (currentMessagesInPool st) maxMessagePool) as [Hlt|Hge].
    + destruct (Hlive req) as [m Hm]; [apply elem_of_cons; now left|].
      assert (Hn : atomic_AddInt32 (currentMessagesInPool st) 1
                   = currentMessagesInPool st + 1).
      { rewrite atomic_AddInt32_small; unfold maxMessagePool in *; lia. }
      rewrite (release_below_cap st req m Hlt Hm). cbn [snd]. rewrite Hn.
      match goal with |- context [fold_left _ reqs ?st1] =>
        destruct (IH st1) as (H1 & H2) end.
      * intros p Hp. cbn [heap].
        destruct (decide (p = req)) as [->|Hne].
        -- rewrite lookup_insert_eq. eauto.
        -- rewrite lookup_insert_ne by congruence.
           apply Hlive. apply elem_of_cons. now right.
      * cbn [currentMessagesInPool]. lia.
      * cbn [currentMessagesInPool messagePool length]. lia.
      * cbn [currentMessagesInPool] in H1, H2.
        rewrite H1, H2. cbn [length]. split; f_equal; lia.
    + rewrite (release_at_cap st req Hge). cbn [snd].
      destruct (IH st) as (H1 & H2); auto.
      * intros p Hp. apply Hlive. apply elem_of_cons. now right.
      * rewrite H1, H2. cbn [length]. rewrite !Z.min_r by lia. auto.
Qed.

(** Acquire [N] messages from the initial pool, release all of them:
    the pool retains [N] of them up to the cap, and the cap beyond. *)
Lemma acquire_release_all N choices c :
  let acquired := acquire_n Msg newMsg setCtx N choices c pool_init in
  let st := release_all Msg resetMsg setCtx (fst acquired) (snd acquired) in
  length (fst acquired) = N
  /\ currentMessagesInPool st = Z.min (Z.of_nat N) maxMessagePool
  /\ Z.of_nat (length (messagePool st)) = Z.min (Z.of_nat N) maxMessagePool.
Proof.
  intros acquired st.
  destruct (acquire_n_spec N choices c pool_init eq_refl)
    as (Hlen & Hpool & Hcnt & _ & Hptrs).
  fold acquired in Hlen, Hpool, Hcnt, Hptrs.
  split; [assumption|].
  destruct (release_all_spec (fst acquired) (snd acquired)) as (H1 & H2).
  - assumption.
  - rewrite Hcnt. simpl. unfold maxMessagePool. lia.
  - rewrite Hpool, Hcnt. reflexivity.
  - fold st in H1, H2. rewrite Hcnt, Hlen in H1, H2. simpl in H1, H2.
    auto.
Qed.

(** An acquire in a reachable state returns a pointer to a live message
    that is clean, whatever the [sync.Pool] hands out. *)
Lemma acquire_clean st choice c :
  Reachable st ->
  exists p m,
    fst (Acquire choice c st) = Ret p
    /\ heap (snd (Acquire choice c st)) !! p = Some m
    /\ Clean m.
Proof.
  intros Hst. apply reachable_inv in Hst as (Hc & Hlen & Hptr).
  unfold AcquireMessage.
  destruct (sync_Pool_Get choice (messagePool st)) as [[r rest]|] eqn:Hget.
  - apply sync_Pool_Get_Some in Hget as (Hr & _).
    destruct (Hptr r Hr) as (m & Hm & Hclean). rewrite Hm. simpl.
    exists r, (setCtx c m). rewrite lookup_insert_eq. auto.
  - simpl. eexists _, _. rewrite lookup_insert_eq. eauto.
Qed.

End PoolFacts.

(** ** The datagram-framing message and its pool *)

Lemma udp_Clean_new c : udp_pool.Clean (udp_pool.new_Message c).
Proof. split; reflexivity. Qed.

Lemma udp_Clean_reset r : udp_pool.Clean (udp_pool.Reset r).
Proof. split; reflexivity. Qed.

Lemma udp_Clean_set_ctx c r :
  udp_pool.Clean r -> udp_pool.Clean (udp_pool.set_ctx c r).
Proof. intros [Hid Hmod]. split; assumption. Qed.

Lemma tcp_Clean_reset r : tcp_pool.Clean (tcp_pool.Reset r).
Proof. reflexivity. Qed.

Lemma tcp_Clean_set_ctx c r :
  tcp_pool.Clean r -> tcp_pool.Clean (tcp_pool.set_ctx c r).
Proof. intros H. exact H. Qed.

Lemma udp_reachable_inv st :
  udp_pool.reachable st -> pool_inv udp_pool.Clean st.
Proof.
  apply reachable_inv.
  - apply udp_Clean_reset.
  - apply udp_Clean_set_ctx.
Qed.

Lemma tcp_reachable_inv st :
  tcp_pool.reachable st -> pool_inv tcp_pool.Clean st.
Proof.
  apply reachable_inv.
  - apply tcp_Clean_reset.
  - apply tcp_Clean_set_ctx.
Qed.

Lemma udp_acquire_clean st choice c :
  udp_pool.reachable st ->
  exists p m,
    fst (udp_pool.AcquireMessage choice c st) = Ret p
    /\ heap (snd (udp_pool.AcquireMessage choice c st)) !! p = Some m
    /\ udp_pool.Clean m.
Proof.
  apply acquire_clean.
  - apply udp_Clean_new.
  - apply udp_Clean_reset.
  - apply udp_Clean_set_ctx.
Qed.

(** C1.  [MessageID()] of a datagram-framing message whose message-ID is
    unset panics with "messageID is not set" and returns no value; this is
    the case after [Reset] and for the message any [AcquireMessage] in a
    reachable pool returns.  When a message-ID was set, [MessageID()]
    returns exactly that value. *)
Theorem MessageID_unset_panics :
  (forall r, udp_pool.messageID r = None ->
             udp_pool.MessageID r = Panic "messageID is not set")
  /\ (forall r,
        udp_pool.MessageID (udp_pool.Reset r) = Panic "messageID is not set")
  /\ (forall st choice c, udp_pool.reachable st ->
        exists p m,
          fst (udp_pool.AcquireMessage choice c st) = Ret p
          /\ heap (snd (udp_pool.AcquireMessage choice c st)) !! p = Some m
          /\ udp_pool.MessageID m = Panic "messageID is not set")
  /\ (forall r v, udp_pool.messageID r = Some v ->
                  udp_pool.MessageID r = Ret v)
  /\ (forall r mid,
        udp_pool.MessageID (udp_pool.SetMessageID mid r) = Ret mid).
Proof.
  assert (Hunset : forall r, udp_pool.messageID r = None ->
             udp_pool.MessageID r = Panic "messageID is not set").
  { intros r H. unfold udp_pool.MessageID. now rewrite H. }
  split; [exact Hunset|]. split; [|split; [|split]].
  - intros r. apply Hunset. reflexivity.
  - intros st choice c Hst.
    destruct (udp_acquire_clean st choice c Hst) as (p & m & Hp & Hm & Hid & _).
    exists p, m. auto.
  - intros r v H. unfold udp_pool.MessageID. now rewrite H.
  - reflexivity.
Qed.

Lemma MessageID_unset_panics_witness :
  udp_pool.MessageID (udp_pool.new_Message None)
    = Panic "messageID is not set"
  /\ udp_pool.MessageID used_message = Ret 42
  /\ exists p m,
       fst (udp_pool.AcquireMessage None None pool_init) = Ret p
       /\ heap (snd (udp_pool.AcquireMessage None None pool_init)) !! p
          = Some m
       /\ udp_pool.MessageID m = Panic "messageID is not set".
Proof.
  split; [|split].
  - apply (proj1 MessageID_unset_panics). reflexivity.
  - apply (proj1 (proj2 (proj2 (proj2 MessageID_unset_panics)))).
    reflexivity.
  - apply (proj1 (proj2 (proj2 MessageID_unset_panics))).
    apply reach_init.
Defined.

(** C2.  In either package, in every state that acquires and releases
    (and drops by the [sync.Pool]) lead to, the counter
    [currentMessagesInPool] is between 0 and [maxMessagePool] = 10240 and
    the pool retains at most as many instances as the counter says, hence
    at most 10240, however many messages were acquired and released;
    [ReleaseMessage] called with the counter at or above the cap returns
    with the counter and the retained instances as they were.  Acquiring
    [N] messages from the initial pool and releasing all [N] leaves
    min(N, 10240) instances retained and the counter at that number. *)
Theorem pool_counter_within_cap :
  maxMessagePool = 10240
  /\ (forall st, udp_pool.reachable st ->
        0 <= currentMessagesInPool st <= maxMessagePool
        /\ Z.of_nat (length (messagePool st)) <= currentMessagesInPool st)
  /\ (forall st, tcp_pool.reachable st ->
        0 <= currentMessagesInPool st <= maxMessagePool
        /\ Z.of_nat (length (messagePool st)) <= currentMessagesInPool st)
  /\ (forall ops,
        Z.of_nat (length (messagePool (udp_pool.run_ops ops pool_init)))
          <= maxMessagePool
        /\ 0 <= currentMessagesInPool (udp_pool.run_ops ops pool_init))
  /\ (forall ops,
        Z.of_nat (length (messagePool (tcp_pool.run_ops ops pool_init)))
          <= maxMessagePool
        /\ 0 <= currentMessagesInPool (tcp_pool.run_ops ops pool_init))
  /\ (forall st req, maxMessagePool <= currentMessagesInPool st ->
        currentMessagesInPool (snd (udp_pool.ReleaseMessage req st))
          = currentMessagesInPool st
        /\ messagePool (snd (udp_pool.ReleaseMessage req st))
          = messagePool st
        /\ fst (udp_pool.ReleaseMessage req st) = Ret tt)
  /\ (forall st req, maxMessagePool <= currentMessagesInPool st ->
        currentMessagesInPool (snd (tcp_pool.ReleaseMessage req st))
          = currentMessagesInPool st
        /\ messagePool (snd (tcp_pool.ReleaseMessage req st))
          = messagePool st
        /\ fst (tcp_pool.ReleaseMessage req st) = Ret tt)
  /\ (forall N choices c,
        let acquired := udp_pool.acquire_n N choices c pool_init in
        let st := udp_pool.release_all (fst acquired) (snd acquired) in
        length (fst acquired) = N
        /\ currentMessagesInPool st = Z.min (Z.of_nat N) maxMessagePool
        /\ Z.of_nat (length (messagePool st))
           = Z.min (Z.of_nat N) maxMessagePool)
  /\ (forall N choices c,
        let acquired := tcp_pool.acquire_n N choices c pool_init in
        let st := tcp_pool.release_all (fst acquired) (snd acquired) in
        length (fst acquired) = N
        /\ currentMessagesInPool st = Z.min (Z.of_nat N) maxMessagePool
        /\ Z.of_nat (length (messagePool st))
           = Z.min (Z.of_nat N) maxMessagePool).
Proof.
  split; [reflexivity|].
  split; [|split; [|split; [|split; [|split; [|split; [|split]]]]]];
    [| | | | | |apply acquire_release_all|apply acquire_release_all].
  - intros st Hst. apply udp_reachable_inv in Hst as (Hc & Hlen & _). auto.
  - intros st Hst. apply tcp_reachable_inv in Hst as (Hc & Hlen & _). auto.
  - intros ops.
    assert (Hr : udp_pool.reachable (udp_pool.run_ops ops pool_init))
      by (apply run_ops_reachable, reach_init).
    apply udp_reachable_inv in Hr as (Hc & Hlen & _). lia.
  - intros ops.
    assert (Hr : tcp_pool.reachable (tcp_pool.run_ops ops pool_init))
      by (apply run_ops_reachable, reach_init).
    apply tcp_reachable_inv in Hr as (Hc & Hlen & _). lia.
  - intros st req H. unfold udp_pool.ReleaseMessage.
    rewrite release_at_cap by assumption. auto.
  - intros st req H. unfold tcp_pool.ReleaseMessage.
    rewrite release_at_cap by assumption. auto.
Qed.

Lemma pool_counter_within_cap_witness :
  (0 <= currentMessagesInPool
          (udp_pool.run_ops [OpAcquire None None; OpRelease 0%nat;
                             OpRelease 0%nat] pool_init)
     <= maxMessagePool)
  /\ currentMessagesInPool
       (snd (udp_pool.ReleaseMessage 7%nat full_udp_pool)) = maxMessagePool
  /\ currentMessagesInPool
       (snd (tcp_pool.ReleaseMessage 7%nat full_tcp_pool)) = maxMessagePool.
Proof.
  split; [|split].
  - apply (proj1 (proj2 pool_counter_within_cap)).
    apply (run_ops_reachable _ _ _ _
             [OpAcquire None None; OpRelease 0%nat; OpRelease 0%nat]).
    apply reach_init.
  - apply (proj1 (proj2 (proj2 (proj2 (proj2 (proj2 pool_counter_within_cap)))))
             full_udp_pool 7%nat).
    simpl. unfold maxMessagePool. lia.
  - apply (proj1 (proj2 (proj2 (proj2 (proj2 (proj2 (proj2
                    pool_counter_within_cap))))))
             full_tcp_pool 7%nat).
    simpl. unfold maxMessagePool. lia.
Defined.

(** C9.  [ReleaseMessage] called with the counter at or above the cap
    leaves the whole state as it was: the message [req] points to keeps
    every field, its context included, and nothing is reset.  Below the
    cap the message is replaced by its [Reset] with the context cleared. *)
Theorem release_at_cap_leaves_message :
  (forall st req, maxMessagePool <= currentMessagesInPool st ->
      udp_pool.ReleaseMessage req st = (Ret tt, st)
      /\ heap (snd (udp_pool.ReleaseMessage req st)) !! req = heap st !! req)
  /\ (forall st req, maxMessagePool <= currentMessagesInPool st ->
      tcp_pool.ReleaseMessage req st = (Ret tt, st)
      /\ heap (snd (tcp_pool.ReleaseMessage req st)) !! req = heap st !! req)
  /\ (forall st req m, currentMessagesInPool st < maxMessagePool ->
      heap st !! req = Some m ->
      heap (snd (udp_pool.ReleaseMessage req st)) !! req
        = Some (udp_pool.set_ctx None (udp_pool.Reset m)))
  /\ (forall st req m, currentMessagesInPool st < maxMessagePool ->
      heap st !! req = Some m ->
      heap (snd (tcp_pool.ReleaseMessage req st)) !! req
        = Some (tcp_pool.set_ctx None (tcp_pool.Reset m))).
Proof.
  split; [|split; [|split]].
  - intros st req H. unfold udp_pool.ReleaseMessage.
    rewrite release_at_cap by assumption. auto.
  - intros st req H. unfold tcp_pool.ReleaseMessage.
    rewrite release_at_cap by assumption. auto.
  - intros st req m H Hm. unfold udp_pool.ReleaseMessage.
    rewrite (release_below_cap _ _ _ st req m H Hm). simpl.
    apply lookup_insert_eq.
  - intros st req m H Hm. unfold tcp_pool.ReleaseMessage.
    rewrite (release_below_cap _ _ _ st req m H Hm). simpl.
    apply lookup_insert_eq.
Qed.

Lemma release_at_cap_leaves_message_witness :
  heap (snd (udp_pool.ReleaseMessage 7%nat full_udp_pool)) !! 7%nat
    = Some used_message
  /\ heap (snd (udp_pool.ReleaseMessage 7%nat
                  {| heap := {[ 7%nat := used_message ]};
                     currentMessagesInPool := 3;
                     messagePool := [] |})) !! 7%nat
    = Some (udp_pool.set_ctx None (udp_pool.Reset used_message)).
Proof.
  split.
  - etransitivity.
    + apply (proj1 release_at_cap_leaves_message full_udp_pool 7%nat).
      simpl. unfold maxMessagePool. lia.
    + apply lookup_singleton_eq.
  - apply (proj1 (proj2 (proj2 release_at_cap_leaves_message))).
    + simpl. unfold maxMessagePool. lia.
    + apply lookup_singleton_eq.
Defined.

(** C4, as the specification states it, fails: a freshly built message
    has the zero message type, which is [udp.Confirmable], and [Reset]
    leaves [udp.NonConfirmable] = 1 in its place. *)
Lemma Reset_type_is_not_zero :
  udp_pool.typ (udp_pool.new_Message None) = 0
  /\ udp_pool.typ (udp_pool.Reset (udp_pool.new_Message None)) = 1
  /\ udp_pool.typ (udp_pool.Reset used_message) <> 0.
Proof. split; [reflexivity|]. split; [reflexivity|]. discriminate. Qed.

(** C4, amended.  [Reset] on a pooled message restores the embedded
    container to empty, leaves the message-ID unset and the message type
    [udp.NonConfirmable] (datagram framing; stream framing has neither),
    replaces each of the two scratch buffers whose capacity exceeds 2048 by
    a fresh one of 256 bytes and keeps a buffer of capacity at most 2048 as
    it is, clears the dirty flag, and keeps the context. *)
Theorem Reset_restores_message :
  maxMessageBufferSize = 2048%nat
  /\ (forall r,
      udp_pool.Message_ (udp_pool.Reset r) = msgpool.NewMessage
      /\ udp_pool.messageID (udp_pool.Reset r) = None
      /\ udp_pool.typ (udp_pool.Reset r) = udp.NonConfirmable
      /\ udp_pool.isModified (udp_pool.Reset r) = false
      /\ udp_pool.IsModified (udp_pool.Reset r) = false
      /\ udp_pool.ctx (udp_pool.Reset r) = udp_pool.ctx r
      /\ ((2048 < cap (udp_pool.rawData r))%nat ->
            udp_pool.rawData (udp_pool.Reset r) = make 256)
      /\ ((cap (udp_pool.rawData r) <= 2048)%nat ->
            udp_pool.rawData (udp_pool.Reset r) = udp_pool.rawData r)
      /\ ((2048 < cap (udp_pool.rawMarshalData r))%nat ->
            udp_pool.rawMarshalData (udp_pool.Reset r) = make 256)
      /\ ((cap (udp_pool.rawMarshalData r) <= 2048)%nat ->
            udp_pool.rawMarshalData (udp_pool.Reset r)
              = udp_pool.rawMarshalData r))
  /\ (forall r,
      tcp_pool.Message_ (tcp_pool.Reset r) = msgpool.NewMessage
      /\ tcp_pool.isModified (tcp_pool.Reset r) = false
      /\ tcp_pool.IsModified (tcp_pool.Reset r) = false
      /\ tcp_pool.ctx (tcp_pool.Reset r) = tcp_pool.ctx r
      /\ ((2048 < cap (tcp_pool.rawData r))%nat ->
            tcp_pool.rawData (tcp_pool.Reset r) = make 256)
      /\ ((cap (tcp_pool.rawData r) <= 2048)%nat ->
            tcp_pool.rawData (tcp_pool.Reset r) = tcp_pool.rawData r)
      /\ ((2048 < cap (tcp_pool.rawMarshalData r))%nat ->
            tcp_pool.rawMarshalData (tcp_pool.Reset r) = make 256)
      /\ ((cap (tcp_pool.rawMarshalData r) <= 2048)%nat ->
            tcp_pool.rawMarshalData (tcp_pool.Reset r)
              = tcp_pool.rawMarshalData r))
  /\ len (make 256) = 256%nat /\ cap (make 256) = 256%nat.
Proof.
  split; [reflexivity|]. split; [|split; [|split; [|reflexivity]]].
  - intros r. repeat (split; [reflexivity|]).
    unfold udp_pool.Reset, maxMessageBufferSize; simpl.
    repeat split; intros H.
    + apply Nat.ltb_lt in H. now rewrite H.
    + apply Nat.ltb_ge in H. now rewrite H.
    + apply Nat.ltb_lt in H. now rewrite H.
    + apply Nat.ltb_ge in H. now rewrite H.
  - intros r. repeat (split; [reflexivity|]).
    unfold tcp_pool.Reset, maxMessageBufferSize; simpl.
    repeat split; intros H.
    + apply Nat.ltb_lt in H. now rewrite H.
    + apply Nat.ltb_ge in H. now rewrite H.
    + apply Nat.ltb_lt in H. now rewrite H.
    + apply Nat.ltb_ge in H. now rewrite H.
  - reflexivity.
Qed.

Lemma Reset_restores_message_witness :
  udp_pool.rawData (udp_pool.Reset used_message) = make 256
  /\ udp_pool.rawMarshalData (udp_pool.Reset used_message)
     = udp_pool.rawMarshalData used_message.
Proof.
  destruct (proj1 (proj2 Reset_restores_message) used_message)
    as (_ & _ & _ & _ & _ & _ & Hbig & _ & _ & Hsmall).
  split.
  - apply Hbig. simpl. lia.
  - apply Hsmall. simpl. lia.
Defined.

Lemma is_nil_true {A} (o : option A) : udp_pool.is_nil o = true <-> o = None.
Proof. destruct o; simpl; split; congruence. Qed.

(** C5.  [IsSeparate()] returns true exactly when the code is
    [codes.Empty], the token is nil, the type is [udp.Acknowledgement],
    the option list has length 0 and the body is nil; when any one of the
    five fails it returns false. *)
Theorem IsSeparate_iff (r : udp_pool.Message) :
  (udp_pool.IsSeparate r = true <->
     udp_pool.Code r = codes.Empty
     /\ udp_pool.Token r = None
     /\ udp_pool.Type_ r = udp.Acknowledgement
     /\ length (udp_pool.Options r) = 0%nat
     /\ udp_pool.Body r = None)
  /\ (udp_pool.IsSeparate r = false <->
     udp_pool.Code r <> codes.Empty
     \/ udp_pool.Token r <> None
     \/ udp_pool.Type_ r <> udp.Acknowledgement
     \/ length (udp_pool.Options r) <> 0%nat
     \/ udp_pool.Body r <> None).
Proof.
  unfold udp_pool.IsSeparate. split.
  - rewrite !andb_true_iff, !is_nil_true, !Z.eqb_eq, Nat.eqb_eq. tauto.
  - rewrite !andb_false_iff, <- !not_true_iff_false,
      !is_nil_true, !Z.eqb_eq, Nat.eqb_eq. tauto.
Qed.

Lemma IsSeparate_iff_witness :
  udp_pool.IsSeparate bare_ack = true
  /\ udp_pool.IsSeparate
       (udp_pool.with_container (msgpool.ResetOptionsTo [(11, [Byte.x61])])
          bare_ack) = false
  /\ udp_pool.IsSeparate (udp_pool.new_Message None) = false.
Proof.
  split; [|split].
  - apply (proj1 (IsSeparate_iff bare_ack)). repeat split.
  - apply (proj2 (IsSeparate_iff _)).
    right; right; right; left. simpl. lia.
  - apply (proj2 (IsSeparate_iff _)).
    right; right; left. simpl. unfold udp.Acknowledgement. lia.
Defined.

(** C8.  [UpsertMessageID(mid)] returns the message-ID already set and
    leaves the message as it is; when none is set it stores [mid], changes
    no other field, and returns [mid].  Either way [MessageID()] then
    returns, without panic, the value [UpsertMessageID] returned. *)
Theorem UpsertMessageID_assigns_if_absent (r : udp_pool.Message) (mid : Z) :
  (forall v, udp_pool.messageID r = Some v ->
             udp_pool.UpsertMessageID mid r = (v, r))
  /\ (udp_pool.messageID r = None ->
        udp_pool.UpsertMessageID mid r
          = (mid,
             {| udp_pool.Message_ := udp_pool.Message_ r;
                udp_pool.messageID := Some mid;
                udp_pool.typ := udp_pool.typ r;
                udp_pool.rawData := udp_pool.rawData r;
                udp_pool.rawMarshalData := udp_pool.rawMarshalData r;
                udp_pool.ctx := udp_pool.ctx r;
                udp_pool.isModified := udp_pool.isModified r |}))
  /\ udp_pool.MessageID (snd (udp_pool.UpsertMessageID mid r))
       = Ret (fst (udp_pool.UpsertMessageID mid r)).
Proof.
  unfold udp_pool.UpsertMessageID, udp_pool.MessageID.
  destruct (udp_pool.messageID r) as [v|] eqn:Hid.
  - split; [|split].
    + intros v' [= <-]. reflexivity.
    + discriminate.
    + simpl. now rewrite Hid.
  - split; [|split].
    + discriminate.
    + reflexivity.
    + reflexivity.
Qed.

Lemma UpsertMessageID_assigns_if_absent_witness :
  udp_pool.UpsertMessageID 7 used_message = (42, used_message)
  /\ fst (udp_pool.UpsertMessageID 7 (udp_pool.Reset used_message)) = 7.
Proof.
  split.
  - apply (proj1 (UpsertMessageID_assigns_if_absent used_message 7)).
    reflexivity.
  - rewrite (proj1 (proj2 (UpsertMessageID_assigns_if_absent
                             (udp_pool.Reset used_message) 7)));
      reflexivity.
Defined.

(** C10.  [UpsertMessageID] leaves the message's own dirty flag, and so
    [IsModified()], as they were, also when it assigns the message-ID;
    [SetMessageID] always sets the flag.  A freshly built message, a
    message just [Reset], and the message any [AcquireMessage] in a
    reachable pool returns therefore have the assigned message-ID and
    still report [IsModified() = false] after [UpsertMessageID]. *)
Theorem UpsertMessageID_keeps_dirty_flag :
  (forall r mid,
      udp_pool.isModified (snd (udp_pool.UpsertMessageID mid r))
        = udp_pool.isModified r
      /\ udp_pool.IsModified (snd (udp_pool.UpsertMessageID mid r))
        = udp_pool.IsModified r)
  /\ (forall r mid,
      udp_pool.isModified (udp_pool.SetMessageID mid r) = true
      /\ udp_pool.IsModified (udp_pool.SetMessageID mid r) = true)
  /\ (forall c mid,
      udp_pool.messageID
        (snd (udp_pool.UpsertMessageID mid (udp_pool.new_Message c)))
        = Some mid
      /\ udp_pool.IsModified
        (snd (udp_pool.UpsertMessageID mid (udp_pool.new_Message c)))
        = false)
  /\ (forall r mid,
      udp_pool.messageID
        (snd (udp_pool.UpsertMessageID mid (udp_pool.Reset r))) = Some mid
      /\ udp_pool.IsModified
        (snd (udp_pool.UpsertMessageID mid (udp_pool.Reset r))) = false)
  /\ (forall st choice c mid, udp_pool.reachable st ->
      exists p m,
        fst (udp_pool.AcquireMessage choice c st) = Ret p
        /\ heap (snd (udp_pool.AcquireMessage choice c st)) !! p = Some m
        /\ udp_pool.messageID (snd (udp_pool.UpsertMessageID mid m))
           = Some mid
        /\ udp_pool.IsModified (snd (udp_pool.UpsertMessageID mid m))
           = false).
Proof.
  assert (Hkeep : forall r mid,
      udp_pool.isModified (snd (udp_pool.UpsertMessageID mid r))
        = udp_pool.isModified r
      /\ udp_pool.IsModified (snd (udp_pool.UpsertMessageID mid r))
        = udp_pool.IsModified r).
  { intros r mid. unfold udp_pool.UpsertMessageID.
    destruct (udp_pool.messageID r); split; reflexivity. }
  split; [exact Hkeep|]. split; [|split; [|split]].
  - intros r mid. split; reflexivity.
  - intros c mid. split; reflexivity.
  - intros r mid. split; reflexivity.
  - intros st choice c mid Hst.
    destruct (udp_acquire_clean st choice c Hst)
      as (p & m & Hp & Hm & Hid & Hmod).
    exists p, m. repeat split; try assumption.
    + unfold udp_pool.UpsertMessageID. now rewrite Hid.
    + rewrite (proj2 (Hkeep m mid)). exact Hmod.
Qed.

Lemma UpsertMessageID_keeps_dirty_flag_witness :
  exists p m,
    fst (udp_pool.AcquireMessage (Some 0%nat) None
           (snd (udp_pool.ReleaseMessage 0%nat
              (snd (udp_pool.AcquireMessage None None pool_init))))) = Ret p
    /\ heap (snd (udp_pool.AcquireMessage (Some 0%nat) None
           (snd (udp_pool.ReleaseMessage 0%nat
              (snd (udp_pool.AcquireMessage None None pool_init))))))
         !! p = Some m
    /\ udp_pool.messageID (snd (udp_pool.UpsertMessageID 9 m)) = Some 9
    /\ udp_pool.IsModified (snd (udp_pool.UpsertMessageID 9 m)) = false.
Proof.
  apply (proj2 (proj2 (proj2 (proj2 UpsertMessageID_keeps_dirty_flag)))).
  apply reach_release, reach_acquire, reach_init.
Defined.

(** ** Sessions *)

(** The hook loop logs one entry per hook, in the order of the list, and
    touches nothing else, when what a waiter sees does not depend on the
    log. *)
Lemma run_hooks_spec (seen : World -> bool) tmp w :
  (forall e w', seen (emit e w') = seen w') ->
  run_hooks seen tmp w
    = {| ctxs := ctxs w;
         log := log w ++ map (fun f => EvHook f (seen w)) tmp |}.
Proof.
  intros Hseen. unfold run_hooks. revert w.
  induction tmp as [|f tmp IH]; intros w; simpl.
  - rewrite app_nil_r. now destruct w.
  - rewrite IH. unfold call_hook. rewrite Hseen. simpl.
    now rewrite <- app_assoc.
Qed.

Lemma hooks_run_app l1 l2 : hooks_run (l1 ++ l2) = hooks_run l1 ++ hooks_run l2.
Proof. apply omap_app. Qed.

Lemma hooks_run_map b tmp :
  hooks_run (map (fun f => EvHook f b) tmp) = tmp.
Proof. induction tmp as [|f tmp IH]; simpl; [reflexivity|]. now rewrite IH. Qed.

(** *** DTLS *)

Lemma dtls_close_spec env (s : dtls.Session) w :
  dtls.done s = false ->
  dtls.close env s w
    = (Ret (if dtls.closeSocket s then conn_close_result env else None),
       dtls.set_done true (dtls.set_onClose [] s),
       {| ctxs := ctxs w;
          log := log w ++ map (fun f => EvHook f false) (dtls.onClose s)
                       ++ socket_events (dtls.closeSocket s) false |}).
Proof.
  intros Hd. unfold dtls.close, dtls.popOnClose.
  rewrite run_hooks_spec by reflexivity.
  unfold dtls.Done, dtls.close_done, socket_events. simpl. rewrite Hd.
  destruct (dtls.closeSocket s); simpl.
  - unfold emit; simpl. now rewrite <- app_assoc.
  - now rewrite app_nil_r.
Qed.

(** A second [close()] finds no hook left and panics on the channel. *)
Lemma dtls_close_twice env (s : dtls.Session) w :
  dtls.done s = true ->
  exists msg s' w', dtls.close env s w = (Panic msg, s', w').
Proof.
  intros Hd. unfold dtls.close, dtls.popOnClose, dtls.close_done. simpl.
  rewrite Hd. destruct (dtls.closeSocket s); simpl; eauto.
Qed.

Lemma dtls_Run_deferred_spec env err (s : dtls.Session) w :
  dtls.done s = false ->
  dtls.Run_deferred env err s w
    = (Ret (match err with
            | Some e => Some e
            | None => if dtls.closeSocket s then conn_close_result env
                      else None
            end),
       dtls.set_done true (dtls.set_onClose [] s),
       {| ctxs := context.cancel (dtls.cancel s) (ctxs w);
          log := log w ++ map (fun f => EvHook f false) (dtls.onClose s)
                       ++ socket_events (dtls.closeSocket s) false |}).
Proof.
  intros Hd. unfold dtls.Run_deferred, dtls.Close.
  rewrite dtls_close_spec by assumption. simpl.
  now destruct err.
Qed.

(** *** UDP *)

Lemma udp_close_spec env (s : udp_session.Session) w :
  udp_session.close env s w
    = (if udp_session.closeSocket s then conn_close_result env else None,
       udp_session.set_onClose [] s,
       {| ctxs := context.cancel (udp_session.doneCancel s) (ctxs w);
          log := log w
                 ++ map (fun f => EvHook f (udp_session.Done s w))
                        (udp_session.onClose s)
                 ++ socket_events (udp_session.closeSocket s)
                                  (udp_session.Done s w) |}).
Proof.
  unfold udp_session.close, udp_session.popOnClose.
  rewrite run_hooks_spec by reflexivity.
  unfold socket_events. simpl.
  destruct (udp_session.closeSocket s); simpl.
  - unfold call_cancel, emit; simpl. now rewrite <- app_assoc.
  - unfold call_cancel; simpl. now rewrite app_nil_r.
Qed.

(** Cancelling a token closes the [Done()] channel of every context whose
    chain holds it. *)
Lemma context_done_cancel t c st :
  t ∈ c -> context.done c (context.cancel t st) = true.
Proof.
  intros Ht. unfold context.done. apply existsb_exists.
  exists t. split.
  - now apply list_elem_of_In.
  - apply bool_decide_eq_true. simpl. set_solver.
Qed.

(** A closed [Done()] channel stays closed. *)
Lemma context_done_mono t c st :
  context.done c st = true -> context.done c (context.cancel t st) = true.
Proof.
  unfold context.done. rewrite !existsb_exists.
  intros (x & Hx & Hin). exists x. split; [assumption|].
  apply bool_decide_eq_true in Hin. apply bool_decide_eq_true.
  simpl. set_solver.
Qed.

Lemma udp_Run_deferred_spec env err (s : udp_session.Session) w :
  udp_session.cancel s ∈ udp_session.doneCtx s ->
  udp_session.Run_deferred env err s w
    = (match err with
       | Some e => Some e
       | None => if udp_session.closeSocket s then conn_close_result env
                 else None
       end,
       udp_session.set_onClose [] s,
       {| ctxs := context.cancel (udp_session.doneCancel s)
                    (context.cancel (udp_session.cancel s) (ctxs w));
          log := log w ++ map (fun f => EvHook f true) (udp_session.onClose s)
                       ++ socket_events (udp_session.closeSocket s) true |}).
Proof.
  intros Hin. unfold udp_session.Run_deferred, udp_session.Close.
  rewrite udp_close_spec.
  assert (Hdone : udp_session.Done s (call_cancel (udp_session.cancel s) w)
                  = true).
  { unfold udp_session.Done, call_cancel. simpl.
    now apply context_done_cancel. }
  rewrite Hdone. simpl. now destruct err.
Qed.

(** *** The read loop *)

Lemma loop_events_S i k :
  loop_events i (S k) = [EvRead i; EvProcess i] ++ loop_events (S i) k.
Proof. reflexivity. Qed.

Lemma loop_events_S_r i k :
  loop_events i (S k) = loop_events i k ++ [EvRead (i + k); EvProcess (i + k)].
Proof.
  unfold loop_events. rewrite seq_S, flat_map_app. reflexivity.
Qed.

Lemma hooks_run_loop_events i k : hooks_run (loop_events i k) = [].
Proof.
  revert i. induction k as [|k IH]; intros i; [reflexivity|].
  rewrite loop_events_S, hooks_run_app, IH. reflexivity.
Qed.

Lemma quiet_S env mms i k :
  quiet env mms i (S k) ->
  (close_requested env i = false
   /\ exists data, read_result env i = ReadOk data
                   /\ process_result env i (take mms data) = None)
  /\ quiet env mms (S i) k.
Proof.
  intros H. split.
  - apply H. lia.
  - intros j Hj. apply H. lia.
Qed.

Lemma world_eta w : {| ctxs := ctxs w; log := log w |} = w.
Proof. now destruct w. Qed.

Ltac loop_quiet_step IH Hq Hlive :=
  let Hreq := fresh "Hreq" in
  let data := fresh "data" in
  let Hread := fresh "Hread" in
  let Hproc := fresh "Hproc" in
  let Hq' := fresh "Hq'" in
  apply quiet_S in Hq as ((Hreq & data & Hread & Hproc) & Hq');
  simpl; rewrite Hreq; unfold ReadWithContext; rewrite Hlive;
  rewrite Hread, Hproc; rewrite IH by assumption;
  simpl; rewrite <- !app_assoc; simpl;
  rewrite Nat.add_succ_r; reflexivity.

Lemma dtls_Run_loop_quiet env (s : dtls.Session) k :
  forall fuel i w,
  quiet env (dtls.maxMessageSize s) i k ->
  context.done (dtls.Context s) (ctxs w) = false ->
  dtls.Run_loop env s (k + fuel) i w
    = dtls.Run_loop env s fuel (i + k)
        {| ctxs := ctxs w; log := log w ++ loop_events i k |}.
Proof.
  induction k as [|k IH]; intros fuel i w Hq Hlive.
  - simpl. rewrite app_nil_r, Nat.add_0_r, world_eta. reflexivity.
  - loop_quiet_step IH Hq Hlive.
Qed.

Lemma udp_Run_loop_quiet env (s : udp_session.Session) k :
  forall fuel i w,
  quiet env (udp_session.maxMessageSize s) i k ->
  context.done (udp_session.Context s) (ctxs w) = false ->
  udp_session.Run_loop env s (k + fuel) i w
    = udp_session.Run_loop env s fuel (i + k)
        {| ctxs := ctxs w; log := log w ++ loop_events i k |}.
Proof.
  induction k as [|k IH]; intros fuel i w Hq Hlive.
  - simpl. rewrite app_nil_r, Nat.add_0_r, world_eta. reflexivity.
  - loop_quiet_step IH Hq Hlive.
Qed.

(** Whenever the loop returns, it has logged whole turns only. *)
Lemma dtls_Run_loop_log env (s : dtls.Session) fuel :
  forall i w e w1,
  dtls.Run_loop env s fuel i w = Some (e, w1) ->
  exists k, log w1 = log w ++ loop_events i k.
Proof.
  induction fuel as [|fuel IH]; intros i w e w1; simpl; [discriminate|].
  set (w0 := if close_requested env i then _ else w).
  assert (Hw0 : log w0 = log w) by (subst w0; now destruct (close_requested env i)).
  destruct (ReadWithContext env i (dtls.Context s) (dtls.maxMessageSize s) w0)
    as [buf|e0].
  - destruct (process_result env i buf) as [e1|].
    + intros [= <- <-]. exists 1%nat. simpl.
      now rewrite Hw0, <- app_assoc.
    + intros H. apply IH in H as (k & Hk). exists (S k).
      rewrite Hk, loop_events_S. simpl. now rewrite Hw0, <- !app_assoc.
  - intros [= <- <-]. exists 0%nat. simpl. now rewrite app_nil_r.
Qed.

Lemma udp_Run_loop_log env (s : udp_session.Session) fuel :
  forall i w e w1,
  udp_session.Run_loop env s fuel i w = Some (e, w1) ->
  exists k, log w1 = log w ++ loop_events i k.
Proof.
  induction fuel as [|fuel IH]; intros i w e w1; simpl; [discriminate|].
  set (w0 := if close_requested env i then _ else w).
  assert (Hw0 : log w0 = log w) by (subst w0; now destruct (close_requested env i)).
  destruct (ReadWithContext env i (udp_session.Context s)
              (udp_session.maxMessageSize s) w0) as [buf|e0].
  - destruct (process_result env i buf) as [e1|].
    + intros [= <- <-]. exists 1%nat. simpl.
      now rewrite Hw0, <- app_assoc.
    + intros H. apply IH in H as (k & Hk). exists (S k).
      rewrite Hk, loop_events_S. simpl. now rewrite Hw0, <- !app_assoc.
  - intros [= <- <-]. exists 0%nat. simpl. now rewrite app_nil_r.
Qed.

(** One turn of the loop that ends it. *)
Lemma dtls_Run_loop_read_error env (s : dtls.Session) fuel i w e :
  close_requested env i = false ->
  context.done (dtls.Context s) (ctxs w) = false ->
  read_result env i = ReadErr e ->
  dtls.Run_loop env s (S fuel) i w
    = Some (ErrWrap "cannot read from connection" e, w).
Proof.
  intros Hreq Hlive Hread. simpl. rewrite Hreq. unfold ReadWithContext.
  now rewrite Hlive, Hread.
Qed.

Lemma dtls_Run_loop_process_error env (s : dtls.Session) fuel i w data e :
  close_requested env i = false ->
  context.done (dtls.Context s) (ctxs w) = false ->
  read_result env i = ReadOk data ->
  process_result env i (take (dtls.maxMessageSize s) data) = Some e ->
  dtls.Run_loop env s (S fuel) i w
    = Some (e, emit (EvProcess i) (emit (EvRead i) w)).
Proof.
  intros Hreq Hlive Hread Hproc. simpl. rewrite Hreq. unfold ReadWithContext.
  now rewrite Hlive, Hread, Hproc.
Qed.

Lemma dtls_Run_loop_cancelled env (s : dtls.Session) fuel i w :
  close_requested env i = true ->
  dtls.cancel s ∈ dtls.Context s ->
  dtls.Run_loop env s (S fuel) i w
    = Some (ErrWrap "cannot read from connection" context.Canceled,
            call_cancel (dtls.cancel s) w).
Proof.
  intros Hreq Hin. simpl. rewrite Hreq. unfold ReadWithContext, dtls.Close.
  simpl. now rewrite context_done_cancel.
Qed.

Lemma udp_Run_loop_read_error env (s : udp_session.Session) fuel i w e :
  close_requested env i = false ->
  context.done (udp_session.Context s) (ctxs w) = false ->
  read_result env i = ReadErr e ->
  udp_session.Run_loop env s (S fuel) i w = Some (e, w).
Proof.
  intros Hreq Hlive Hread. simpl. rewrite Hreq. unfold ReadWithContext.
  now rewrite Hlive, Hread.
Qed.

Lemma udp_Run_loop_process_error env (s : udp_session.Session) fuel i w
    data e :
  close_requested env i = false ->
  context.done (udp_session.Context s) (ctxs w) = false ->
  read_result env i = ReadOk data ->
  process_result env i (take (udp_session.maxMessageSize s) data) = Some e ->
  udp_session.Run_loop env s (S fuel) i w
    = Some (e, emit (EvProcess i) (emit (EvRead i) w)).
Proof.
  intros Hreq Hlive Hread Hproc. simpl. rewrite Hreq. unfold ReadWithContext.
  now rewrite Hlive, Hread, Hproc.
Qed.

Lemma udp_Run_loop_cancelled env (s : udp_session.Session) fuel i w :
  close_requested env i = true ->
  udp_session.cancel s ∈ udp_session.Context s ->
  udp_session.Run_loop env s (S fuel) i w
    = Some (context.Canceled, call_cancel (udp_session.cancel s) w).
Proof.
  intros Hreq Hin. simpl. rewrite Hreq.
  unfold ReadWithContext, udp_session.Close.
  simpl. now rewrite context_done_cancel.
Qed.

(** [Run] of a DTLS session whose first [n] turns pass and whose turn [n]
    fails: what it returns and what it has done by then. *)
Lemma dtls_Run_exit env (s : dtls.Session) w n fuel :
  dtls.done s = false ->
  context.done (dtls.Context s) (ctxs w) = false ->
  quiet env (dtls.maxMessageSize s) 0 n ->
  (n < fuel)%nat ->
  (forall e, close_requested env n = false -> read_result env n = ReadErr e ->
     dtls.Run env fuel s w
       = Some (Ret (Some (ErrWrap "cannot read from connection" e)),
               dtls.set_done true (dtls.set_onClose [] s),
               {| ctxs := context.cancel (dtls.cancel s) (ctxs w);
                  log := (log w ++ loop_events 0 n)
                         ++ teardown_events (dtls.onClose s)
                              (dtls.closeSocket s) false |}))
  /\ (forall data e, close_requested env n = false ->
        read_result env n = ReadOk data ->
        process_result env n (take (dtls.maxMessageSize s) data) = Some e ->
     dtls.Run env fuel s w
       = Some (Ret (Some e),
               dtls.set_done true (dtls.set_onClose [] s),
               {| ctxs := context.cancel (dtls.cancel s) (ctxs w);
                  log := (log w ++ loop_events 0 (S n))
                         ++ teardown_events (dtls.onClose s)
                              (dtls.closeSocket s) false |}))
  /\ (close_requested env n = true -> dtls.cancel s ∈ dtls.Context s ->
     dtls.Run env fuel s w
       = Some (Ret (Some (ErrWrap "cannot read from connection"
                            context.Canceled)),
               dtls.set_done true (dtls.set_onClose [] s),
               {| ctxs := context.cancel (dtls.cancel s)
                            (context.cancel (dtls.cancel s) (ctxs w));
                  log := (log w ++ loop_events 0 n)
                         ++ teardown_events (dtls.onClose s)
                              (dtls.closeSocket s) false |})).
Proof.
  intros Hfresh Hlive Hq Hfuel.
  assert (Hf : fuel = (n + S (fuel - n - 1))%nat) by lia.
  unfold dtls.Run. rewrite Hf.
  rewrite dtls_Run_loop_quiet by assumption.
  change (0 + n)%nat with n.
  split; [|split].
  - intros e Hreq Hread.
    rewrite (dtls_Run_loop_read_error env s _ n _ e) by assumption.
    rewrite dtls_Run_deferred_spec by assumption. reflexivity.
  - intros data e Hreq Hread Hproc.
    rewrite (dtls_Run_loop_process_error env s _ n _ data e) by assumption.
    rewrite dtls_Run_deferred_spec by assumption. simpl.
    unfold teardown_events. rewrite <- !app_assoc.
    rewrite (loop_events_S_r 0 n). rewrite <- !app_assoc. reflexivity.
  - intros Hreq Hin.
    rewrite (dtls_Run_loop_cancelled env s _ n _) by assumption.
    rewrite dtls_Run_deferred_spec by assumption. reflexivity.
Qed.

(** The same for a UDP session: the read error comes back as it is, and
    the close sequence runs when [Done()] has fired already. *)
Lemma udp_Run_exit env (s : udp_session.Session) w n fuel :
  udp_session.cancel s ∈ udp_session.doneCtx s ->
  context.done (udp_session.Context s) (ctxs w) = false ->
  quiet env (udp_session.maxMessageSize s) 0 n ->
  (n < fuel)%nat ->
  (forall e, close_requested env n = false -> read_result env n = ReadErr e ->
     udp_session.Run env fuel s w
       = Some (Some e,
               udp_session.set_onClose [] s,
               {| ctxs := context.cancel (udp_session.doneCancel s)
                            (context.cancel (udp_session.cancel s) (ctxs w));
                  log := (log w ++ loop_events 0 n)
                         ++ teardown_events (udp_session.onClose s)
                              (udp_session.closeSocket s) true |}))
  /\ (forall data e, close_requested env n = false ->
        read_result env n = ReadOk data ->
        process_result env n (take (udp_session.maxMessageSize s) data)
          = Some e ->
     udp_session.Run env fuel s w
       = Some (Some e,
               udp_session.set_onClose [] s,
               {| ctxs := context.cancel (udp_session.doneCancel s)
                            (context.cancel (udp_session.cancel s) (ctxs w));
                  log := (log w ++ loop_events 0 (S n))
                         ++ teardown_events (udp_session.onClose s)
                              (udp_session.closeSocket s) true |}))
  /\ (close_requested env n = true ->
      udp_session.cancel s ∈ udp_session.Context s ->
     udp_session.Run env fuel s w
       = Some (Some context.Canceled,
               udp_session.set_onClose [] s,
               {| ctxs := context.cancel (udp_session.doneCancel s)
                            (context.cancel (udp_session.cancel s)
                               (context.cancel (udp_session.cancel s)
                                  (ctxs w)));
                  log := (log w ++ loop_events 0 n)
                         ++ teardown_events (udp_session.onClose s)
                              (udp_session.closeSocket s) true |})).
Proof.
  intros Hchild Hlive Hq Hfuel.
  assert (Hf : fuel = (n + S (fuel - n - 1))%nat) by lia.
  unfold udp_session.Run. rewrite Hf.
  rewrite udp_Run_loop_quiet by assumption.
  change (0 + n)%nat with n.
  split; [|split].
  - intros e Hreq Hread.
    rewrite (udp_Run_loop_read_error env s _ n _ e) by assumption.
    rewrite udp_Run_deferred_spec by assumption. reflexivity.
  - intros data e Hreq Hread Hproc.
    rewrite (udp_Run_loop_process_error env s _ n _ data e) by assumption.
    rewrite udp_Run_deferred_spec by assumption. simpl.
    unfold teardown_events. rewrite <- !app_assoc.
    rewrite (loop_events_S_r 0 n). rewrite <- !app_assoc. reflexivity.
  - intros Hreq Hin.
    rewrite (udp_Run_loop_cancelled env s _ n _) by assumption.
    rewrite udp_Run_deferred_spec by assumption. reflexivity.
Qed.

Lemma dtls_add_hooks_spec hooks s :
  dtls_add_hooks hooks s = dtls.set_onClose (dtls.onClose s ++ hooks) s.
Proof.
  unfold dtls_add_hooks. revert s.
  induction hooks as [|f hooks IH]; intros s; simpl.
  - rewrite app_nil_r. now destruct s.
  - rewrite IH. unfold dtls.AddOnClose, dtls.set_onClose. simpl.
    now rewrite <- app_assoc.
Qed.

Lemma udp_add_hooks_spec hooks s :
  udp_add_hooks hooks s
    = udp_session.set_onClose (udp_session.onClose s ++ hooks) s.
Proof.
  unfold udp_add_hooks. revert s.
  induction hooks as [|f hooks IH]; intros s; simpl.
  - rewrite app_nil_r. now destruct s.
  - rewrite IH. unfold udp_session.AddOnClose, udp_session.set_onClose.
    simpl. now rewrite <- app_assoc.
Qed.

(** C6, on the UDP session.  Whatever ends the loop of [Run], the close
    sequence of a session made by [NewSession] runs every registered hook
    in the order of registration and then closes the transport if the
    session owns it, but all of this happens when [Done()] has fired
    already: [Run]'s deferred function calls [Close()] first, which cancels
    the context the done context was derived from. *)
Theorem udp_Run_done_fires_before_hooks env fuel c conn raddr mms cs dctx w0
    hooks e w1 :
  udp_session.Run_loop env
      (udp_add_hooks hooks
         (fst (udp_session.NewSession c conn raddr mms cs dctx w0)))
      fuel 0
      (snd (udp_session.NewSession c conn raddr mms cs dctx w0))
    = Some (e, w1) ->
  exists s' w',
    udp_session.Run env fuel
      (udp_add_hooks hooks
         (fst (udp_session.NewSession c conn raddr mms cs dctx w0)))
      (snd (udp_session.NewSession c conn raddr mms cs dctx w0))
    = Some (Some e, s', w')
    /\ log w' = log w1 ++ map (fun f => EvHook f true) hooks
                       ++ socket_events cs true
    /\ hooks_run (log w1) = hooks_run (log w0)
    /\ udp_session.Done s' w' = true.
Proof.
  intros Hloop. unfold udp_session.Run. rewrite Hloop.
  rewrite udp_Run_deferred_spec.
  - eexists _, _. split; [reflexivity|]. split; [|split].
    + simpl. rewrite udp_add_hooks_spec. reflexivity.
    + apply udp_Run_loop_log in Hloop as (k & ->).
      rewrite hooks_run_app, hooks_run_loop_events. apply app_nil_r.
    + unfold udp_session.Done. simpl.
      apply context_done_cancel. rewrite udp_add_hooks_spec. simpl.
      apply elem_of_cons. now left.
  - rewrite udp_add_hooks_spec. simpl.
    apply elem_of_cons. right. apply elem_of_cons. now left.
Qed.

Lemma udp_Run_done_fires_before_hooks_witness :
  exists s' w',
    udp_session.Run env_read_fails 1 udp_owner udp_world
      = Some (Some (ErrNew "EOF"), s', w')
    /\ log w' = [] ++ [EvHook 1%nat true; EvHook 2%nat true]
                   ++ [EvConnClose true]
    /\ hooks_run [] = hooks_run []
    /\ udp_session.Done s' w' = true.
Proof.
  apply (udp_Run_done_fires_before_hooks env_read_fails 1
           context.Background 0%nat 0%nat 1500%nat true context.Background
           world_init [1; 2]%nat (ErrNew "EOF") udp_world).
  reflexivity.
Defined.

(** X1.  On the DTLS session the same run signals [Done()] last: every hook
    and the closing of the transport are logged with [Done()] not yet
    fired, and the channel is closed when [Run] returns. *)
Theorem dtls_Run_done_fires_after_hooks env fuel c conn mms cs w0 hooks e w1 :
  dtls.Run_loop env
      (dtls_add_hooks hooks (fst (dtls.NewSession c conn mms cs w0)))
      fuel 0 (snd (dtls.NewSession c conn mms cs w0))
    = Some (e, w1) ->
  exists s' w',
    dtls.Run env fuel
      (dtls_add_hooks hooks (fst (dtls.NewSession c conn mms cs w0)))
      (snd (dtls.NewSession c conn mms cs w0))
    = Some (Ret (Some e), s', w')
    /\ log w' = log w1 ++ map (fun f => EvHook f false) hooks
                       ++ socket_events cs false
    /\ hooks_run (log w1) = hooks_run (log w0)
    /\ dtls.Done s' w' = true
    /\ dtls.onClose s' = [].
Proof.
  intros Hloop. unfold dtls.Run. rewrite Hloop.
  rewrite dtls_Run_deferred_spec.
  - eexists _, _. split; [reflexivity|]. split; [|split; [|split; reflexivity]].
    + simpl. rewrite dtls_add_hooks_spec. reflexivity.
    + apply dtls_Run_loop_log in Hloop as (k & ->).
      rewrite hooks_run_app, hooks_run_loop_events. apply app_nil_r.
  - rewrite dtls_add_hooks_spec. reflexivity.
Qed.

Lemma dtls_Run_done_fires_after_hooks_witness :
  exists s' w',
    dtls.Run env_read_fails 1 dtls_owner dtls_world
      = Some (Ret (Some (ErrWrap "cannot read from connection"
                           (ErrNew "EOF"))), s', w')
    /\ log w' = [] ++ [EvHook 1%nat false; EvHook 2%nat false]
                   ++ [EvConnClose false]
    /\ hooks_run [] = hooks_run []
    /\ dtls.Done s' w' = true
    /\ dtls.onClose s' = [].
Proof.
  apply (dtls_Run_done_fires_after_hooks env_read_fails 1
           context.Background 0%nat 1500%nat true world_init [1; 2]%nat
           (ErrWrap "cannot read from connection" (ErrNew "EOF")) dtls_world).
  reflexivity.
Defined.

(** C7, as the specification states it, fails on the DTLS session: the
    transport's read fails with "EOF" and [Run] returns another error,
    "cannot read from connection: EOF", which wraps it. *)
Lemma dtls_Run_wraps_read_error :
  read_result env_read_fails 0 = ReadErr (ErrNew "EOF")
  /\ (exists s' w',
        dtls.Run env_read_fails 1 dtls_owner dtls_world
          = Some (Ret (Some (ErrWrap "cannot read from connection"
                               (ErrNew "EOF"))), s', w'))
  /\ ErrWrap "cannot read from connection" (ErrNew "EOF") <> ErrNew "EOF".
Proof.
  split; [reflexivity|]. split; [|discriminate].
  eexists _, _. reflexivity.
Qed.

(** C7, amended.  When the first [n] turns of the loop pass and turn [n]
    fails, [Run] (given more than [n] turns) returns after the close
    sequence has run, and it returns: on the DTLS session the read error
    wrapped as "cannot read from connection: <error>", on the UDP session
    the read error itself, on both the processor's error itself, and the
    context's error in the place of the read error when [Close()] was
    called meanwhile.  The error of the close sequence (the transport's
    [Close]) is what the deferred function returns only when [Run]'s
    result holds no error at that point, which no exit of the loop
    produces. *)
Theorem Run_returns_loop_error env n fuel :
  (n < fuel)%nat ->
  (forall (s : dtls.Session) w,
     dtls.done s = false ->
     context.done (dtls.Context s) (ctxs w) = false ->
     quiet env (dtls.maxMessageSize s) 0 n ->
     (forall e, close_requested env n = false ->
        read_result env n = ReadErr e ->
        exists s' w',
          dtls.Run env fuel s w
            = Some (Ret (Some (ErrWrap "cannot read from connection" e)),
                    s', w')
          /\ log w' = (log w ++ loop_events 0 n)
                      ++ teardown_events (dtls.onClose s)
                           (dtls.closeSocket s) false)
     /\ (forall data e, close_requested env n = false ->
        read_result env n = ReadOk data ->
        process_result env n (take (dtls.maxMessageSize s) data) = Some e ->
        exists s' w',
          dtls.Run env fuel s w = Some (Ret (Some e), s', w')
          /\ log w' = (log w ++ loop_events 0 (S n))
                      ++ teardown_events (dtls.onClose s)
                           (dtls.closeSocket s) false)
     /\ (close_requested env n = true -> dtls.cancel s ∈ dtls.Context s ->
        exists s' w',
          dtls.Run env fuel s w
            = Some (Ret (Some (ErrWrap "cannot read from connection"
                                 context.Canceled)), s', w')
          /\ log w' = (log w ++ loop_events 0 n)
                      ++ teardown_events (dtls.onClose s)
                           (dtls.closeSocket s) false))
  /\ (forall (s : udp_session.Session) w,
     udp_session.cancel s ∈ udp_session.doneCtx s ->
     context.done (udp_session.Context s) (ctxs w) = false ->
     quiet env (udp_session.maxMessageSize s) 0 n ->
     (forall e, close_requested env n = false ->
        read_result env n = ReadErr e ->
        exists s' w',
          udp_session.Run env fuel s w = Some (Some e, s', w')
          /\ log w' = (log w ++ loop_events 0 n)
                      ++ teardown_events (udp_session.onClose s)
                           (udp_session.closeSocket s) true)
     /\ (forall data e, close_requested env n = false ->
        read_result env n = ReadOk data ->
        process_result env n (take (udp_session.maxMessageSize s) data)
          = Some e ->
        exists s' w',
          udp_session.Run env fuel s w = Some (Some e, s', w')
          /\ log w' = (log w ++ loop_events 0 (S n))
                      ++ teardown_events (udp_session.onClose s)
                           (udp_session.closeSocket s) true)
     /\ (close_requested env n = true ->
         udp_session.cancel s ∈ udp_session.Context s ->
        exists s' w',
          udp_session.Run env fuel s w = Some (Some context.Canceled, s', w')
          /\ log w' = (log w ++ loop_events 0 n)
                      ++ teardown_events (udp_session.onClose s)
                           (udp_session.closeSocket s) true))
  /\ (forall err (s : dtls.Session) w, dtls.done s = false ->
        fst (fst (dtls.Run_deferred env err s w))
          = Ret (match err with
                 | Some e => Some e
                 | None => if dtls.closeSocket s then conn_close_result env
                           else None
                 end))
  /\ (forall err (s : udp_session.Session) w,
        fst (fst (udp_session.Run_deferred env err s w))
          = match err with
            | Some e => Some e
            | None => if udp_session.closeSocket s then conn_close_result env
                      else None
            end).
Proof.
  intros Hfuel. split; [|split; [|split]].
  - intros s w Hfresh Hlive Hq.
    destruct (dtls_Run_exit env s w n fuel Hfresh Hlive Hq Hfuel)
      as (Hread & Hproc & Hcancel).
    split; [|split].
    + intros e Hreq He. rewrite (Hread e Hreq He). eauto.
    + intros data e Hreq Hd He. rewrite (Hproc data e Hreq Hd He). eauto.
    + intros Hreq Hin. rewrite (Hcancel Hreq Hin). eauto.
  - intros s w Hchild Hlive Hq.
    destruct (udp_Run_exit env s w n fuel Hchild Hlive Hq Hfuel)
      as (Hread & Hproc & Hcancel).
    split; [|split].
    + intros e Hreq He. rewrite (Hread e Hreq He). eauto.
    + intros data e Hreq Hd He. rewrite (Hproc data e Hreq Hd He). eauto.
    + intros Hreq Hin. rewrite (Hcancel Hreq Hin). eauto.
  - intros err s w Hfresh. now rewrite dtls_Run_deferred_spec.
  - intros err s w. unfold udp_session.Run_deferred, udp_session.Close.
    rewrite udp_close_spec. simpl. now destruct err.
Qed.

Lemma Run_returns_loop_error_witness :
  (exists s' w',
     dtls.Run env_read_fails 1 dtls_owner dtls_world
       = Some (Ret (Some (ErrWrap "cannot read from connection"
                            (ErrNew "EOF"))), s', w')
     /\ log w' = (log dtls_world ++ loop_events 0 0)
                 ++ teardown_events (dtls.onClose dtls_owner)
                      (dtls.closeSocket dtls_owner) false)
  /\ (exists s' w',
     udp_session.Run env_process_fails 1 udp_owner udp_world
       = Some (Some (ErrNew "cannot decode"), s', w')
     /\ log w' = (log udp_world ++ loop_events 0 1)
                 ++ teardown_events (udp_session.onClose udp_owner)
                      (udp_session.closeSocket udp_owner) true).
Proof.
  assert (Hfuel : (0 < 1)%nat) by lia.
  assert (Hq : forall env mms, quiet env mms 0 0) by (intros env mms j Hj; lia).
  split.
  - apply (proj1 (proj1 (Run_returns_loop_error env_read_fails 0 1 Hfuel)
                    dtls_owner dtls_world eq_refl eq_refl (Hq _ _))
             (ErrNew "EOF") eq_refl eq_refl).
  - apply (proj1 (proj2
             (proj1 (proj2 (Run_returns_loop_error env_process_fails 0 1 Hfuel))
                udp_owner udp_world
                ltac:(apply elem_of_cons; right; apply elem_of_cons; now left)
                eq_refl (Hq _ _)))
             [Byte.x40; Byte.x01] (ErrNew "cannot decode")
             eq_refl eq_refl eq_refl).
Defined.

(** *** Goroutines interleaved *)

Lemma last_cons_default {A} (a d : A) (l : list A) :
  List.last (a :: l) d = List.last l a.
Proof.
  revert a d. induction l as [|b l IH]; intros a d; [reflexivity|].
  change (List.last (a :: b :: l) d) with (List.last (b :: l) d).
  now rewrite (IH b d), (IH b a).
Qed.

Section InterleavingFacts.

Variable St : Type.
Variable run_step : St -> option St.
Variable closer_step : St -> St.
Variable observe : St -> bool.
Variable Inv : St -> Prop.

Hypothesis Inv_run : forall x x', Inv x -> run_step x = Some x' -> Inv x'.
Hypothesis Inv_closer : forall x, Inv x -> Inv (closer_step x).
Hypothesis mono_run :
  forall x x', Inv x -> run_step x = Some x' ->
               observe x = true -> observe x' = true.
Hypothesis mono_closer :
  forall x, Inv x -> observe x = true -> observe (closer_step x) = true.

Lemma sched_step_inv t c c' :
  Inv (conf_st c) -> sched_step run_step closer_step t c = Some c' ->
  Inv (conf_st c')
  /\ (observe (conf_st c) = true -> observe (conf_st c') = true).
Proof.
  intros HI. destruct t; simpl.
  - destruct (run_step (conf_st c)) as [x'|] eqn:Hx; [|discriminate].
    intros [= <-]. simpl. split; eauto.
  - destruct (closers c) as [|k]; [discriminate|].
    intros [= <-]. simpl. split; eauto.
Qed.

Lemma exec_cons t sched c l :
  exec run_step closer_step (t :: sched) c = Some l ->
  exists c' l', sched_step run_step closer_step t c = Some c'
                /\ exec run_step closer_step sched c' = Some l'
                /\ l = c' :: l'.
Proof.
  simpl.
  destruct (sched_step run_step closer_step t c) as [c'|]; [|discriminate].
  destruct (exec run_step closer_step sched c') as [l'|] eqn:Hex;
    [|discriminate].
  intros [= <-]. exists c', l'. auto.
Qed.

(** The invariant holds in the configuration a schedule ends in, and a
    signal that was set at the start is set at the end. *)
Lemma exec_inv sched : forall c l,
  Inv (conf_st c) -> exec run_step closer_step sched c = Some l ->
  Inv (conf_st (List.last l c))
  /\ (observe (conf_st c) = true ->
      observe (conf_st (List.last l c)) = true).
Proof.
  induction sched as [|t sched IH]; intros c l HI Hex.
  - injection Hex as <-. simpl. auto.
  - apply exec_cons in Hex as (c' & l' & Hstep & Hex & ->).
    apply sched_step_inv in Hstep as (HI' & Hmono); [|assumption].
    rewrite last_cons_default.
    destruct (IH c' l' HI' Hex) as (Hlast & Hobs). auto.
Qed.

(** A signal that never goes back to unset rises once if it ends set and
    started unset, and never otherwise. *)
Lemma exec_rising sched : forall c l,
  Inv (conf_st c) -> exec run_step closer_step sched c = Some l ->
  rising (observe (conf_st c)) (map (fun c' => observe (conf_st c')) l)
    = if negb (observe (conf_st c)) && observe (conf_st (List.last l c))
      then 1%nat else 0%nat.
Proof.
  induction sched as [|t sched IH]; intros c l HI Hex.
  - injection Hex as <-. simpl. now destruct (observe (conf_st c)).
  - apply exec_cons in Hex as (c' & l' & Hstep & Hex & ->).
    apply sched_step_inv in Hstep as (HI' & Hmono); [|assumption].
    rewrite last_cons_default. cbn [map rising].
    rewrite (IH c' l' HI' Hex).
    destruct (exec_inv sched c' l' HI' Hex) as (_ & Hend).
    destruct (observe (conf_st c)) eqn:Hc.
    + rewrite (Hmono eq_refl). reflexivity.
    + destruct (observe (conf_st c')) eqn:Hc'.
      * rewrite (Hend eq_refl). reflexivity.
      * reflexivity.
Qed.

End InterleavingFacts.

Lemma hooks_run_emit_hook w f b :
  hooks_run (log (call_hook b w f)) = hooks_run (log w) ++ [f].
Proof. unfold call_hook, emit. simpl. now rewrite hooks_run_app. Qed.

Lemma dtls_inv_run env hooks base x x' :
  dtls_teardown_inv hooks base x -> dtls.teardown_step env x = Some x' ->
  dtls_teardown_inv hooks base x'.
Proof.
  destruct x as [[pc s] w]. unfold dtls_teardown_inv, dtls.teardown_step.
  destruct pc as [| |tmp| | | |].
  - intros H [= <-]. exact H.
  - intros (Hh & Hb & Hd) [= <-]. simpl. rewrite Hh, Hb. auto.
  - destruct tmp as [|f tmp].
    + intros (Hh & Hb & Hd) [= <-]. rewrite app_nil_r in Hb. auto.
    + intros (Hh & Hb & Hd) [= <-]. rewrite hooks_run_emit_hook.
      rewrite <- app_assoc. auto.
  - intros (Hh & Hb & Hd). destruct (dtls.closeSocket s); intros [= <-].
    + simpl. rewrite hooks_run_app. simpl. rewrite app_nil_r. auto.
    + auto.
  - intros (Hh & Hb & Hd). unfold dtls.close_done. rewrite Hd.
    intros [= <-]. simpl. auto.
  - discriminate.
  - discriminate.
Qed.

Lemma dtls_inv_closer hooks base x :
  dtls_teardown_inv hooks base x ->
  dtls_teardown_inv hooks base (dtls.closer_step x).
Proof. destruct x as [[pc s] w]. destruct pc; simpl; auto. Qed.

Lemma dtls_mono_run env x x' :
  dtls.teardown_step env x = Some x' ->
  dtls.observe_Done x = true -> dtls.observe_Done x' = true.
Proof.
  destruct x as [[pc s] w]. unfold dtls.teardown_step, dtls.observe_Done,
    dtls.Done.
  destruct pc as [| |tmp| | | |]; try discriminate.
  - intros [= <-]. auto.
  - intros [= <-]. auto.
  - destruct tmp; intros [= <-]; auto.
  - destruct (dtls.closeSocket s); intros [= <-]; auto.
  - unfold dtls.close_done. intros H Hd. rewrite Hd in H.
    injection H as <-. exact Hd.
Qed.

Lemma dtls_mono_closer x :
  dtls.observe_Done x = true -> dtls.observe_Done (dtls.closer_step x) = true.
Proof. destruct x as [[pc s] w]. auto. Qed.

Lemma udp_inv_run env hooks base x x' :
  udp_teardown_inv hooks base x -> udp_session.teardown_step env x = Some x' ->
  udp_teardown_inv hooks base x'.
Proof.
  destruct x as [[pc s] w].
  unfold udp_teardown_inv, udp_session.teardown_step.
  intros (Hchild & H). destruct pc as [| |tmp| | | |].
  - intros [= <-]. auto.
  - destruct H as (Hh & Hb). intros [= <-]. simpl. rewrite Hh, Hb. auto.
  - destruct H as (Hh & Hb). destruct tmp as [|f tmp]; intros [= <-].
    + rewrite app_nil_r in Hb. auto.
    + rewrite hooks_run_emit_hook, <- app_assoc. auto.
  - destruct H as (Hh & Hb).
    destruct (udp_session.closeSocket s); intros [= <-].
    + simpl. rewrite hooks_run_app. simpl. rewrite app_nil_r. auto.
    + auto.
  - destruct H as (Hh & Hb). intros [= <-]. repeat split; auto.
    unfold udp_session.Done, call_cancel. simpl.
    now apply context_done_cancel.
  - discriminate.
  - discriminate.
Qed.

Lemma udp_inv_closer hooks base x :
  udp_teardown_inv hooks base x ->
  udp_teardown_inv hooks base (udp_session.closer_step x).
Proof.
  destruct x as [[pc s] w]. unfold udp_teardown_inv. simpl.
  intros (Hchild & H). split; [assumption|].
  destruct pc; auto.
  destruct H as (Hh & Hb & Hd). repeat split; auto.
  unfold udp_session.Done, call_cancel in *. simpl.
  now apply context_done_mono.
Qed.

Lemma udp_mono_run env x x' :
  udp_session.teardown_step env x = Some x' ->
  udp_session.observe_Done x = true -> udp_session.observe_Done x' = true.
Proof.
  destruct x as [[pc s] w].
  unfold udp_session.teardown_step, udp_session.observe_Done.
  destruct pc as [| |tmp| | | |]; try discriminate.
  - intros [= <-]. unfold udp_session.Done, call_cancel. simpl.
    apply context_done_mono.
  - intros [= <-]. auto.
  - destruct tmp; intros [= <-]; auto.
  - destruct (udp_session.closeSocket s); intros [= <-]; auto.
  - intros [= <-]. unfold udp_session.Done, call_cancel. simpl.
    apply context_done_mono.
Qed.

Lemma udp_mono_closer x :
  udp_session.observe_Done x = true ->
  udp_session.observe_Done (udp_session.closer_step x) = true.
Proof.
  destruct x as [[pc s] w]. simpl.
  unfold udp_session.Done, call_cancel. simpl. apply context_done_mono.
Qed.




(* ===================================================================== *)
(** * More properties of the packages                                     *)
(* ===================================================================== *)

(** ** Slices *)

Section SliceFacts.

Variable growslice : nat -> nat -> nat.
Variable stale : slice -> list Byte.byte.
Hypothesis growslice_ge : forall c n, (n <= growslice c n)%nat.

Lemma len_append_zeros s k :
  len (append_zeros growslice s k) = (len s + k)%nat.
Proof.
  unfold len, append_zeros. simpl. now rewrite length_app, repeat_length.
Qed.

Lemma cap_append_zeros s k :
  (len s <= cap s)%nat ->
  (len s + k <= cap (append_zeros growslice s k))%nat
  /\ (cap s <= cap (append_zeros growslice s k))%nat
  /\ ((len s + k <= cap s)%nat -> cap (append_zeros growslice s k) = cap s).
Proof.
  intros Hwf. unfold append_zeros. simpl.
  destruct (len s + k <=? cap s)%nat eqn:Hfit.
  - apply Nat.leb_le in Hfit. lia.
  - apply Nat.leb_gt in Hfit.
    pose proof (growslice_ge (cap s) (len s + k)). lia.
Qed.

Lemma len_copy dst src : len (copy dst src) = len dst.
Proof.
  unfold copy, len. simpl.
  rewrite length_app, length_take, length_drop. lia.
Qed.

(** Copying at least as many bytes as the slice is long and cutting it to
    a prefix of them leaves that prefix, whatever lay in the array. *)
Lemma reslice_copy dst src n :
  (n <= length src)%nat -> (n <= len dst)%nat -> (len dst <= cap dst)%nat ->
  reslice stale (copy dst src) (Z.of_nat n)
    = Ret {| elems := take n src; cap := cap dst |}.
Proof.
  intros Hsrc Hdst Hwf. unfold reslice, copy, len in *. simpl.
  assert (Hle : (0 <=? Z.of_nat n) && (Z.of_nat n <=? Z.of_nat (cap dst))
                = true).
  { apply andb_true_iff. split; [apply Z.leb_le|apply Z.leb_le]; lia. }
  rewrite Hle, Nat2Z.id. f_equal. f_equal.
  rewrite <- !app_assoc.
  rewrite take_app_le by (rewrite length_take; lia).
  rewrite take_take. f_equal. lia.
Qed.

End SliceFacts.

(** ** Unmarshal *)

Section UnmarshalFacts.

Variable growslice : nat -> nat -> nat.
Variable stale : slice -> list Byte.byte.
Hypothesis growslice_ge : forall c n, (n <= growslice c n)%nat.

(** The first three statements of [Unmarshal], on any buffer: the buffer
    ends up holding the datagram and nothing else. *)
Lemma unmarshal_buffer (s : slice) (data : list Byte.byte) :
  (len s <= cap s)%nat ->
  exists c,
    reslice stale
      (copy (if (len s <? length data)%nat
             then append_zeros growslice s (length data - len s)
             else s) data)
      (Z.of_nat (length data))
    = Ret {| elems := data; cap := c |}
    /\ (cap s <= c)%nat
    /\ (length data <= c)%nat
    /\ ((length data <= cap s)%nat -> c = cap s).
Proof.
  intros Hwf.
  destruct (len s <? length data)%nat eqn:Hshort.
  - apply Nat.ltb_lt in Hshort.
    destruct (cap_append_zeros growslice growslice_ge s
                (length data - len s) Hwf) as (Hfit & Hmono & Hsame).
    exists (cap (append_zeros growslice s (length data - len s))).
    split; [|split; [|split]].
    + rewrite (reslice_copy stale _ data (length data)).
      * now rewrite firstn_all.
      * lia.
      * rewrite len_append_zeros. lia.
      * rewrite len_append_zeros. lia.
    + assumption.
    + lia.
    + intros Hle. apply Hsame. lia.
  - apply Nat.ltb_ge in Hshort. exists (cap s).
    split; [|split; [|split]]; try lia.
    rewrite (reslice_copy stale s data (length data)) by lia.
    now rewrite firstn_all.
Qed.

End UnmarshalFacts.

(** X2.  [Unmarshal] of either framing never panics, whatever the codec
    does: it returns what the codec returns for the datagram, leaves
    exactly the datagram in [rawData], never lowers the capacity of that
    buffer and keeps it when the datagram fits, and touches neither the
    other buffer, nor the context, nor the message's own dirty flag.  When
    the codec reports an error, nothing but [rawData] has changed. *)
Theorem Unmarshal_fills_rawData growslice stale :
  (forall c n, (n <= growslice c n)%nat) ->
  (forall codec data r,
     (len (udp_pool.rawData r) <= cap (udp_pool.rawData r))%nat ->
     exists r',
       udp_message.Unmarshal growslice stale codec data r
         = (Ret (fst (codec data)), r')
       /\ elems (udp_pool.rawData r') = data
       /\ (cap (udp_pool.rawData r) <= cap (udp_pool.rawData r'))%nat
       /\ ((length data <= cap (udp_pool.rawData r))%nat ->
             cap (udp_pool.rawData r') = cap (udp_pool.rawData r))
       /\ udp_pool.rawMarshalData r' = udp_pool.rawMarshalData r
       /\ udp_pool.ctx r' = udp_pool.ctx r
       /\ udp_pool.isModified r' = udp_pool.isModified r
       /\ (forall e, snd (fst (codec data)) = Some e ->
             r' = udp_message.set_rawData (udp_pool.rawData r') r))
  /\ (forall codec data r,
     (len (tcp_pool.rawData r) <= cap (tcp_pool.rawData r))%nat ->
     exists r',
       tcp_message.Unmarshal growslice stale codec data r
         = (Ret (fst (codec data)), r')
       /\ elems (tcp_pool.rawData r') = data
       /\ (cap (tcp_pool.rawData r) <= cap (tcp_pool.rawData r'))%nat
       /\ ((length data <= cap (tcp_pool.rawData r))%nat ->
             cap (tcp_pool.rawData r') = cap (tcp_pool.rawData r))
       /\ tcp_pool.rawMarshalData r' = tcp_pool.rawMarshalData r
       /\ tcp_pool.ctx r' = tcp_pool.ctx r
       /\ tcp_pool.isModified r' = tcp_pool.isModified r
       /\ (forall e, snd (fst (codec data)) = Some e ->
             r' = tcp_message.set_rawData (tcp_pool.rawData r') r)).
Proof.
  intros Hg. split.
  - intros codec data r Hwf. unfold udp_message.Unmarshal.
    destruct (unmarshal_buffer growslice stale Hg (udp_pool.rawData r) data Hwf)
      as (c & -> & Hmono & Hfit & Hsame).
    simpl. destruct (codec data) as [[n [e|]] m]; simpl.
    + eexists. split; [reflexivity|]. simpl.
      repeat (split; [auto; fail|]). intros e' _. reflexivity.
    + destruct (0 <? length (udp_message.Payload m))%nat;
        (eexists; split; [reflexivity|]; simpl;
         repeat (split; [auto; fail|]); intros e' He; discriminate).
  - intros codec data r Hwf. unfold tcp_message.Unmarshal.
    destruct (unmarshal_buffer growslice stale Hg (tcp_pool.rawData r) data Hwf)
      as (c & -> & Hmono & Hfit & Hsame).
    simpl. destruct (codec data) as [[n [e|]] m]; simpl.
    + eexists. split; [reflexivity|]. simpl.
      repeat (split; [auto; fail|]). intros e' _. reflexivity.
    + destruct (0 <? length (tcp_message.Payload m))%nat;
        (eexists; split; [reflexivity|]; simpl;
         repeat (split; [auto; fail|]); intros e' He; discriminate).
Qed.

Lemma sample_growslice_ge c n : (n <= sample_growslice c n)%nat.
Proof. unfold sample_growslice. lia. Qed.

Lemma new_Message_buffers c :
  (len (udp_pool.rawData (udp_pool.new_Message c))
     <= cap (udp_pool.rawData (udp_pool.new_Message c)))%nat
  /\ (len (udp_pool.rawMarshalData (udp_pool.new_Message c))
     <= cap (udp_pool.rawMarshalData (udp_pool.new_Message c)))%nat.
Proof.
  split; apply Nat.eq_le_incl; reflexivity.
Qed.

Lemma Unmarshal_fills_rawData_witness :
  exists r',
    udp_message.Unmarshal sample_growslice sample_stale sample_decode
      [Byte.x60; Byte.x45] (udp_pool.new_Message None)
      = (Ret (2, None), r')
    /\ elems (udp_pool.rawData r') = [Byte.x60; Byte.x45]
    /\ cap (udp_pool.rawData r') = 256%nat.
Proof.
  destruct (proj1 (Unmarshal_fills_rawData sample_growslice sample_stale
                     sample_growslice_ge)
              sample_decode [Byte.x60; Byte.x45] (udp_pool.new_Message None)
              (proj1 (new_Message_buffers None)))
    as (r' & Hres & Hdata & _ & Hsame & _).
  exists r'. split; [exact Hres|]. split; [exact Hdata|].
  apply Hsame. simpl. lia.
Defined.

(** X3.  A successful [Unmarshal] of the datagram framing stores the
    decoded message-ID and type, so that [MessageID()] returns the decoded
    ID without panic, and hands code, token and options to the container;
    the body is set when the payload is not empty and is left as it was
    (not cleared) when the payload is empty.  A failed [Unmarshal] leaves
    the message-ID as it was. *)
Theorem Unmarshal_sets_messageID growslice stale codec data r :
  (forall c n, (n <= growslice c n)%nat) ->
  (len (udp_pool.rawData r) <= cap (udp_pool.rawData r))%nat ->
  (snd (fst (codec data)) = None ->
     let m := snd (codec data) in
     let r' := snd (udp_message.Unmarshal growslice stale codec data r) in
     udp_pool.MessageID r' = Ret (udp_message.MessageID m)
     /\ udp_pool.Type_ r' = udp_message.Type_ m
     /\ udp_pool.Code r' = udp_message.Code m
     /\ udp_pool.Token r' = udp_message.Token m
     /\ udp_pool.Options r' = udp_message.Options m
     /\ (udp_message.Payload m <> [] ->
           udp_pool.Body r' = Some (udp_message.Payload m))
     /\ (udp_message.Payload m = [] -> udp_pool.Body r' = udp_pool.Body r))
  /\ (forall e, snd (fst (codec data)) = Some e ->
        udp_pool.MessageID
          (snd (udp_message.Unmarshal growslice stale codec data r))
        = udp_pool.MessageID r).
Proof.
  intros Hg Hwf. unfold udp_message.Unmarshal.
  destruct (unmarshal_buffer growslice stale Hg (udp_pool.rawData r) data Hwf)
    as (c & -> & _).
  simpl. destruct (codec data) as [[n [e|]] m]; simpl.
  - split; [discriminate|]. intros e' _. reflexivity.
  - split; [|discriminate]. intros _.
    destruct (udp_message.Payload m) as [|b rest] eqn:Hp; simpl;
      repeat split; try reflexivity; intros H;
      solve [discriminate | congruence].
Qed.

Lemma Unmarshal_sets_messageID_witness :
  udp_pool.MessageID
    (snd (udp_message.Unmarshal sample_growslice sample_stale sample_decode
            [Byte.x60; Byte.x45] (udp_pool.new_Message None))) = Ret 7
  /\ udp_pool.Body
    (snd (udp_message.Unmarshal sample_growslice sample_stale sample_decode
            [Byte.x60] used_message)) = udp_pool.Body used_message
  /\ udp_pool.MessageID
    (snd (udp_message.Unmarshal sample_growslice sample_stale sample_decode
            [] (udp_pool.new_Message None)))
     = udp_pool.MessageID (udp_pool.new_Message None).
Proof.
  split; [|split].
  - apply (proj1 (Unmarshal_sets_messageID sample_growslice sample_stale
                    sample_decode [Byte.x60; Byte.x45]
                    (udp_pool.new_Message None) sample_growslice_ge
                    (proj1 (new_Message_buffers None))) eq_refl).
  - apply (proj1 (Unmarshal_sets_messageID sample_growslice sample_stale
                    sample_decode [Byte.x60] used_message
                    sample_growslice_ge
                    ltac:(apply Nat.leb_le; vm_compute; reflexivity))
             eq_refl).
    reflexivity.
  - apply (proj2 (Unmarshal_sets_messageID sample_growslice sample_stale
                    sample_decode [] (udp_pool.new_Message None)
                    sample_growslice_ge
                    (proj1 (new_Message_buffers None)))
             (ErrNew "message is too short") eq_refl).
Defined.

(** What [Unmarshal] leaves in [rawData], for either framing. *)
Lemma udp_Unmarshal_rawData growslice stale codec data r :
  (forall c n, (n <= growslice c n)%nat) ->
  (len (udp_pool.rawData r) <= cap (udp_pool.rawData r))%nat ->
  exists c,
    udp_pool.rawData (snd (udp_message.Unmarshal growslice stale codec data r))
      = {| elems := data; cap := c |}
    /\ (cap (udp_pool.rawData r) <= c)%nat
    /\ (length data <= c)%nat
    /\ ((length data <= cap (udp_pool.rawData r))%nat ->
          c = cap (udp_pool.rawData r)).
Proof.
  intros Hg Hwf. unfold udp_message.Unmarshal.
  destruct (unmarshal_buffer growslice stale Hg (udp_pool.rawData r) data Hwf)
    as (c & -> & Hmono & Hfit & Hsame).
  exists c. split; [|auto].
  simpl. destruct (codec data) as [[n [e|]] m]; simpl; [reflexivity|].
  now destruct (0 <? length (udp_message.Payload m))%nat.
Qed.

Lemma tcp_Unmarshal_rawData growslice stale codec data r :
  (forall c n, (n <= growslice c n)%nat) ->
  (len (tcp_pool.rawData r) <= cap (tcp_pool.rawData r))%nat ->
  exists c,
    tcp_pool.rawData (snd (tcp_message.Unmarshal growslice stale codec data r))
      = {| elems := data; cap := c |}
    /\ (cap (tcp_pool.rawData r) <= c)%nat
    /\ (length data <= c)%nat
    /\ ((length data <= cap (tcp_pool.rawData r))%nat ->
          c = cap (tcp_pool.rawData r)).
Proof.
  intros Hg Hwf. unfold tcp_message.Unmarshal.
  destruct (unmarshal_buffer growslice stale Hg (tcp_pool.rawData r) data Hwf)
    as (c & -> & Hmono & Hfit & Hsame).
  exists c. split; [|auto].
  simpl. destruct (codec data) as [[n [e|]] m]; simpl; [reflexivity|].
  now destruct (0 <? length (tcp_message.Payload m))%nat.
Qed.

(** X4.  A datagram of more than 2048 bytes makes [Unmarshal] grow
    [rawData] past the threshold, and the [Reset] that follows replaces the
    buffer by a fresh one of 256 bytes; a datagram that fits a buffer of
    capacity at most 2048 stays in it through [Reset].  Both framings. *)
Theorem Reset_shrinks_after_big_Unmarshal growslice stale :
  (forall c n, (n <= growslice c n)%nat) ->
  (forall codec data r,
     (len (udp_pool.rawData r) <= cap (udp_pool.rawData r))%nat ->
     ((2048 < length data)%nat ->
        udp_pool.rawData
          (udp_pool.Reset
             (snd (udp_message.Unmarshal growslice stale codec data r)))
        = make 256)
     /\ ((length data <= cap (udp_pool.rawData r))%nat ->
         (cap (udp_pool.rawData r) <= 2048)%nat ->
        udp_pool.rawData
          (udp_pool.Reset
             (snd (udp_message.Unmarshal growslice stale codec data r)))
        = {| elems := data; cap := cap (udp_pool.rawData r) |}))
  /\ (forall codec data r,
     (len (tcp_pool.rawData r) <= cap (tcp_pool.rawData r))%nat ->
     ((2048 < length data)%nat ->
        tcp_pool.rawData
          (tcp_pool.Reset
             (snd (tcp_message.Unmarshal growslice stale codec data r)))
        = make 256)
     /\ ((length data <= cap (tcp_pool.rawData r))%nat ->
         (cap (tcp_pool.rawData r) <= 2048)%nat ->
        tcp_pool.rawData
          (tcp_pool.Reset
             (snd (tcp_message.Unmarshal growslice stale codec data r)))
        = {| elems := data; cap := cap (tcp_pool.rawData r) |})).
Proof.
  intros Hg. split.
  - intros codec data r Hwf.
    destruct (udp_Unmarshal_rawData growslice stale codec data r Hg Hwf)
      as (c & Hraw & Hmono & Hfit & Hsame).
    unfold udp_pool.Reset, maxMessageBufferSize. cbn [udp_pool.rawData].
    rewrite Hraw. cbn [cap]. split.
    + intros Hbig. assert (H : (2048 <? c)%nat = true)
        by (apply Nat.ltb_lt; lia). now rewrite H.
    + intros Hle Hsmall. rewrite (Hsame Hle).
      assert (H : (2048 <? cap (udp_pool.rawData r))%nat = false)
        by (apply Nat.ltb_ge; lia). now rewrite H.
  - intros codec data r Hwf.
    destruct (tcp_Unmarshal_rawData growslice stale codec data r Hg Hwf)
      as (c & Hraw & Hmono & Hfit & Hsame).
    unfold tcp_pool.Reset, maxMessageBufferSize. cbn [tcp_pool.rawData].
    rewrite Hraw. cbn [cap]. split.
    + intros Hbig. assert (H : (2048 <? c)%nat = true)
        by (apply Nat.ltb_lt; lia). now rewrite H.
    + intros Hle Hsmall. rewrite (Hsame Hle).
      assert (H : (2048 <? cap (tcp_pool.rawData r))%nat = false)
        by (apply Nat.ltb_ge; lia). now rewrite H.
Qed.

Lemma Reset_shrinks_after_big_Unmarshal_witness :
  udp_pool.rawData
    (udp_pool.Reset
       (snd (udp_message.Unmarshal sample_growslice sample_stale sample_decode
               (repeat Byte.x60 3000) (udp_pool.new_Message None))))
    = make 256
  /\ udp_pool.rawData
    (udp_pool.Reset
       (snd (udp_message.Unmarshal sample_growslice sample_stale sample_decode
               [Byte.x60; Byte.x45] (udp_pool.new_Message None))))
    = {| elems := [Byte.x60; Byte.x45]; cap := 256 |}.
Proof.
  split.
  - apply (proj1 (proj1 (Reset_shrinks_after_big_Unmarshal sample_growslice
                           sample_stale sample_growslice_ge)
                    sample_decode (repeat Byte.x60 3000)
                    (udp_pool.new_Message None)
                    (proj1 (new_Message_buffers None)))).
    rewrite repeat_length. lia.
  - apply (proj2 (proj1 (Reset_shrinks_after_big_Unmarshal sample_growslice
                           sample_stale sample_growslice_ge)
                    sample_decode [Byte.x60; Byte.x45]
                    (udp_pool.new_Message None)
                    (proj1 (new_Message_buffers None)))).
    + simpl. lia.
    + simpl. lia.
Defined.

(** ** Marshal *)

Section MarshalFacts.

Variable growslice : nat -> nat -> nat.
Variable stale : slice -> list Byte.byte.
Hypothesis growslice_ge : forall c n, (n <= growslice c n)%nat.

(** The buffer [Marshal] hands to the codec: at least [size] long, of a
    capacity not below the old one. *)
Lemma marshal_buffer (s : slice) (size : Z) :
  (len s <= cap s)%nat ->
  let buf := if Z.of_nat (len s) <? size
             then append_zeros growslice s (Z.to_nat (size - Z.of_nat (len s)))
             else s in
  size <= Z.of_nat (len buf)
  /\ (len buf <= cap buf)%nat
  /\ (cap s <= cap buf)%nat.
Proof.
  intros Hwf. simpl. destruct (Z.of_nat (len s) <? size) eqn:Hshort.
  - apply Z.ltb_lt in Hshort.
    destruct (cap_append_zeros growslice growslice_ge s
                (Z.to_nat (size - Z.of_nat (len s))) Hwf) as (Hfit & Hmono & _).
    rewrite len_append_zeros. split; [lia|]. split; [lia|assumption].
  - apply Z.ltb_ge in Hshort. split; [lia|]. split; lia.
Qed.

(** Cutting the written buffer: any length within the capacity. *)
Lemma reslice_cap (s : slice) (n : Z) b :
  reslice stale s n = Ret b -> cap b = cap s.
Proof.
  unfold reslice. destruct ((0 <=? n) && (n <=? Z.of_nat (cap s)));
    [|discriminate].
  intros [= <-]. reflexivity.
Qed.

End MarshalFacts.

Lemma udp_set_rawMarshalData_id r :
  udp_message.set_rawMarshalData (udp_pool.rawMarshalData r) r = r.
Proof. now destruct r. Qed.

Lemma tcp_set_rawMarshalData_id r :
  tcp_message.set_rawMarshalData (tcp_pool.rawMarshalData r) r = r.
Proof. now destruct r. Qed.

(** X5.  [Marshal] of either framing changes nothing of the message but
    [rawMarshalData], in every outcome, and never lowers the capacity of
    that buffer.  An error of [ReadBody] or of the codec's [Size] comes
    back as it is with the message untouched. *)
Theorem Marshal_touches_only_its_buffer growslice stale ReadBody :
  (forall c n, (n <= growslice c n)%nat) ->
  (forall Size MarshalTo r,
     (len (udp_pool.rawMarshalData r) <= cap (udp_pool.rawMarshalData r))%nat ->
     (exists b,
        snd (udp_message.Marshal growslice stale Size MarshalTo ReadBody r)
          = udp_message.set_rawMarshalData b r
        /\ (cap (udp_pool.rawMarshalData r) <= cap b)%nat)
     /\ (forall mid e, udp_pool.messageID r = Some mid ->
           snd (ReadBody (udp_pool.Message_ r)) = Some e ->
           udp_message.Marshal growslice stale Size MarshalTo ReadBody r
             = (Ret (None, Some e), r))
     /\ (forall mid payload e, udp_pool.messageID r = Some mid ->
           ReadBody (udp_pool.Message_ r) = (payload, None) ->
           snd (Size {| udp_message.Code := udp_pool.Code r;
                        udp_message.Token := udp_pool.Token r;
                        udp_message.Options := udp_pool.Options r;
                        udp_message.MessageID := mid;
                        udp_message.Type_ := udp_pool.typ r;
                        udp_message.Payload := payload |}) = Some e ->
           udp_message.Marshal growslice stale Size MarshalTo ReadBody r
             = (Ret (None, Some e), r)))
  /\ (forall Size MarshalTo r,
     (len (tcp_pool.rawMarshalData r) <= cap (tcp_pool.rawMarshalData r))%nat ->
     (exists b,
        snd (tcp_message.Marshal growslice stale Size MarshalTo ReadBody r)
          = tcp_message.set_rawMarshalData b r
        /\ (cap (tcp_pool.rawMarshalData r) <= cap b)%nat)
     /\ (forall e, snd (ReadBody (tcp_pool.Message_ r)) = Some e ->
           tcp_message.Marshal growslice stale Size MarshalTo ReadBody r
             = (Ret (None, Some e), r))
     /\ (forall payload e,
           ReadBody (tcp_pool.Message_ r) = (payload, None) ->
           snd (Size {| tcp_message.Code := msgpool.Code (tcp_pool.Message_ r);
                        tcp_message.Token := msgpool.Token (tcp_pool.Message_ r);
                        tcp_message.Options :=
                          msgpool.Options (tcp_pool.Message_ r);
                        tcp_message.Payload := payload |}) = Some e ->
           tcp_message.Marshal growslice stale Size MarshalTo ReadBody r
             = (Ret (None, Some e), r))).
Proof.
  intros Hg. split.
  - intros Size MarshalTo r Hwf. split; [|split].
    + unfold udp_message.Marshal.
      destruct (udp_pool.MessageID r) as [mid|msg].
      2:{ exists (udp_pool.rawMarshalData r).
          now rewrite udp_set_rawMarshalData_id. }
      destruct (ReadBody (udp_pool.Message_ r)) as [payload [e|]].
      { exists (udp_pool.rawMarshalData r).
        now rewrite udp_set_rawMarshalData_id. }
      destruct (Size _) as [size [e|]].
      { exists (udp_pool.rawMarshalData r).
        now rewrite udp_set_rawMarshalData_id. }
      destruct (marshal_buffer growslice Hg (udp_pool.rawMarshalData r) size Hwf)
        as (_ & _ & Hmono).
      destruct (MarshalTo _ _) as [[n [e|]] out].
      { eexists. split; [reflexivity|]. exact Hmono. }
      destruct (reslice stale _ n) as [b|msg] eqn:Hcut.
      * eexists. split; [reflexivity|].
        apply reslice_cap in Hcut. rewrite Hcut. exact Hmono.
      * eexists. split; [reflexivity|]. exact Hmono.
    + intros mid e Hid He. unfold udp_message.Marshal, udp_pool.MessageID.
      rewrite Hid. destruct (ReadBody (udp_pool.Message_ r)) as [payload err].
      simpl in He. now rewrite He.
    + intros mid payload e Hid Hbody He.
      unfold udp_message.Marshal, udp_pool.MessageID.
      rewrite Hid, Hbody. destruct (Size _) as [size err].
      simpl in He. now rewrite He.
  - intros Size MarshalTo r Hwf. split; [|split].
    + unfold tcp_message.Marshal.
      destruct (ReadBody (tcp_pool.Message_ r)) as [payload [e|]].
      { exists (tcp_pool.rawMarshalData r).
        now rewrite tcp_set_rawMarshalData_id. }
      destruct (Size _) as [size [e|]].
      { exists (tcp_pool.rawMarshalData r).
        now rewrite tcp_set_rawMarshalData_id. }
      destruct (marshal_buffer growslice Hg (tcp_pool.rawMarshalData r) size Hwf)
        as (_ & _ & Hmono).
      destruct (MarshalTo _ _) as [[n [e|]] out].
      { eexists. split; [reflexivity|]. exact Hmono. }
      destruct (reslice stale _ n) as [b|msg] eqn:Hcut.
      * eexists. split; [reflexivity|].
        apply reslice_cap in Hcut. rewrite Hcut. exact Hmono.
      * eexists. split; [reflexivity|]. exact Hmono.
    + intros e He. unfold tcp_message.Marshal.
      destruct (ReadBody (tcp_pool.Message_ r)) as [payload err].
      simpl in He. now rewrite He.
    + intros payload e Hbody He. unfold tcp_message.Marshal.
      rewrite Hbody. destruct (Size _) as [size err].
      simpl in He. now rewrite He.
Qed.

(** A message with a body and no message-ID whose container refuses to
    be read. *)
Lemma Marshal_touches_only_its_buffer_witness :
  udp_message.Marshal sample_growslice sample_stale sample_Size
    sample_MarshalTo (fun _ => ([], Some (ErrNew "seek failed")))
    used_message
  = (Ret (None, Some (ErrNew "seek failed")), used_message).
Proof.
  apply (proj1 (proj2 (proj1 (Marshal_touches_only_its_buffer
                                sample_growslice sample_stale
                                (fun _ => ([], Some (ErrNew "seek failed")))
                                sample_growslice_ge)
                         sample_Size sample_MarshalTo used_message
                         ltac:(apply Nat.leb_le; vm_compute; reflexivity)))
           42 (ErrNew "seek failed")); reflexivity.
Defined.

Section MarshalSuccess.

Variable growslice : nat -> nat -> nat.
Variable stale : slice -> list Byte.byte.
Hypothesis growslice_ge : forall c n, (n <= growslice c n)%nat.

(** Writing [out] at the start of a buffer that is long enough and cutting
    the buffer to the length of [out] leaves [out]. *)
Lemma marshal_cut (s : slice) (out : list Byte.byte) :
  (len s <= cap s)%nat ->
  let size := Z.of_nat (length out) in
  let buf := if Z.of_nat (len s) <? size
             then append_zeros growslice s (Z.to_nat (size - Z.of_nat (len s)))
             else s in
  reslice stale (copy buf out) size = Ret {| elems := out; cap := cap buf |}.
Proof.
  intros Hwf size buf.
  destruct (marshal_buffer growslice growslice_ge s size Hwf)
    as (Hlen & Hbuf & _).
  fold buf in Hlen, Hbuf. subst size.
  rewrite (reslice_copy stale buf out (length out)) by lia.
  now rewrite firstn_all.
Qed.

End MarshalSuccess.

(** X6.  When the message-ID is set, the body can be read, and the codec
    asks for [size] bytes and writes that many into any buffer at least
    that long, [Marshal] of the datagram framing returns exactly the bytes
    the codec wrote, whatever the buffer held or however short it was
    before; the returned bytes are the new content of [rawMarshalData], and
    nothing else of the message changes.  The same for the stream framing,
    which has no message-ID to ask for. *)
Theorem Marshal_returns_the_encoding growslice stale ReadBody :
  (forall c n, (n <= growslice c n)%nat) ->
  (forall Size MarshalTo r mid payload out,
     (len (udp_pool.rawMarshalData r) <= cap (udp_pool.rawMarshalData r))%nat ->
     udp_pool.messageID r = Some mid ->
     ReadBody (udp_pool.Message_ r) = (payload, None) ->
     Size {| udp_message.Code := udp_pool.Code r;
             udp_message.Token := udp_pool.Token r;
             udp_message.Options := udp_pool.Options r;
             udp_message.MessageID := mid;
             udp_message.Type_ := udp_pool.typ r;
             udp_message.Payload := payload |}
       = (Z.of_nat (length out), None) ->
     (forall buf, (length out <= length buf)%nat ->
        MarshalTo {| udp_message.Code := udp_pool.Code r;
                     udp_message.Token := udp_pool.Token r;
                     udp_message.Options := udp_pool.Options r;
                     udp_message.MessageID := mid;
                     udp_message.Type_ := udp_pool.typ r;
                     udp_message.Payload := payload |} buf
          = ((Z.of_nat (length out), None), out)) ->
     exists c,
       udp_message.Marshal growslice stale Size MarshalTo ReadBody r
         = (Ret (Some out, None),
            udp_message.set_rawMarshalData {| elems := out; cap := c |} r)
       /\ (cap (udp_pool.rawMarshalData r) <= c)%nat)
  /\ (forall Size MarshalTo r payload out,
     (len (tcp_pool.rawMarshalData r) <= cap (tcp_pool.rawMarshalData r))%nat ->
     ReadBody (tcp_pool.Message_ r) = (payload, None) ->
     Size {| tcp_message.Code := msgpool.Code (tcp_pool.Message_ r);
             tcp_message.Token := msgpool.Token (tcp_pool.Message_ r);
             tcp_message.Options := msgpool.Options (tcp_pool.Message_ r);
             tcp_message.Payload := payload |}
       = (Z.of_nat (length out), None) ->
     (forall buf, (length out <= length buf)%nat ->
        MarshalTo {| tcp_message.Code := msgpool.Code (tcp_pool.Message_ r);
                     tcp_message.Token := msgpool.Token (tcp_pool.Message_ r);
                     tcp_message.Options :=
                       msgpool.Options (tcp_pool.Message_ r);
                     tcp_message.Payload := payload |} buf
          = ((Z.of_nat (length out), None), out)) ->
     exists c,
       tcp_message.Marshal growslice stale Size MarshalTo ReadBody r
         = (Ret (Some out, None),
            tcp_message.set_rawMarshalData {| elems := out; cap := c |} r)
       /\ (cap (tcp_pool.rawMarshalData r) <= c)%nat).
Proof.
  intros Hg. split.
  - intros Size MarshalTo r mid payload out Hwf Hid Hbody Hsize Hto.
    unfold udp_message.Marshal, udp_pool.MessageID.
    rewrite Hid, Hbody, Hsize.
    destruct (marshal_buffer growslice Hg (udp_pool.rawMarshalData r)
                (Z.of_nat (length out)) Hwf) as (Hlen & _ & Hmono).
    rewrite Hto by (apply Nat2Z.inj_le; exact Hlen).
    rewrite (marshal_cut growslice stale Hg (udp_pool.rawMarshalData r) out Hwf).
    eexists. split; [reflexivity|]. exact Hmono.
  - intros Size MarshalTo r payload out Hwf Hbody Hsize Hto.
    unfold tcp_message.Marshal.
    rewrite Hbody, Hsize.
    destruct (marshal_buffer growslice Hg (tcp_pool.rawMarshalData r)
                (Z.of_nat (length out)) Hwf) as (Hlen & _ & Hmono).
    rewrite Hto by (apply Nat2Z.inj_le; exact Hlen).
    rewrite (marshal_cut growslice stale Hg (tcp_pool.rawMarshalData r) out Hwf).
    eexists. split; [reflexivity|]. exact Hmono.
Qed.

Lemma Marshal_returns_the_encoding_witness :
  exists c,
    udp_message.Marshal sample_growslice sample_stale sample_Size
      sample_MarshalTo sample_ReadBody used_message
    = (Ret (Some [Byte.x60; Byte.x68; Byte.x69], None),
       udp_message.set_rawMarshalData
         {| elems := [Byte.x60; Byte.x68; Byte.x69]; cap := c |} used_message)
    /\ (cap (udp_pool.rawMarshalData used_message) <= c)%nat.
Proof.
  apply (proj1 (Marshal_returns_the_encoding sample_growslice sample_stale
                  sample_ReadBody sample_growslice_ge)
           sample_Size sample_MarshalTo used_message 42
           [Byte.x68; Byte.x69] [Byte.x60; Byte.x68; Byte.x69]).
  - apply Nat.leb_le. vm_compute. reflexivity.
  - reflexivity.
  - reflexivity.
  - reflexivity.
  - intros buf Hbuf. unfold sample_MarshalTo. simpl in *.
    destruct (length buf <? 3)%nat eqn:Hshort; [|reflexivity].
    apply Nat.ltb_lt in Hshort. lia.
Defined.

(** ** A message without message-ID *)

(** X7.  On a datagram-framing message whose message-ID is unset,
    [Marshal] and [String] panic with "messageID is not set" before the
    body is read or the codec is asked, and [WriteMessage] of both
    sessions panics the same way with nothing handed to the transport; the
    message is left as it was.  With a message-ID set, none of them panics
    with that message. *)
Theorem unset_messageID_panics_in_Marshal growslice stale Size MarshalTo
    ReadBody (r : udp_pool.Message) :
  (udp_pool.messageID r = None ->
     udp_message.Marshal growslice stale Size MarshalTo ReadBody r
       = (Panic "messageID is not set", r)
     /\ (forall container_String Sprintf,
           udp_message.String_ container_String Sprintf r
             = Panic "messageID is not set")
     /\ (forall Write s w,
           dtls_io.WriteMessage growslice stale Size MarshalTo ReadBody
             Write r s w = (Panic "messageID is not set", r, w))
     /\ (forall Write s w,
           udp_io.WriteMessage growslice stale Size MarshalTo ReadBody
             Write r s w = (Panic "messageID is not set", r, w)))
  /\ (forall mid, udp_pool.messageID r = Some mid ->
     fst (udp_message.Marshal growslice stale Size MarshalTo ReadBody r)
       <> Panic "messageID is not set"
     /\ (forall container_String Sprintf,
           udp_message.String_ container_String Sprintf r
             = Ret (Sprintf (udp_pool.typ r) mid
                      (container_String (udp_pool.Message_ r))))).
Proof.
  split.
  - intros Hid.
    assert (HM : udp_message.Marshal growslice stale Size MarshalTo ReadBody r
                 = (Panic "messageID is not set", r)).
    { unfold udp_message.Marshal, udp_pool.MessageID. now rewrite Hid. }
    split; [exact HM|]. split; [|split].
    + intros cs sp. unfold udp_message.String_, udp_pool.MessageID.
      now rewrite Hid.
    + intros Write s w. unfold dtls_io.WriteMessage. now rewrite HM.
    + intros Write s w. unfold udp_io.WriteMessage. now rewrite HM.
  - intros mid Hid. split.
    + unfold udp_message.Marshal, udp_pool.MessageID. rewrite Hid.
      destruct (ReadBody _) as [payload [e|]]; [discriminate|].
      destruct (Size _) as [size [e|]]; [discriminate|].
      destruct (MarshalTo _ _) as [[n [e|]] out]; [discriminate|].
      unfold reslice.
      destruct ((0 <=? n) && _); simpl; discriminate.
    + intros cs sp. unfold udp_message.String_, udp_pool.MessageID.
      now rewrite Hid.
Qed.

Lemma unset_messageID_panics_in_Marshal_witness :
  dtls_io.WriteMessage sample_growslice sample_stale sample_Size
    sample_MarshalTo sample_ReadBody sample_Write
    (udp_pool.Reset used_message) dtls_owner dtls_world
  = (Panic "messageID is not set", udp_pool.Reset used_message, dtls_world)
  /\ fst (udp_message.Marshal sample_growslice sample_stale sample_Size
            sample_MarshalTo sample_ReadBody used_message)
     <> Panic "messageID is not set".
Proof.
  split.
  - apply (proj1 (unset_messageID_panics_in_Marshal sample_growslice
                    sample_stale sample_Size sample_MarshalTo sample_ReadBody
                    (udp_pool.Reset used_message)) eq_refl).
  - apply (proj2 (unset_messageID_panics_in_Marshal sample_growslice
                    sample_stale sample_Size sample_MarshalTo sample_ReadBody
                    used_message) 42 eq_refl).
Defined.

(** ** WriteMessage *)

(** X8.  [WriteMessage] hands the transport the bytes [Marshal] returned,
    under the context of the message and not that of the session.  When
    [Marshal] returns an error, nothing is handed to the transport and the
    error comes back wrapped as "cannot marshal: <error>" on both sessions;
    an error of the transport comes back wrapped as "cannot write to
    connection: <error>" on the DTLS session and as it is on the UDP
    session. *)
Theorem WriteMessage_errors growslice stale Size MarshalTo ReadBody
    (req : udp_pool.Message) :
  (forall e req',
     udp_message.Marshal growslice stale Size MarshalTo ReadBody req
       = (Ret (None, Some e), req') ->
     (forall Write s w,
        dtls_io.WriteMessage growslice stale Size MarshalTo ReadBody Write
          req s w = (Ret (Some (ErrWrap "cannot marshal" e)), req', w))
     /\ (forall Write s w,
        udp_io.WriteMessage growslice stale Size MarshalTo ReadBody Write
          req s w = (Ret (Some (ErrWrap "cannot marshal" e)), req', w)))
  /\ (forall data req',
     udp_message.Marshal growslice stale Size MarshalTo ReadBody req
       = (Ret (Some data, None), req') ->
     (forall Write s w,
        dtls_io.WriteMessage growslice stale Size MarshalTo ReadBody Write
          req s w
        = (Ret (option_map (ErrWrap "cannot write to connection")
                  (fst (Write (udp_pool.ctx req) data w))),
           req', snd (Write (udp_pool.ctx req) data w)))
     /\ (forall Write s w,
        udp_io.WriteMessage growslice stale Size MarshalTo ReadBody Write
          req s w
        = (Ret (fst (Write (udp_pool.ctx req) (udp_session.raddr s) data w)),
           req',
           snd (Write (udp_pool.ctx req) (udp_session.raddr s) data w)))).
Proof.
  split.
  - intros e req' HM. split; intros Write s w.
    + unfold dtls_io.WriteMessage. now rewrite HM.
    + unfold udp_io.WriteMessage. now rewrite HM.
  - intros data req' HM.
    assert (Hctx : udp_pool.Context req' = udp_pool.ctx req).
    { pose proof HM as HM'. unfold udp_message.Marshal in HM'.
      destruct (udp_pool.MessageID req); [|discriminate].
      destruct (ReadBody _) as [payload [e|]]; [discriminate|].
      destruct (Size _) as [size [e|]]; [discriminate|].
      destruct (MarshalTo _ _) as [[n [e|]] out]; [discriminate|].
      destruct (reslice _ _ _); [|discriminate].
      injection HM' as _ <-. reflexivity. }
    split; intros Write s w.
    + unfold dtls_io.WriteMessage. rewrite HM, Hctx. simpl.
      destruct (Write (udp_pool.ctx req) data w) as [[e|] w']; reflexivity.
    + unfold udp_io.WriteMessage. rewrite HM, Hctx. simpl.
      destruct (Write (udp_pool.ctx req) (udp_session.raddr s) data w)
        as [err w']; reflexivity.
Qed.

Lemma WriteMessage_errors_witness :
  fst (fst (dtls_io.WriteMessage sample_growslice sample_stale sample_Size
              sample_MarshalTo sample_ReadBody sample_Write
              (fst cancelled_request) dtls_owner (snd cancelled_request)))
  = Ret (Some (ErrWrap "cannot write to connection" context.Canceled)).
Proof.
  rewrite (proj1 (proj2 (WriteMessage_errors sample_growslice sample_stale
                           sample_Size sample_MarshalTo sample_ReadBody
                           (fst cancelled_request))
                    [Byte.x60; Byte.x68; Byte.x69] _ eq_refl)).
  reflexivity.
Defined.

(** ** More of the pools *)

Section PoolMore.

Variable Msg : Type.
Variable newMsg : option context.Context -> Msg.
Variable resetMsg : Msg -> Msg.
Variable setCtx : option context.Context -> Msg -> Msg.

Local Abbreviation Acquire := (AcquireMessage Msg newMsg setCtx).
Local Abbreviation Release := (ReleaseMessage Msg resetMsg setCtx).
Local Abbreviation Reachable := (reachable Msg newMsg resetMsg setCtx).

(** An acquire that is handed the newest value of the pool. *)
Lemma acquire_head st p rest m c :
  messagePool st = p :: rest ->
  heap st !! p = Some m ->
  Acquire (Some 0%nat) c st
    = (Ret p,
       {| heap := <[p := setCtx c m]> (heap st);
          currentMessagesInPool :=
            atomic_AddInt32 (currentMessagesInPool st) (-1);
          messagePool := rest |}).
Proof.
  intros Hpool Hm. unfold AcquireMessage, sync_Pool_Get.
  rewrite Hpool. simpl. now rewrite Hm.
Qed.

(** Release a live message below the cap, then acquire with the pool
    handing out its newest value: the same pointer comes back, the message
    reset and under the new context, counter and pool as before. *)
Lemma release_then_acquire st p m c :
  0 <= currentMessagesInPool st < maxMessagePool ->
  heap st !! p = Some m ->
  Acquire (Some 0%nat) c (snd (Release p st))
    = (Ret p,
       {| heap := <[p := setCtx c (setCtx None (resetMsg m))]> (heap st);
          currentMessagesInPool := currentMessagesInPool st;
          messagePool := messagePool st |}).
Proof.
  intros Hc Hm.
  rewrite (release_below_cap Msg resetMsg setCtx st p m) by (lia || assumption).
  cbn [snd].
  erewrite acquire_head; [|reflexivity|apply lookup_insert_eq].
  cbn [heap currentMessagesInPool]. rewrite insert_insert_eq.
  unfold atomic_AddInt32. rewrite (wrap32_id (currentMessagesInPool st + 1))
    by (unfold maxMessagePool in *; lia).
  rewrite wrap32_id by (unfold maxMessagePool in *; lia).
  repeat f_equal. lia.
Qed.

(** Release the same live message twice below the cap: the next two
    acquires both return it, and the second holder's context replaces the
    first's. *)
Lemma release_twice_then_acquire_twice st p m c1 c2 :
  0 <= currentMessagesInPool st ->
  currentMessagesInPool st + 2 <= maxMessagePool ->
  heap st !! p = Some m ->
  let st2 := snd (Release p (snd (Release p st))) in
  let st3 := snd (Acquire (Some 0%nat) c1 st2) in
  fst (Acquire (Some 0%nat) c1 st2) = Ret p
  /\ fst (Acquire (Some 0%nat) c2 st3) = Ret p
  /\ (exists m', heap st3 !! p = Some (setCtx c1 m')
                 /\ heap (snd (Acquire (Some 0%nat) c2 st3)) !! p
                    = Some (setCtx c2 (setCtx c1 m')))
  /\ messagePool (snd (Acquire (Some 0%nat) c2 st3)) = messagePool st.
Proof.
  intros Hc0 Hc Hm st2 st3.
  assert (Hn : atomic_AddInt32 (currentMessagesInPool st) 1
               = currentMessagesInPool st + 1).
  { rewrite atomic_AddInt32_small; unfold maxMessagePool in *; lia. }
  set (m1 := setCtx None (resetMsg m)).
  set (m2 := setCtx None (resetMsg m1)).
  assert (Hst2 : exists n h,
             st2 = {| heap := h; currentMessagesInPool := n;
                      messagePool := p :: p :: messagePool st |}
             /\ h !! p = Some m2).
  { subst st2.
    rewrite (release_below_cap Msg resetMsg setCtx st p m)
      by (lia || assumption).
    cbn [snd]. rewrite Hn.
    erewrite release_below_cap;
      [|cbn [currentMessagesInPool]; lia
       |cbn [heap]; apply lookup_insert_eq].
    cbn [snd]. eexists _, _. split; [reflexivity|].
    apply lookup_insert_eq. }
  destruct Hst2 as (n & h & Hst2 & Hh).
  assert (Hacq1 : Acquire (Some 0%nat) c1 st2
                  = (Ret p,
                     {| heap := <[p := setCtx c1 m2]> h;
                        currentMessagesInPool := atomic_AddInt32 n (-1);
                        messagePool := p :: messagePool st |})).
  { rewrite Hst2. now apply acquire_head. }
  subst st3. rewrite Hacq1. cbn [fst snd].
  erewrite acquire_head; [|reflexivity|apply lookup_insert_eq].
  cbn [fst snd heap messagePool].
  split; [reflexivity|]. split; [reflexivity|]. split; [|reflexivity].
  exists m2. split; apply lookup_insert_eq.
Qed.

Variable Clean : Msg -> Prop.
Hypothesis Clean_reset : forall m, Clean (resetMsg m).
Hypothesis Clean_setCtx : forall c m, Clean m -> Clean (setCtx c m).

(** What an acquire returns in a reachable state: a new message when the
    pool hands out nothing, a clean one under the new context when it hands
    one out. *)
Lemma acquire_new_or_recycled st choice c :
  Reachable st ->
  (sync_Pool_Get choice (messagePool st) = None ->
     fst (Acquire choice c st) = Ret (fresh (dom (heap st)))
     /\ heap (snd (Acquire choice c st)) !! fresh (dom (heap st))
        = Some (newMsg c)
     /\ currentMessagesInPool (snd (Acquire choice c st))
        = currentMessagesInPool st)
  /\ (forall r rest, sync_Pool_Get choice (messagePool st) = Some (r, rest) ->
     exists m,
       heap st !! r = Some m /\ Clean m
       /\ fst (Acquire choice c st) = Ret r
       /\ heap (snd (Acquire choice c st)) !! r = Some (setCtx c m)
       /\ currentMessagesInPool (snd (Acquire choice c st))
          = currentMessagesInPool st - 1).
Proof.
  intros Hst.
  apply (reachable_inv Msg newMsg resetMsg setCtx Clean Clean_reset Clean_setCtx)
    in Hst as (Hc & Hlen & Hptr).
  split.
  - intros Hget. unfold AcquireMessage. rewrite Hget. simpl.
    rewrite lookup_insert_eq. auto.
  - intros r rest Hget. unfold AcquireMessage. rewrite Hget.
    apply sync_Pool_Get_Some in Hget as (Hr & _ & Hl).
    destruct (Hptr r Hr) as (m & Hm & Hclean). exists m. rewrite Hm. simpl.
    rewrite lookup_insert_eq.
    repeat split; auto.
    apply atomic_AddInt32_small. unfold maxMessagePool in *. lia.
Qed.

(** The counter never comes closer to the number of retained instances:
    what a drop by the [sync.Pool] or the release of a nil pointer adds to
    the gap stays. *)
Lemma pool_gap_steps st :
  Reachable st ->
  (forall choice c, pool_gap st <= pool_gap (snd (Acquire choice c st)))
  /\ (forall req, pool_gap st <= pool_gap (snd (Release req st)))
  /\ (forall i, pool_gap st <= pool_gap (sync_Pool_drop i st))
  /\ (forall i, is_Some (messagePool st !! i) ->
        pool_gap (sync_Pool_drop i st) = pool_gap st + 1)
  /\ (forall req, heap st !! req = None ->
        currentMessagesInPool st < maxMessagePool ->
        pool_gap (snd (Release req st)) = pool_gap st + 1
        /\ exists msg, fst (Release req st) = Panic msg)
  /\ (forall req, heap st !! req = None ->
        maxMessagePool <= currentMessagesInPool st ->
        Release req st = (Ret tt, st)).
Proof.
  intros Hst.
  apply (reachable_inv Msg newMsg resetMsg setCtx Clean Clean_reset Clean_setCtx)
    in Hst as (Hc & Hlen & Hptr).
  unfold pool_gap. split; [|split; [|split; [|split; [|split]]]].
  - intros choice c. unfold AcquireMessage.
    destruct (sync_Pool_Get choice (messagePool st)) as [[r rest]|] eqn:Hget.
    + apply sync_Pool_Get_Some in Hget as (Hr & _ & Hl).
      destruct (Hptr r Hr) as (m & Hm & _). rewrite Hm. simpl.
      rewrite atomic_AddInt32_small by (unfold maxMessagePool in *; lia).
      lia.
    + simpl. lia.
  - intros req. unfold ReleaseMessage.
    destruct (currentMessagesInPool st >=? maxMessagePool) eqn:Hcap;
      [simpl; lia|].
    rewrite Z.geb_leb in Hcap. apply Z.leb_gt in Hcap.
    destruct (heap st !! req); simpl;
      rewrite atomic_AddInt32_small by (unfold maxMessagePool in *; lia);
      lia.
  - intros i. simpl.
    pose proof (sublist_length _ _ (sublist_delete (messagePool st) i)). lia.
  - intros i Hi. simpl. rewrite length_delete by assumption.
    destruct Hi as [p Hp]. apply lookup_lt_Some in Hp. lia.
  - intros req Hnil Hcap. unfold ReleaseMessage.
    destruct (currentMessagesInPool st >=? maxMessagePool) eqn:Hge.
    { apply Z.geb_le in Hge. lia. }
    rewrite Hnil. simpl.
    rewrite atomic_AddInt32_small by (unfold maxMessagePool in *; lia).
    split; [lia|eauto].
  - intros req _ Hcap. now apply release_at_cap.
Qed.

End PoolMore.

Lemma udp_Idle_reset r : udp_Idle (udp_pool.Reset r).
Proof.
  unfold udp_Idle, udp_pool.Reset, maxMessageBufferSize. simpl.
  repeat (split; [reflexivity|]). split.
  - destruct (2048 <? cap (udp_pool.rawData r))%nat eqn:H; simpl; [lia|].
    now apply Nat.ltb_ge in H.
  - destruct (2048 <? cap (udp_pool.rawMarshalData r))%nat eqn:H; simpl; [lia|].
    now apply Nat.ltb_ge in H.
Qed.

Lemma udp_Idle_set_ctx c r : udp_Idle r -> udp_Idle (udp_pool.set_ctx c r).
Proof. intros H. exact H. Qed.

Lemma tcp_Idle_reset r : tcp_Idle (tcp_pool.Reset r).
Proof.
  unfold tcp_Idle, tcp_pool.Reset, maxMessageBufferSize. simpl.
  repeat (split; [reflexivity|]). split.
  - destruct (2048 <? cap (tcp_pool.rawData r))%nat eqn:H; simpl; [lia|].
    now apply Nat.ltb_ge in H.
  - destruct (2048 <? cap (tcp_pool.rawMarshalData r))%nat eqn:H; simpl; [lia|].
    now apply Nat.ltb_ge in H.
Qed.

Lemma tcp_Idle_set_ctx c r : tcp_Idle r -> tcp_Idle (tcp_pool.set_ctx c r).
Proof. intros H. exact H. Qed.

(** X9.  A message released below the cap and acquired again (the pool
    handing out its newest value) is the same instance: the same pointer
    comes back, the message is the [Reset] of the released one under the
    new context, and counter and pool are as before the release.  Both
    pools. *)
Theorem pool_recycles_released_message :
  (forall st p m c,
     0 <= currentMessagesInPool st < maxMessagePool ->
     heap st !! p = Some m ->
     udp_pool.AcquireMessage (Some 0%nat) c
       (snd (udp_pool.ReleaseMessage p st))
     = (Ret p,
        {| heap := <[p := udp_pool.set_ctx c (udp_pool.Reset m)]> (heap st);
           currentMessagesInPool := currentMessagesInPool st;
           messagePool := messagePool st |}))
  /\ (forall st p m c,
     0 <= currentMessagesInPool st < maxMessagePool ->
     heap st !! p = Some m ->
     tcp_pool.AcquireMessage (Some 0%nat) c
       (snd (tcp_pool.ReleaseMessage p st))
     = (Ret p,
        {| heap := <[p := tcp_pool.set_ctx c (tcp_pool.Reset m)]> (heap st);
           currentMessagesInPool := currentMessagesInPool st;
           messagePool := messagePool st |})).
Proof.
  split; intros st p m c Hc Hm.
  - unfold udp_pool.AcquireMessage, udp_pool.ReleaseMessage.
    now rewrite (release_then_acquire _ _ _ _ st p m c Hc Hm).
  - unfold tcp_pool.AcquireMessage, tcp_pool.ReleaseMessage.
    now rewrite (release_then_acquire _ _ _ _ st p m c Hc Hm).
Qed.

Lemma pool_recycles_released_message_witness :
  fst (udp_pool.AcquireMessage (Some 0%nat) (Some context.Background)
         (snd (udp_pool.ReleaseMessage 7%nat small_udp_pool))) = Ret 7%nat.
Proof.
  rewrite (proj1 pool_recycles_released_message small_udp_pool 7%nat
             used_message (Some context.Background)).
  - reflexivity.
  - simpl. unfold maxMessagePool. lia.
  - apply lookup_singleton_eq.
Defined.

(** X10.  Releasing the same message twice (below the cap) puts the
    pointer into the pool twice: the next two acquires both return it, so
    that two holders share one instance, and the context the second
    acquire attaches replaces the first holder's.  Both pools. *)
Theorem double_release_hands_out_twice :
  (forall st p m c1 c2,
     0 <= currentMessagesInPool st ->
     currentMessagesInPool st + 2 <= maxMessagePool ->
     heap st !! p = Some m ->
     let st2 := snd (udp_pool.ReleaseMessage p
                       (snd (udp_pool.ReleaseMessage p st))) in
     let st3 := snd (udp_pool.AcquireMessage (Some 0%nat) c1 st2) in
     fst (udp_pool.AcquireMessage (Some 0%nat) c1 st2) = Ret p
     /\ fst (udp_pool.AcquireMessage (Some 0%nat) c2 st3) = Ret p
     /\ (exists m',
           heap st3 !! p = Some (udp_pool.set_ctx c1 m')
           /\ heap (snd (udp_pool.AcquireMessage (Some 0%nat) c2 st3)) !! p
              = Some (udp_pool.set_ctx c2 (udp_pool.set_ctx c1 m')))
     /\ messagePool (snd (udp_pool.AcquireMessage (Some 0%nat) c2 st3))
        = messagePool st)
  /\ (forall st p m c1 c2,
     0 <= currentMessagesInPool st ->
     currentMessagesInPool st + 2 <= maxMessagePool ->
     heap st !! p = Some m ->
     let st2 := snd (tcp_pool.ReleaseMessage p
                       (snd (tcp_pool.ReleaseMessage p st))) in
     let st3 := snd (tcp_pool.AcquireMessage (Some 0%nat) c1 st2) in
     fst (tcp_pool.AcquireMessage (Some 0%nat) c1 st2) = Ret p
     /\ fst (tcp_pool.AcquireMessage (Some 0%nat) c2 st3) = Ret p
     /\ (exists m',
           heap st3 !! p = Some (tcp_pool.set_ctx c1 m')
           /\ heap (snd (tcp_pool.AcquireMessage (Some 0%nat) c2 st3)) !! p
              = Some (tcp_pool.set_ctx c2 (tcp_pool.set_ctx c1 m')))
     /\ messagePool (snd (tcp_pool.AcquireMessage (Some 0%nat) c2 st3))
        = messagePool st).
Proof.
  split; intros st p m c1 c2 Hc0 Hc Hm.
  - apply (release_twice_then_acquire_twice _ udp_pool.new_Message
             udp_pool.Reset udp_pool.set_ctx st p m c1 c2 Hc0 Hc Hm).
  - apply (release_twice_then_acquire_twice _ tcp_pool.new_Message
             tcp_pool.Reset tcp_pool.set_ctx st p m c1 c2 Hc0 Hc Hm).
Qed.

Lemma double_release_hands_out_twice_witness :
  fst (udp_pool.AcquireMessage (Some 0%nat) None
         (snd (udp_pool.ReleaseMessage 7%nat
                 (snd (udp_pool.ReleaseMessage 7%nat small_udp_pool)))))
    = Ret 7%nat
  /\ fst (udp_pool.AcquireMessage (Some 0%nat) (Some context.Background)
            (snd (udp_pool.AcquireMessage (Some 0%nat) None
                    (snd (udp_pool.ReleaseMessage 7%nat
                            (snd (udp_pool.ReleaseMessage 7%nat
                                    small_udp_pool)))))))
    = Ret 7%nat.
Proof.
  destruct (proj1 double_release_hands_out_twice small_udp_pool 7%nat
              used_message None (Some context.Background))
    as (H1 & H2 & _).
  - simpl. lia.
  - simpl. unfold maxMessagePool. lia.
  - apply lookup_singleton_eq.
  - split; [exact H1|exact H2].
Defined.

(** X11.  Every message the pool retains is idle: empty container, no
    message-ID, type NonConfirmable, dirty flag clear, both scratch
    buffers of capacity at most 2048.  So an acquire returns either a
    newly built message (256-byte buffers, type 0) or an idle one under the
    new context, and it lowers the counter by one exactly when it recycles.
    Both pools. *)
Theorem pooled_messages_are_idle :
  (forall st, udp_pool.reachable st ->
     (forall p, p ∈ messagePool st ->
        exists m, heap st !! p = Some m /\ udp_Idle m)
     /\ (forall choice c,
           sync_Pool_Get choice (messagePool st) = None ->
           fst (udp_pool.AcquireMessage choice c st)
             = Ret (fresh (dom (heap st)))
           /\ heap (snd (udp_pool.AcquireMessage choice c st))
                !! fresh (dom (heap st)) = Some (udp_pool.new_Message c)
           /\ udp_pool.typ (udp_pool.new_Message c) = 0
           /\ currentMessagesInPool (snd (udp_pool.AcquireMessage choice c st))
              = currentMessagesInPool st)
     /\ (forall choice c r rest,
           sync_Pool_Get choice (messagePool st) = Some (r, rest) ->
           exists m,
             heap st !! r = Some m /\ udp_Idle m
             /\ fst (udp_pool.AcquireMessage choice c st) = Ret r
             /\ heap (snd (udp_pool.AcquireMessage choice c st)) !! r
                = Some (udp_pool.set_ctx c m)
             /\ currentMessagesInPool
                  (snd (udp_pool.AcquireMessage choice c st))
                = currentMessagesInPool st - 1))
  /\ (forall st, tcp_pool.reachable st ->
     (forall p, p ∈ messagePool st ->
        exists m, heap st !! p = Some m /\ tcp_Idle m)
     /\ (forall choice c,
           sync_Pool_Get choice (messagePool st) = None ->
           fst (tcp_pool.AcquireMessage choice c st)
             = Ret (fresh (dom (heap st)))
           /\ heap (snd (tcp_pool.AcquireMessage choice c st))
                !! fresh (dom (heap st)) = Some (tcp_pool.new_Message c)
           /\ currentMessagesInPool (snd (tcp_pool.AcquireMessage choice c st))
              = currentMessagesInPool st)
     /\ (forall choice c r rest,
           sync_Pool_Get choice (messagePool st) = Some (r, rest) ->
           exists m,
             heap st !! r = Some m /\ tcp_Idle m
             /\ fst (tcp_pool.AcquireMessage choice c st) = Ret r
             /\ heap (snd (tcp_pool.AcquireMessage choice c st)) !! r
                = Some (tcp_pool.set_ctx c m)
             /\ currentMessagesInPool
                  (snd (tcp_pool.AcquireMessage choice c st))
                = currentMessagesInPool st - 1)).
Proof.
  split; intros st Hst.
  - split; [|split].
    + apply (reachable_inv _ _ _ _ udp_Idle udp_Idle_reset udp_Idle_set_ctx)
        in Hst as (_ & _ & Hptr). exact Hptr.
    + intros choice c Hget.
      destruct (proj1 (acquire_new_or_recycled _ udp_pool.new_Message
                         udp_pool.Reset udp_pool.set_ctx udp_Idle
                         udp_Idle_reset udp_Idle_set_ctx st choice c Hst) Hget)
        as (H1 & H2 & H3).
      auto.
    + intros choice c r rest Hget.
      apply (proj2 (acquire_new_or_recycled _ udp_pool.new_Message
                      udp_pool.Reset udp_pool.set_ctx udp_Idle
                      udp_Idle_reset udp_Idle_set_ctx st choice c Hst)
               r rest Hget).
  - split; [|split].
    + apply (reachable_inv _ _ _ _ tcp_Idle tcp_Idle_reset tcp_Idle_set_ctx)
        in Hst as (_ & _ & Hptr). exact Hptr.
    + intros choice c Hget.
      apply (proj1 (acquire_new_or_recycled _ tcp_pool.new_Message
                      tcp_pool.Reset tcp_pool.set_ctx tcp_Idle
                      tcp_Idle_reset tcp_Idle_set_ctx st choice c Hst) Hget).
    + intros choice c r rest Hget.
      apply (proj2 (acquire_new_or_recycled _ tcp_pool.new_Message
                      tcp_pool.Reset tcp_pool.set_ctx tcp_Idle
                      tcp_Idle_reset tcp_Idle_set_ctx st choice c Hst)
               r rest Hget).
Qed.

Lemma one_released_reachable : udp_pool.reachable one_released.
Proof.
  apply reach_release, reach_use; [apply reach_acquire, reach_init|].
  simpl. apply not_elem_of_nil.
Qed.

Lemma pooled_messages_are_idle_witness :
  exists m, heap one_released !! 0%nat = Some m /\ udp_Idle m.
Proof.
  apply (proj1 (proj1 pooled_messages_are_idle one_released
                  one_released_reachable)).
  unfold one_released, udp_pool.ReleaseMessage, ReleaseMessage. simpl.
  unfold use_message. simpl. rewrite lookup_alter_eq, lookup_insert_eq.
  simpl. apply elem_of_cons. now left.
Defined.

(** X12.  The counter is never corrected downwards: no acquire, release
    or drop lowers the excess of [currentMessagesInPool] over the number of
    instances the pool retains.  A value the [sync.Pool] drops raises the
    excess by one, and so does [ReleaseMessage] of a nil pointer below the
    cap, which counts the instance and then panics; at the cap the same
    call returns without panic.  Both pools. *)
Theorem pool_counter_only_drifts_up :
  (forall st, udp_pool.reachable st ->
     (forall choice c,
        pool_gap st <= pool_gap (snd (udp_pool.AcquireMessage choice c st)))
     /\ (forall req,
        pool_gap st <= pool_gap (snd (udp_pool.ReleaseMessage req st)))
     /\ (forall i, pool_gap st <= pool_gap (sync_Pool_drop i st))
     /\ (forall i, is_Some (messagePool st !! i) ->
        pool_gap (sync_Pool_drop i st) = pool_gap st + 1)
     /\ (forall req, heap st !! req = None ->
        currentMessagesInPool st < maxMessagePool ->
        pool_gap (snd (udp_pool.ReleaseMessage req st)) = pool_gap st + 1
        /\ exists msg, fst (udp_pool.ReleaseMessage req st) = Panic msg)
     /\ (forall req, heap st !! req = None ->
        maxMessagePool <= currentMessagesInPool st ->
        udp_pool.ReleaseMessage req st = (Ret tt, st)))
  /\ (forall st, tcp_pool.reachable st ->
     (forall choice c,
        pool_gap st <= pool_gap (snd (tcp_pool.AcquireMessage choice c st)))
     /\ (forall req,
        pool_gap st <= pool_gap (snd (tcp_pool.ReleaseMessage req st)))
     /\ (forall i, pool_gap st <= pool_gap (sync_Pool_drop i st))
     /\ (forall i, is_Some (messagePool st !! i) ->
        pool_gap (sync_Pool_drop i st) = pool_gap st + 1)
     /\ (forall req, heap st !! req = None ->
        currentMessagesInPool st < maxMessagePool ->
        pool_gap (snd (tcp_pool.ReleaseMessage req st)) = pool_gap st + 1
        /\ exists msg, fst (tcp_pool.ReleaseMessage req st) = Panic msg)
     /\ (forall req, heap st !! req = None ->
        maxMessagePool <= currentMessagesInPool st ->
        tcp_pool.ReleaseMessage req st = (Ret tt, st))).
Proof.
  split; intros st Hst.
  - apply (pool_gap_steps _ udp_pool.new_Message udp_pool.Reset
             udp_pool.set_ctx udp_Idle udp_Idle_reset udp_Idle_set_ctx st Hst).
  - apply (pool_gap_steps _ tcp_pool.new_Message tcp_pool.Reset
             tcp_pool.set_ctx tcp_Idle tcp_Idle_reset tcp_Idle_set_ctx st Hst).
Qed.

Lemma pool_counter_only_drifts_up_witness :
  pool_gap (sync_Pool_drop 0 one_released) = pool_gap one_released + 1
  /\ pool_gap (snd (udp_pool.ReleaseMessage 5%nat one_released))
     = pool_gap one_released + 1.
Proof.
  destruct (proj1 pool_counter_only_drifts_up one_released
              one_released_reachable) as (_ & _ & _ & Hdrop & Hnil & _).
  split.
  - apply Hdrop. eexists. reflexivity.
  - apply Hnil.
    + reflexivity.
    + vm_compute. reflexivity.
Defined.

(** ** ConvertFrom and ConvertTo *)

(** What [ConvertFrom] leaves behind its result: an acquired message under
    the context of the generic one, with the four setters applied. *)
Lemma udp_ConvertFrom_result st choice m c :
  udp_pool.reachable st ->
  message.Context m = Some c ->
  exists p a,
    fst (udp_message.ConvertFrom choice m st) = Ret (Some p, None)
    /\ heap (snd (udp_message.ConvertFrom choice m st)) !! p
       = Some (udp_pool.with_container (msgpool.SetToken (message.Token m))
                (udp_pool.with_container (msgpool.SetBody (message.Body m))
                  (udp_pool.with_container
                     (msgpool.ResetOptionsTo (message.Options m))
                     (udp_pool.with_container
                        (msgpool.SetCode (message.Code m)) a))))
    /\ udp_pool.ctx a = Some c
    /\ udp_pool.messageID a = None.
Proof.
  intros Hst Hc. unfold udp_message.ConvertFrom. rewrite Hc.
  destruct (acquire_new_or_recycled _ udp_pool.new_Message udp_pool.Reset
              udp_pool.set_ctx udp_Idle udp_Idle_reset udp_Idle_set_ctx
              st choice (Some c) Hst) as (Hnew & Hrec).
  fold udp_pool.AcquireMessage in Hnew, Hrec.
  destruct (sync_Pool_Get choice (messagePool st)) as [[r rest]|] eqn:Hget.
  - destruct (Hrec r rest eq_refl) as (a & _ & Hidle & Hp & Hheap & _).
    destruct (udp_pool.AcquireMessage choice (Some c) st) as [o st1].
    simpl in Hp, Hheap. subst o. simpl.
    exists r, (udp_pool.set_ctx (Some c) a).
    split; [reflexivity|]. split; [|split; [reflexivity|apply Hidle]].
    rewrite !lookup_alter_eq, Hheap. reflexivity.
  - destruct (Hnew eq_refl) as (Hp & Hheap & _).
    destruct (udp_pool.AcquireMessage choice (Some c) st) as [o st1].
    simpl in Hp, Hheap. subst o. simpl.
    exists (fresh (dom (heap st))), (udp_pool.new_Message (Some c)).
    split; [reflexivity|]. split; [|split; reflexivity].
    rewrite !lookup_alter_eq, Hheap. reflexivity.
Qed.

Lemma tcp_ConvertFrom_result st choice m c :
  tcp_pool.reachable st ->
  message.Context m = Some c ->
  exists p a,
    fst (tcp_message.ConvertFrom choice m st) = Ret (Some p, None)
    /\ heap (snd (tcp_message.ConvertFrom choice m st)) !! p
       = Some (tcp_message.with_container (msgpool.SetToken (message.Token m))
                (tcp_message.with_container (msgpool.SetBody (message.Body m))
                  (tcp_message.with_container
                     (msgpool.ResetOptionsTo (message.Options m))
                     (tcp_message.with_container
                        (msgpool.SetCode (message.Code m)) a))))
    /\ tcp_pool.ctx a = Some c.
Proof.
  intros Hst Hc. unfold tcp_message.ConvertFrom. rewrite Hc.
  destruct (acquire_new_or_recycled _ tcp_pool.new_Message tcp_pool.Reset
              tcp_pool.set_ctx tcp_Idle tcp_Idle_reset tcp_Idle_set_ctx
              st choice (Some c) Hst) as (Hnew & Hrec).
  fold tcp_pool.AcquireMessage in Hnew, Hrec.
  destruct (sync_Pool_Get choice (messagePool st)) as [[r rest]|] eqn:Hget.
  - destruct (Hrec r rest eq_refl) as (a & _ & Hidle & Hp & Hheap & _).
    destruct (tcp_pool.AcquireMessage choice (Some c) st) as [o st1].
    simpl in Hp, Hheap. subst o. simpl.
    exists r, (tcp_pool.set_ctx (Some c) a).
    split; [reflexivity|]. split; [|reflexivity].
    rewrite !lookup_alter_eq, Hheap. reflexivity.
  - destruct (Hnew eq_refl) as (Hp & Hheap & _).
    destruct (tcp_pool.AcquireMessage choice (Some c) st) as [o st1].
    simpl in Hp, Hheap. subst o. simpl.
    exists (fresh (dom (heap st))), (tcp_pool.new_Message (Some c)).
    split; [reflexivity|]. split; [|reflexivity].
    rewrite !lookup_alter_eq, Hheap. reflexivity.
Qed.

(** X13.  [ConvertFrom] of a generic message without context returns the
    error "invalid context" and takes nothing from the pool.  With a
    context (and the pool in a reachable state) it returns a pointer to a
    pooled message under that context which carries the code, token,
    options and body of the generic message; in the datagram framing the
    message-ID of the result is unset, so that [MessageID()] on it panics
    until one is assigned.  Both pools. *)
Theorem ConvertFrom_needs_context :
  (forall choice m st,
     message.Context m = None ->
     udp_message.ConvertFrom choice m st
       = (Ret (None, Some (ErrNew "invalid context")), st))
  /\ (forall choice m st,
     message.Context m = None ->
     tcp_message.ConvertFrom choice m st
       = (Ret (None, Some (ErrNew "invalid context")), st))
  /\ (forall choice m st c,
     udp_pool.reachable st ->
     message.Context m = Some c ->
     exists p r,
       fst (udp_message.ConvertFrom choice m st) = Ret (Some p, None)
       /\ heap (snd (udp_message.ConvertFrom choice m st)) !! p = Some r
       /\ udp_pool.Context r = Some c
       /\ udp_pool.Code r = message.Code m
       /\ udp_pool.Token r = message.Token m
       /\ udp_pool.Options r = message.Options m
       /\ udp_pool.Body r = message.Body m
       /\ udp_pool.MessageID r = Panic "messageID is not set")
  /\ (forall choice m st c,
     tcp_pool.reachable st ->
     message.Context m = Some c ->
     exists p r,
       fst (tcp_message.ConvertFrom choice m st) = Ret (Some p, None)
       /\ heap (snd (tcp_message.ConvertFrom choice m st)) !! p = Some r
       /\ tcp_pool.Context r = Some c
       /\ msgpool.Code (tcp_pool.Message_ r) = message.Code m
       /\ msgpool.Token (tcp_pool.Message_ r) = message.Token m
       /\ msgpool.Options (tcp_pool.Message_ r) = message.Options m
       /\ msgpool.Body (tcp_pool.Message_ r) = message.Body m).
Proof.
  split; [|split; [|split]].
  - intros choice m st Hc. unfold udp_message.ConvertFrom. now rewrite Hc.
  - intros choice m st Hc. unfold tcp_message.ConvertFrom. now rewrite Hc.
  - intros choice m st c Hst Hc.
    destruct (udp_ConvertFrom_result st choice m c Hst Hc)
      as (p & a & Hp & Hheap & Hctx & Hid).
    exists p. eexists. split; [exact Hp|]. split; [exact Hheap|].
    split; [exact Hctx|]. repeat (split; [reflexivity|]).
    unfold udp_pool.MessageID. simpl. now rewrite Hid.
  - intros choice m st c Hst Hc.
    destruct (tcp_ConvertFrom_result st choice m c Hst Hc)
      as (p & a & Hp & Hheap & Hctx).
    exists p. eexists. split; [exact Hp|]. split; [exact Hheap|].
    split; [exact Hctx|]. repeat split.
Qed.

Lemma ConvertFrom_needs_context_witness :
  udp_message.ConvertFrom (Some 0%nat) sample_orphan one_released
    = (Ret (None, Some (ErrNew "invalid context")), one_released)
  /\ exists p r,
       fst (udp_message.ConvertFrom (Some 0%nat) sample_request one_released)
         = Ret (Some p, None)
       /\ heap (snd (udp_message.ConvertFrom (Some 0%nat) sample_request
                       one_released)) !! p = Some r
       /\ udp_pool.Context r = Some context.Background
       /\ udp_pool.Code r = message.Code sample_request
       /\ udp_pool.Token r = message.Token sample_request
       /\ udp_pool.Options r = message.Options sample_request
       /\ udp_pool.Body r = message.Body sample_request
       /\ udp_pool.MessageID r = Panic "messageID is not set".
Proof.
  split.
  - apply (proj1 ConvertFrom_needs_context). reflexivity.
  - apply (proj1 (proj2 (proj2 ConvertFrom_needs_context))).
    + apply one_released_reachable.
    + reflexivity.
Defined.

(** X14.  [ConvertTo] applied to the message [ConvertFrom] made gives the
    generic message back, context, code, token, body and options, when
    [Clone] copies the options and [ReadBody] reads the body that was set;
    the pooled message is not touched by it.  Both pools. *)
Theorem ConvertTo_after_ConvertFrom Clone ReadBody :
  (forall o, Clone o = (o, None)) ->
  (forall k payload, msgpool.body k = Some payload ->
                     ReadBody k = (payload, None)) ->
  (forall choice m st c,
     udp_pool.reachable st ->
     message.Context m = Some c ->
     exists p r,
       fst (udp_message.ConvertFrom choice m st) = Ret (Some p, None)
       /\ heap (snd (udp_message.ConvertFrom choice m st)) !! p = Some r
       /\ udp_message.ConvertTo ReadBody Clone r = (Some m, None))
  /\ (forall choice m st c,
     tcp_pool.reachable st ->
     message.Context m = Some c ->
     exists p r,
       fst (tcp_message.ConvertFrom choice m st) = Ret (Some p, None)
       /\ heap (snd (tcp_message.ConvertFrom choice m st)) !! p = Some r
       /\ tcp_message.ConvertTo ReadBody Clone r = (Some m, None)).
Proof.
  intros HClone HRead. split.
  - intros choice m st c Hst Hc.
    destruct (udp_ConvertFrom_result st choice m c Hst Hc)
      as (p & a & Hp & Hheap & Hctx & _).
    exists p. eexists. split; [exact Hp|]. split; [exact Hheap|].
    unfold udp_message.ConvertTo. rewrite HClone.
    unfold udp_pool.Body, udp_pool.Context, udp_pool.Code, udp_pool.Token,
      udp_pool.Options. simpl. rewrite Hctx.
    destruct m as [mc code tok body opts]. simpl in *. subst mc.
    destruct body as [payload|]; [|reflexivity].
    erewrite HRead; reflexivity.
  - intros choice m st c Hst Hc.
    destruct (tcp_ConvertFrom_result st choice m c Hst Hc)
      as (p & a & Hp & Hheap & Hctx).
    exists p. eexists. split; [exact Hp|]. split; [exact Hheap|].
    unfold tcp_message.ConvertTo. rewrite HClone.
    unfold tcp_pool.Context. simpl. rewrite Hctx.
    destruct m as [mc code tok body opts]. simpl in *. subst mc.
    destruct body as [payload|]; [|reflexivity].
    erewrite HRead; reflexivity.
Qed.

Lemma sample_ReadBody_reads k payload :
  msgpool.body k = Some payload -> sample_ReadBody k = (payload, None).
Proof. intros H. unfold sample_ReadBody. now rewrite H. Qed.

Lemma ConvertTo_after_ConvertFrom_witness :
  exists p r,
    fst (udp_message.ConvertFrom (Some 0%nat) sample_request one_released)
      = Ret (Some p, None)
    /\ heap (snd (udp_message.ConvertFrom (Some 0%nat) sample_request
                    one_released)) !! p = Some r
    /\ udp_message.ConvertTo sample_ReadBody sample_Clone r
       = (Some sample_request, None).
Proof.
  apply (proj1 (ConvertTo_after_ConvertFrom sample_Clone sample_ReadBody
                  (fun o => eq_refl) sample_ReadBody_reads)
           (Some 0%nat) sample_request one_released context.Background).
  - apply one_released_reachable.
  - reflexivity.
Defined.

(** X15.  [ConvertTo] returns nil and the error when [Clone] fails, and
    when the message has a body and [ReadBody] fails; a message without
    body converts to a generic message without body, whatever [ReadBody]
    would answer.  Both pools. *)
Theorem ConvertTo_errors Clone ReadBody :
  (forall (r : udp_pool.Message),
     (forall e, snd (Clone (udp_pool.Options r)) = Some e ->
        udp_message.ConvertTo ReadBody Clone r = (None, Some e))
     /\ (forall b e, snd (Clone (udp_pool.Options r)) = None ->
           udp_pool.Body r = Some b ->
           snd (ReadBody (udp_pool.Message_ r)) = Some e ->
           udp_message.ConvertTo ReadBody Clone r = (None, Some e))
     /\ (snd (Clone (udp_pool.Options r)) = None ->
         udp_pool.Body r = None ->
         udp_message.ConvertTo ReadBody Clone r
           = (Some {| message.Context := udp_pool.ctx r;
                      message.Code := udp_pool.Code r;
                      message.Token := udp_pool.Token r;
                      message.Body := None;
                      message.Options := fst (Clone (udp_pool.Options r)) |},
              None)))
  /\ (forall (r : tcp_pool.Message),
     (forall e,
        snd (Clone (msgpool.Options (tcp_pool.Message_ r))) = Some e ->
        tcp_message.ConvertTo ReadBody Clone r = (None, Some e))
     /\ (forall b e,
           snd (Clone (msgpool.Options (tcp_pool.Message_ r))) = None ->
           msgpool.Body (tcp_pool.Message_ r) = Some b ->
           snd (ReadBody (tcp_pool.Message_ r)) = Some e ->
           tcp_message.ConvertTo ReadBody Clone r = (None, Some e))
     /\ (snd (Clone (msgpool.Options (tcp_pool.Message_ r))) = None ->
         msgpool.Body (tcp_pool.Message_ r) = None ->
         tcp_message.ConvertTo ReadBody Clone r
           = (Some {| message.Context := tcp_pool.ctx r;
                      message.Code := msgpool.Code (tcp_pool.Message_ r);
                      message.Token := msgpool.Token (tcp_pool.Message_ r);
                      message.Body := None;
                      message.Options :=
                        fst (Clone (msgpool.Options (tcp_pool.Message_ r))) |},
              None))).
Proof.
  split; intros r; (split; [|split]).
  - intros e He. unfold udp_message.ConvertTo.
    destruct (Clone _) as [opts err]. simpl in He. now rewrite He.
  - intros b e Hc Hb He. unfold udp_message.ConvertTo.
    destruct (Clone _) as [opts err]. simpl in Hc. rewrite Hc, Hb.
    destruct (ReadBody _) as [payload err']. simpl in He. now rewrite He.
  - intros Hc Hb. unfold udp_message.ConvertTo.
    destruct (Clone _) as [opts err]. simpl in Hc. rewrite Hc, Hb.
    reflexivity.
  - intros e He. unfold tcp_message.ConvertTo.
    destruct (Clone _) as [opts err]. simpl in He. now rewrite He.
  - intros b e Hc Hb He. unfold tcp_message.ConvertTo.
    destruct (Clone _) as [opts err]. simpl in Hc. rewrite Hc, Hb.
    destruct (ReadBody _) as [payload err']. simpl in He. now rewrite He.
  - intros Hc Hb. unfold tcp_message.ConvertTo.
    destruct (Clone _) as [opts err]. simpl in Hc. rewrite Hc, Hb.
    reflexivity.
Qed.

Lemma ConvertTo_errors_witness :
  udp_message.ConvertTo (fun _ => ([], Some (ErrNew "seek failed")))
    sample_Clone used_message
  = (None, Some (ErrNew "seek failed")).
Proof.
  apply (proj1 (proj2 (proj1 (ConvertTo_errors sample_Clone
                                (fun _ => ([], Some (ErrNew "seek failed"))))
                         used_message))
           [Byte.x68; Byte.x69] (ErrNew "seek failed"));
    reflexivity.
Defined.

(** ** More of the sessions *)

Lemma quiet_le env mms n k : (k <= n)%nat -> quiet env mms 0 n -> quiet env mms 0 k.
Proof. intros Hk Hq j Hj. apply Hq. lia. Qed.

(** X16.  [Run] returns only with an error: whenever it returns, its
    result is a non-nil error (on the DTLS session provided the done
    channel was still open), never nil; and while the transport delivers,
    the processor accepts and nobody asks for a close, it does not return:
    after [n] such turns it is still in its loop. *)
Theorem Run_returns_only_with_error env :
  (forall fuel (s : dtls.Session) w res,
     dtls.done s = false ->
     dtls.Run env fuel s w = Some res ->
     exists e, fst (fst res) = Ret (Some e))
  /\ (forall fuel (s : udp_session.Session) w res,
     udp_session.Run env fuel s w = Some res ->
     exists e, fst (fst res) = Some e)
  /\ (forall n fuel (s : dtls.Session) w,
     context.done (dtls.Context s) (ctxs w) = false ->
     quiet env (dtls.maxMessageSize s) 0 n ->
     (fuel <= n)%nat ->
     dtls.Run env fuel s w = None)
  /\ (forall n fuel (s : udp_session.Session) w,
     context.done (udp_session.Context s) (ctxs w) = false ->
     quiet env (udp_session.maxMessageSize s) 0 n ->
     (fuel <= n)%nat ->
     udp_session.Run env fuel s w = None).
Proof.
  split; [|split; [|split]].
  - intros fuel s w res Hfresh. unfold dtls.Run.
    destruct (dtls.Run_loop env s fuel 0 w) as [[e w1]|]; [|discriminate].
    rewrite dtls_Run_deferred_spec by assumption.
    intros [= <-]. simpl. eauto.
  - intros fuel s w res. unfold udp_session.Run.
    destruct (udp_session.Run_loop env s fuel 0 w) as [[e w1]|];
      [|discriminate].
    unfold udp_session.Run_deferred, udp_session.Close.
    rewrite udp_close_spec. intros [= <-]. simpl. eauto.
  - intros n fuel s w Hlive Hq Hfuel. unfold dtls.Run.
    replace fuel with (fuel + 0)%nat by lia.
    rewrite dtls_Run_loop_quiet by (eauto using quiet_le).
    reflexivity.
  - intros n fuel s w Hlive Hq Hfuel. unfold udp_session.Run.
    replace fuel with (fuel + 0)%nat by lia.
    rewrite udp_Run_loop_quiet by (eauto using quiet_le).
    reflexivity.
Qed.

Lemma env_quiet_quiet mms n : quiet env_quiet mms 0 n.
Proof. intros j _. split; [reflexivity|]. eexists. split; reflexivity. Qed.

Lemma Run_returns_only_with_error_witness :
  (exists e,
     fst (fst (dtls.Run_deferred env_read_fails
                 (Some (ErrWrap "cannot read from connection" (ErrNew "EOF")))
                 dtls_owner dtls_world)) = Ret (Some e))
  /\ dtls.Run env_quiet 50 dtls_owner dtls_world = None.
Proof.
  split.
  - apply (proj1 (Run_returns_only_with_error env_read_fails) 1%nat
             dtls_owner dtls_world _ eq_refl eq_refl).
  - apply (proj1 (proj2 (proj2 (Run_returns_only_with_error env_quiet)))
             50%nat 50%nat dtls_owner dtls_world eq_refl
             (env_quiet_quiet _ _)).
    lia.
Defined.

(** One turn of the loop under a context that is cancelled already. *)
Lemma dtls_Run_loop_dead env (s : dtls.Session) fuel w :
  context.done (dtls.Context s) (ctxs w) = true ->
  exists w0,
    dtls.Run_loop env s (S fuel) 0 w
      = Some (ErrWrap "cannot read from connection" context.Canceled, w0)
    /\ log w0 = log w.
Proof.
  intros Hdead. simpl. unfold ReadWithContext.
  destruct (close_requested env 0).
  - unfold dtls.Close. simpl. rewrite context_done_mono by assumption.
    eexists. split; reflexivity.
  - rewrite Hdead. eexists. split; reflexivity.
Qed.

Lemma udp_Run_loop_dead env (s : udp_session.Session) fuel w :
  context.done (udp_session.Context s) (ctxs w) = true ->
  exists w0,
    udp_session.Run_loop env s (S fuel) 0 w = Some (context.Canceled, w0)
    /\ log w0 = log w.
Proof.
  intros Hdead. simpl. unfold ReadWithContext.
  destruct (close_requested env 0).
  - unfold udp_session.Close. simpl.
    rewrite context_done_mono by assumption.
    eexists. split; reflexivity.
  - rewrite Hdead. eexists. split; reflexivity.
Qed.

(** [Run] on a DTLS session whose done channel is closed and whose
    context is cancelled. *)
Lemma dtls_Run_on_closed env (s : dtls.Session) fuel w :
  dtls.done s = true ->
  context.done (dtls.Context s) (ctxs w) = true ->
  exists s' w',
    dtls.Run env (S fuel) s w = Some (Panic "close of closed channel", s', w')
    /\ log w' = log w ++ map (fun f => EvHook f true) (dtls.onClose s)
                       ++ socket_events (dtls.closeSocket s) true.
Proof.
  intros Hdone Hdead.
  destruct (dtls_Run_loop_dead env s fuel w Hdead) as (wd & Hd & Hlog).
  unfold dtls.Run. rewrite Hd.
  unfold dtls.Run_deferred, dtls.Close, dtls.close, dtls.popOnClose.
  rewrite run_hooks_spec by reflexivity.
  unfold dtls.close_done, dtls.Done, socket_events.
  cbn [dtls.done dtls.set_onClose dtls.closeSocket]. rewrite Hdone.
  destruct (dtls.closeSocket s); cbn [connection_Close];
    eexists _, _; (split; [reflexivity|]); cbn [log emit call_cancel];
    rewrite Hlog, <- ?app_assoc, ?app_nil_r; reflexivity.
Qed.

(** [Run] on a UDP session whose context is cancelled. *)
Lemma udp_Run_on_cancelled env (s : udp_session.Session) fuel w :
  udp_session.cancel s ∈ udp_session.doneCtx s ->
  context.done (udp_session.Context s) (ctxs w) = true ->
  exists s' w',
    udp_session.Run env (S fuel) s w = Some (Some context.Canceled, s', w')
    /\ log w' = log w ++ map (fun f => EvHook f true) (udp_session.onClose s)
                       ++ socket_events (udp_session.closeSocket s) true.
Proof.
  intros Hchild Hdead.
  destruct (udp_Run_loop_dead env s fuel w Hdead) as (wd & Hd & Hlog).
  unfold udp_session.Run. rewrite Hd.
  rewrite udp_Run_deferred_spec by assumption.
  eexists _, _. split; [reflexivity|]. cbn [log]. now rewrite Hlog.
Qed.

(** X17.  A session is run once.  When [Run] has returned on a DTLS
    session made by [NewSession], a second [Run] reads nothing (the
    context is cancelled), finds no hook left, closes the transport once
    more if the session owns it, and then panics with "close of closed
    channel".  On the UDP session the second [Run] does the same without
    the panic and returns the context's error. *)
Theorem second_Run env env2 fuel fuel2 hooks e :
  (forall c conn mms cs w0 w1,
     dtls.Run_loop env
         (dtls_add_hooks hooks (fst (dtls.NewSession c conn mms cs w0)))
         fuel 0 (snd (dtls.NewSession c conn mms cs w0)) = Some (e, w1) ->
     exists s' w',
       dtls.Run env fuel
         (dtls_add_hooks hooks (fst (dtls.NewSession c conn mms cs w0)))
         (snd (dtls.NewSession c conn mms cs w0))
         = Some (Ret (Some e), s', w')
       /\ exists s'' w'',
            dtls.Run env2 (S fuel2) s' w'
              = Some (Panic "close of closed channel", s'', w'')
            /\ log w'' = log w' ++ socket_events cs true)
  /\ (forall c conn raddr mms cs dctx w0 w1,
     udp_session.Run_loop env
         (udp_add_hooks hooks
            (fst (udp_session.NewSession c conn raddr mms cs dctx w0)))
         fuel 0
         (snd (udp_session.NewSession c conn raddr mms cs dctx w0))
       = Some (e, w1) ->
     exists s' w',
       udp_session.Run env fuel
         (udp_add_hooks hooks
            (fst (udp_session.NewSession c conn raddr mms cs dctx w0)))
         (snd (udp_session.NewSession c conn raddr mms cs dctx w0))
         = Some (Some e, s', w')
       /\ exists s'' w'',
            udp_session.Run env2 (S fuel2) s' w'
              = Some (Some context.Canceled, s'', w'')
            /\ log w'' = log w' ++ socket_events cs true).
Proof.
  split.
  - intros c conn mms cs w0 w1 Hloop.
    set (s := dtls_add_hooks hooks (fst (dtls.NewSession c conn mms cs w0)))
      in *.
    assert (Hs : dtls.done s = false /\ dtls.cancel s ∈ dtls.Context s
                 /\ dtls.closeSocket s = cs).
    { subst s. rewrite dtls_add_hooks_spec. simpl.
      split; [reflexivity|]. split; [|reflexivity].
      apply elem_of_cons. now left. }
    destruct Hs as (Hfresh & Hin & Hcs).
    unfold dtls.Run at 1. rewrite Hloop.
    rewrite dtls_Run_deferred_spec by assumption.
    eexists _, _. split; [reflexivity|].
    match goal with |- context [dtls.Run env2 _ ?s1 ?w1'] =>
      destruct (dtls_Run_on_closed env2 s1 fuel2 w1') as (s'' & w'' & HR & HL)
    end.
    + reflexivity.
    + cbn [ctxs dtls.Context dtls.ctx dtls.set_done dtls.set_onClose].
      now apply context_done_cancel.
    + exists s'', w''. split; [exact HR|].
      rewrite HL. cbn [dtls.onClose dtls.set_done dtls.set_onClose
                       dtls.closeSocket map app].
      now rewrite Hcs.
  - intros c conn raddr mms cs dctx w0 w1 Hloop.
    set (s := udp_add_hooks hooks
                (fst (udp_session.NewSession c conn raddr mms cs dctx w0)))
      in *.
    assert (Hs : udp_session.cancel s ∈ udp_session.doneCtx s
                 /\ udp_session.cancel s ∈ udp_session.Context s
                 /\ udp_session.closeSocket s = cs).
    { subst s. rewrite udp_add_hooks_spec. simpl.
      split; [|split; [|reflexivity]].
      - apply elem_of_cons. right. apply elem_of_cons. now left.
      - apply elem_of_cons. now left. }
    destruct Hs as (Hchild & Hin & Hcs).
    unfold udp_session.Run at 1. rewrite Hloop.
    rewrite udp_Run_deferred_spec by assumption.
    eexists _, _. split; [reflexivity|].
    match goal with |- context [udp_session.Run env2 _ ?s1 ?w1'] =>
      destruct (udp_Run_on_cancelled env2 s1 fuel2 w1')
        as (s'' & w'' & HR & HL)
    end.
    + exact Hchild.
    + cbn [ctxs udp_session.Context udp_session.ctx udp_session.set_onClose].
      apply context_done_mono. now apply context_done_cancel.
    + exists s'', w''. split; [exact HR|].
      rewrite HL. cbn [udp_session.onClose udp_session.set_onClose
                       udp_session.closeSocket map app].
      now rewrite Hcs.
Qed.

Lemma second_Run_witness :
  exists s' w',
    dtls.Run env_read_fails 1 dtls_owner dtls_world
      = Some (Ret (Some (ErrWrap "cannot read from connection"
                           (ErrNew "EOF"))), s', w')
    /\ exists s'' w'',
         dtls.Run env_quiet 1 s' w'
           = Some (Panic "close of closed channel", s'', w'')
         /\ log w'' = log w' ++ socket_events true true.
Proof.
  apply (proj1 (second_Run env_read_fails env_quiet 1 0 [1; 2]%nat
                  (ErrWrap "cannot read from connection" (ErrNew "EOF")))
           context.Background 0%nat 1500%nat true world_init dtls_world).
  reflexivity.
Defined.

(** X18.  [close()] of the UDP session, called on a session whose done
    context is still live, runs the registered hooks in the order of
    registration while [Done()] has not fired, then closes the transport
    if the session owns it, and fires [Done()] last; it returns what
    closing the transport returned.  Called again it runs no hook, closes
    the transport once more if the session owns it, and does not panic. *)
Theorem udp_close_signals_Done_last env (s : udp_session.Session) w :
  udp_session.Done s w = false ->
  udp_session.doneCancel s ∈ udp_session.doneCtx s ->
  exists s1 w1,
    udp_session.close env s w
      = (if udp_session.closeSocket s then conn_close_result env else None,
         s1, w1)
    /\ log w1 = log w
                ++ map (fun f => EvHook f false) (udp_session.onClose s)
                ++ socket_events (udp_session.closeSocket s) false
    /\ udp_session.Done s1 w1 = true
    /\ udp_session.onClose s1 = []
    /\ exists s2 w2,
         udp_session.close env s1 w1
           = (if udp_session.closeSocket s then conn_close_result env
              else None, s2, w2)
         /\ log w2 = log w1 ++ socket_events (udp_session.closeSocket s) true.
Proof.
  intros Hlive Hchild. rewrite udp_close_spec, Hlive.
  eexists _, _. split; [reflexivity|]. split; [reflexivity|].
  assert (Hdone : udp_session.Done (udp_session.set_onClose [] s)
                    {| ctxs := context.cancel (udp_session.doneCancel s)
                                 (ctxs w);
                       log := log w
                              ++ map (fun f => EvHook f false)
                                     (udp_session.onClose s)
                              ++ socket_events (udp_session.closeSocket s)
                                   false |} = true).
  { unfold udp_session.Done. cbn [ctxs udp_session.doneCtx
                                  udp_session.set_onClose].
    now apply context_done_cancel. }
  split; [exact Hdone|]. split; [reflexivity|].
  rewrite udp_close_spec, Hdone.
  eexists _, _. split; [reflexivity|]. reflexivity.
Qed.

Lemma udp_close_signals_Done_last_witness :
  exists s1 w1,
    udp_session.close env_read_fails udp_owner udp_world
      = (Some (ErrNew "use of closed network connection"), s1, w1)
    /\ log w1 = []
                ++ map (fun f => EvHook f false) [1; 2]%nat
                ++ socket_events true false
    /\ udp_session.Done s1 w1 = true
    /\ udp_session.onClose s1 = []
    /\ exists s2 w2,
         udp_session.close env_read_fails s1 w1
           = (Some (ErrNew "use of closed network connection"), s2, w2)
         /\ log w2 = log w1 ++ socket_events true true.
Proof.
  apply (udp_close_signals_Done_last env_read_fails udp_owner udp_world).
  - reflexivity.
  - apply elem_of_cons. now left.
Defined.

Lemma context_cancel_twice t st :
  context.cancel t (context.cancel t st) = context.cancel t st.
Proof.
  unfold context.cancel. simpl. f_equal.
  now rewrite (assoc_L (∪)), (idemp_L (∪)).
Qed.

Lemma context_done_fresh c st :
  context.done c st = false ->
  (forall t, t ∈ context.cancelled st -> (t < context.next st)%nat) ->
  context.done (S (context.next st) :: context.next st :: c) st = false.
Proof.
  intros Hc Hwf. unfold context.done in *. simpl. rewrite Hc.
  rewrite !bool_decide_eq_false_2; [reflexivity| |];
    intros Hin; apply Hwf in Hin; lia.
Qed.

(** X19.  [Close()] alone only cancels the session's context: it returns
    nil, runs no hook, does not close the transport and leaves the hooks
    registered, and a second [Close()] changes nothing more.  On a DTLS
    session [Done()] is as it was, so that [Done()] of a session made by
    [NewSession] stays open after [Close()] until [Run] or [close()] ends.
    On a UDP session made by [NewSession], [Done()] is closed right after
    [Close()], with every hook still waiting, although it was open before
    when the parent context was live. *)
Theorem Close_only_cancels :
  (forall (s : dtls.Session) w,
     fst (dtls.Close s w) = None
     /\ log (snd (dtls.Close s w)) = log w
     /\ dtls.Done s (snd (dtls.Close s w)) = dtls.Done s w
     /\ dtls.Close s (snd (dtls.Close s w)) = dtls.Close s w)
  /\ (forall (s : udp_session.Session) w,
     fst (udp_session.Close s w) = None
     /\ log (snd (udp_session.Close s w)) = log w
     /\ udp_session.Close s (snd (udp_session.Close s w))
        = udp_session.Close s w)
  /\ (forall hooks c conn mms cs w0,
     let s := dtls_add_hooks hooks (fst (dtls.NewSession c conn mms cs w0)) in
     let w := snd (dtls.NewSession c conn mms cs w0) in
     context.done (dtls.Context s) (ctxs (snd (dtls.Close s w))) = true
     /\ dtls.Done s (snd (dtls.Close s w)) = false
     /\ dtls.onClose s = hooks)
  /\ (forall hooks c conn raddr mms cs dctx w0,
     let s := udp_add_hooks hooks
                (fst (udp_session.NewSession c conn raddr mms cs dctx w0)) in
     let w := snd (udp_session.NewSession c conn raddr mms cs dctx w0) in
     context.done (udp_session.Context s)
       (ctxs (snd (udp_session.Close s w))) = true
     /\ udp_session.Done s (snd (udp_session.Close s w)) = true
     /\ udp_session.onClose s = hooks
     /\ (context.done c (ctxs w0) = false ->
         (forall t, t ∈ context.cancelled (ctxs w0) ->
                    (t < context.next (ctxs w0))%nat) ->
         udp_session.Done s w = false)).
Proof.
  split; [|split; [|split]].
  - intros s w. unfold dtls.Close, call_cancel. simpl.
    repeat split. now rewrite context_cancel_twice.
  - intros s w. unfold udp_session.Close, call_cancel. simpl.
    repeat split. now rewrite context_cancel_twice.
  - intros hooks c conn mms cs w0 s w. subst s w.
    rewrite dtls_add_hooks_spec. simpl. split; [|split; reflexivity].
    apply orb_true_iff. left. apply bool_decide_eq_true. set_solver.
  - intros hooks c conn raddr mms cs dctx w0 s w. subst s w.
    rewrite udp_add_hooks_spec. unfold udp_session.Done. simpl.
    split; [|split; [|split; [reflexivity|]]].
    + apply orb_true_iff. left. apply bool_decide_eq_true. set_solver.
    + apply orb_true_iff. right. apply orb_true_iff. left.
      apply bool_decide_eq_true. set_solver.
    + intros Hc Hwf.
      pose proof (context_done_fresh c (ctxs w0) Hc Hwf) as Hfresh.
      unfold context.done in Hfresh. simpl in Hfresh. exact Hfresh.
Qed.

Lemma Close_only_cancels_witness :
  udp_session.Done udp_owner udp_world = false
  /\ udp_session.Done udp_owner (snd (udp_session.Close udp_owner udp_world))
     = true
  /\ dtls.Done dtls_owner (snd (dtls.Close dtls_owner dtls_world)) = false.
Proof.
  pose proof (proj2 (proj2 (proj2 Close_only_cancels)) [1; 2]%nat
                context.Background 0%nat 0%nat 1500%nat true
                context.Background world_init) as (_ & Hafter & _ & Hbefore).
  pose proof (proj1 (proj2 (proj2 Close_only_cancels)) [1; 2]%nat
                context.Background 0%nat 1500%nat true world_init)
    as (_ & Hdtls & _).
  split; [|split].
  - apply Hbefore; [reflexivity|]. intros t Ht. simpl in Ht.
    now apply not_elem_of_empty in Ht.
  - exact Hafter.
  - exact Hdtls.
Defined.
